(** * Ledger engine of the personal-finance backend

    A shallow embedding of [src/modules/transaction/transaction.service.ts]
    and [src/modules/loan/loan.service.ts] over a model of the Prisma store
    described by the SQL migrations, with the [createTransaction] handler of
    [src/modules/transaction/transaction.controller.ts] and the error table
    of [utils/error-handler.ts], followed by the properties of the ledger:
    balance projection, atomicity, loan state machine, statistics, what each
    call accepts, what the calls never rewrite, and what the listings show.

    Modelling conventions
    - Money in the store is [DECIMAL(18,2)]: an integer number of hundredths
      in [Z], of less than nineteen digits; a write of a value out of that
      range is refused with the client error P2020. The database adds and
      subtracts decimals exactly ([increment], [decrement], [_sum]).
    - Money in the services is a JavaScript [number] (IEEE 754 binary64,
      round to nearest, ties to even), modelled in [Number] as an integer
      count of units of 2^-59 with a significand of 53 bits. The amount of a
      request is given by the decimal of two digits that it prints as, and
      is written to the store as that decimal; [Decimal.toNumber()] and the
      comparisons and the subtraction that the services do on numbers are
      those of binary64. The exponent range is not modelled (no amount is
      near the largest number), and amounts with more than two digits after
      the point are not considered.
    - A table is a finite map from its primary key ([id], a string) to a row;
      the columns [createdAt]/[updatedAt] and the display columns that no
      service reads are left out of the rows.
    - The entries of a transaction are only ever written by the nested
      [entries: { create }] of [transaction.create] and only ever read through
      [include: { entries: true }]; a row of [Transaction] therefore carries
      its entries.
    - Foreign keys are not checked: every reference that a service writes is
      to a row that it has just read or created. The two unique indexes that
      a write of the services can meet are checked.
    - Timestamps are integers; [new Date()] is an explicit argument [now].
    - [take] and [skip] of a listing are natural numbers; the rows come
      without the relations that [include] joins to them, except for the
      payments of a loan. *)

From stdpp Require Import gmap strings list fin_maps sorting.
From Stdlib Require Import ZArith Lia.

Open Scope Z_scope.

(** ** Enumerations of the schema *)

Inductive TransactionType := income | expense | transfer.
Inductive EntryDirection := dir_in | dir_out.
Inductive LoanKind := you_owe | owed_to_you.
Inductive LoanStatus := open | closed.

#[global] Instance TransactionType_eq_dec : EqDecision TransactionType.
Proof. solve_decision. Defined.
#[global] Instance EntryDirection_eq_dec : EqDecision EntryDirection.
Proof. solve_decision. Defined.
#[global] Instance LoanKind_eq_dec : EqDecision LoanKind.
Proof. solve_decision. Defined.
#[global] Instance LoanStatus_eq_dec : EqDecision LoanStatus.
Proof. solve_decision. Defined.

(** ** Decimals and numbers *)

(** The values of a [DECIMAL(18,2)] column, in hundredths: sixteen digits
    before the point and two after it. *)
Definition decimal_18_2 (c : Z) : bool :=
  (-1000000000000000000 <? c) && (c <? 1000000000000000000).

Module Number.

(** [n / d] rounded to the nearest integer, a tie to the even one. *)
Definition nearest_even (n d : Z) : Z :=
  let q := n / d in
  let r := n mod d in
  if 2 * r <? d then q
  else if d <? 2 * r then q + 1
  else if Z.even q then q else q + 1.

(** The number nearest to the rational [n / d] (in units of 2^-59): the
    multiple of [2 ^ e] nearest to it, where [e] leaves 53 bits to the
    significand. Below 2^53 units every integer is a number. *)
Definition round (n d : Z) : Z :=
  let a := Z.abs n in
  let e := Z.max 0 (Z.log2 (a / d) - 52) in
  Z.sgn n * (nearest_even a (d * 2 ^ e) * 2 ^ e).

(** [Decimal.toNumber()], and the number that a request gives by a decimal:
    [c] hundredths are [c * 2^59 / 100 = c * 2^57 / 25] units. *)
Definition toNumber (c : Z) : Z := round (c * 2 ^ 57) 25.

(** [x - y], [x + y], [x < y], [x <= y] and [Math.max(x, y)] on numbers. *)
Definition sub (x y : Z) : Z := round (x - y) 1.
Definition add (x y : Z) : Z := round (x + y) 1.
Definition ltb (x y : Z) : bool := x <? y.
Definition leb (x y : Z) : bool := x <=? y.
Definition max (x y : Z) : Z := Z.max x y.

(** A number written to a [DECIMAL(18,2)] column: the decimal of two digits
    nearest to it, a tie away from zero. *)
Definition toDecimal (x : Z) : Z :=
  Z.sgn x * ((2 * (25 * Z.abs x) + 2 ^ 57) / (2 * 2 ^ 57)).

End Number.

#[global] Arguments Number.round : simpl never.
#[global] Arguments Number.toNumber : simpl never.
#[global] Arguments Number.sub : simpl never.
#[global] Arguments Number.add : simpl never.
#[global] Arguments Number.ltb : simpl never.
#[global] Arguments Number.leb : simpl never.
#[global] Arguments Number.max : simpl never.
#[global] Arguments Number.toDecimal : simpl never.
#[global] Arguments decimal_18_2 : simpl never.

(** ** Rows *)

Record Wallet := mkWallet {
  w_userId : string;
  w_isArchived : bool;
  w_openingBalance : Z;
  w_currentBalance : Z
}.

(** [type] of a category is the enum ['income' | 'expense']; the services
    compare it with a transaction type. *)
Record Category := mkCategory {
  c_userId : string;
  c_type : TransactionType;
  c_name : string;
  c_isSystem : bool
}.

Record TransactionEntry := mkEntry {
  e_walletId : string;
  e_direction : EntryDirection;
  e_amount : Z
}.

Record Transaction := mkTransaction {
  t_userId : string;
  t_type : TransactionType;
  t_transactionDate : Z;
  t_categoryId : option string;
  t_amount : Z;
  t_note : option string;
  t_deletedAt : option Z;
  t_loanId : option string;
  t_entries : list TransactionEntry
}.

Record Loan := mkLoan {
  l_userId : string;
  l_kind : LoanKind;
  l_counterpartyName : string;
  l_principal : Z;
  l_outstandingAmount : Z;
  l_startDate : Z;
  l_dueDate : option Z;
  l_status : LoanStatus;
  l_note : option string;
  l_deletedAt : option Z
}.

Record LoanPayment := mkLoanPayment {
  p_loanId : string;
  p_userId : string;
  p_walletId : string;
  p_transactionId : string;
  p_paymentDate : Z;
  p_amount : Z;
  p_note : option string
}.

(** ** The store *)

Record Db := mkDb {
  wallets : gmap string Wallet;
  categories : gmap string Category;
  transactions : gmap string Transaction;
  loans : gmap string Loan;
  loanPayments : gmap string LoanPayment
}.

Definition with_wallets (f : gmap string Wallet → gmap string Wallet) (db : Db) : Db :=
  mkDb (f (wallets db)) (categories db) (transactions db) (loans db) (loanPayments db).
Definition with_transactions (f : gmap string Transaction → gmap string Transaction) (db : Db) : Db :=
  mkDb (wallets db) (categories db) (f (transactions db)) (loans db) (loanPayments db).
Definition with_loans (f : gmap string Loan → gmap string Loan) (db : Db) : Db :=
  mkDb (wallets db) (categories db) (transactions db) (f (loans db)) (loanPayments db).
Definition with_loanPayments (f : gmap string LoanPayment → gmap string LoanPayment) (db : Db) : Db :=
  mkDb (wallets db) (categories db) (transactions db) (loans db) (f (loanPayments db)).

(** ** Errors and the store monad *)

(** The [Error] messages thrown by the two services, and the Prisma client
    errors that their calls can raise: P2002 (unique constraint), P2020
    (value out of range for the column) and P2025 (record to update not
    found). *)
Inductive Error :=
  | TRANSACTION_WALLET_NOT_FOUND
  | TRANSACTION_CATEGORY_NOT_FOUND
  | INVALID_CATEGORY_TYPE_FOR_INCOME
  | INVALID_CATEGORY_TYPE_FOR_EXPENSE
  | INSUFFICIENT_WALLET_BALANCE
  | SAME_WALLET_TRANSFER
  | UNSUPPORTED_TRANSACTION_TYPE
  | WALLET_NOT_FOUND
  | LOAN_NOT_FOUND
  | LOAN_ALREADY_CLOSED
  | LOAN_HAS_PAYMENTS
  | PAYMENT_EXCEEDS_OUTSTANDING
  | P2002
  | P2020
  | P2025.

#[global] Instance Error_eq_dec : EqDecision Error.
Proof. solve_decision. Defined.

Inductive Result (A : Type) :=
  | Ok (a : A)
  | Throw (e : Error).
Arguments Ok {A} a.
Arguments Throw {A} e.

(** A computation against the store: it returns or throws, and leaves a
    store behind in both cases (a throw does not undo earlier writes; only
    [transaction_] below does). *)
Definition Prisma (A : Type) : Type := Db → Result A * Db.

Definition ret {A} (a : A) : Prisma A := λ db, (Ok a, db).
Definition throw {A} (e : Error) : Prisma A := λ db, (Throw e, db).
Definition bind {A B} (c : Prisma A) (k : A → Prisma B) : Prisma B :=
  λ db, match c db with
        | (Ok a, db') => k a db'
        | (Throw e, db') => (Throw e, db')
        end.
Definition reads {A} (f : Db → A) : Prisma A := λ db, (Ok (f db), db).

Notation "'let*' x ':=' c 'in' k" := (bind c (λ x, k))
  (at level 10, x pattern, c at level 100, k at level 200).

(** [prisma.$transaction(async (tx) => body)]: the writes of [body] are kept
    when it returns and undone when it throws. *)
Definition transaction_ {A} (body : Prisma A) : Prisma A :=
  λ db, match body db with
        | (Ok a, db') => (Ok a, db')
        | (Throw e, _) => (Throw e, db)
        end.

(** ** Prisma client calls used by the services *)

(** First row of a table that satisfies a [where] clause. *)
Definition findFirst {Row} (where_ : string → Row → bool) (tbl : gmap string Row)
  : option (string * Row) :=
  List.find (λ kr, where_ kr.1 kr.2) (map_to_list tbl).

(** A [where] clause that fixes the primary key. *)
Definition findById {Row} (id : string) (where_ : Row → bool) (tbl : gmap string Row)
  : option Row :=
  match tbl !! id with
  | Some r => if where_ r then Some r else None
  | None => None
  end.

Definition is_null {A} (o : option A) : bool :=
  match o with None => true | Some _ => false end.

(** [wallet.findFirst({ where: { id, userId, isArchived: false } })] *)
Definition wallet_findFirst (walletId userId : string) : Prisma (option Wallet) :=
  reads (λ db, findById walletId
     (λ w, bool_decide (w_userId w = userId) && negb (w_isArchived w)) (wallets db)).

(** [tx.wallet.findUnique({ where: { id }, select: { currentBalance } })] *)
Definition wallet_findUnique (walletId : string) : Prisma (option Wallet) :=
  reads (λ db, wallets db !! walletId).

(** [category.findFirst({ where: { id, userId } })] *)
Definition category_findFirst (categoryId userId : string) : Prisma (option Category) :=
  reads (λ db, findById categoryId (λ c, bool_decide (c_userId c = userId)) (categories db)).

(** The row that [tx.category.findFirst({ where: { userId, type, name,
    isSystem: true } })] returns. *)
Definition default_category (db : Db) (userId : string) (type : TransactionType)
    (name : string) : option (string * Category) :=
  findFirst (λ _ c,
     bool_decide (c_userId c = userId) && bool_decide (c_type c = type)
     && bool_decide (c_name c = name) && c_isSystem c) (categories db).

Definition category_findDefault (userId : string) (type : TransactionType) (name : string)
  : Prisma (option (string * Category)) :=
  reads (λ db, default_category db userId type name).

(** A wallet row after [currentBalance: { increment: amount }]. *)
Definition credit (amount : Z) (w : Wallet) : Wallet :=
  mkWallet (w_userId w) (w_isArchived w) (w_openingBalance w)
           (w_currentBalance w + amount).

(** [tx.wallet.update({ where: { id }, data: { currentBalance: { increment } } })];
    [decrement: a] is [increment: -a]. The database adds exactly. P2025
    when the row does not exist, P2020 when the sum is out of the range of
    the column; a balance that is no value of the column is not one that the
    database holds, and is not updated either. *)
Definition wallet_increment (walletId : string) (amount : Z) : Prisma unit :=
  λ db, match wallets db !! walletId with
        | None => (Throw P2025, db)
        | Some w =>
            if decimal_18_2 (w_currentBalance w)
               && decimal_18_2 (w_currentBalance w + amount)
            then (Ok tt, with_wallets <[walletId := credit amount w]> db)
            else (Throw P2020, db)
        end.
Definition wallet_decrement (walletId : string) (amount : Z) : Prisma unit :=
  wallet_increment walletId (- amount).

(** Whether the unique index [Transaction_loanId_key] already holds a loan. *)
Definition loanId_taken (loanId : option string) (tbl : gmap string Transaction) : bool :=
  match loanId with
  | None => false
  | Some l => negb (is_null (findFirst (λ _ t, bool_decide (t_loanId t = Some l)) tbl))
  end.

(** [tx.transaction.create({ data })] with its nested entries: a new primary
    key; P2020 when the amount of the row is out of range, P2002 when the
    unique index on [loanId] already holds the loan, and P2020 when the
    amount of an entry, inserted after the row, is out of range. *)
Definition transaction_create (row : Transaction) : Prisma (string * Transaction) :=
  λ db, if negb (decimal_18_2 (t_amount row)) then (Throw P2020, db)
        else if loanId_taken (t_loanId row) (transactions db) then (Throw P2002, db)
        else if negb (forallb (λ e, decimal_18_2 (e_amount e)) (t_entries row))
        then (Throw P2020, db)
        else let id := fresh (dom (transactions db)) in
             (Ok (id, row), with_transactions <[id := row]> db).

(** A transaction row after [data: { deletedAt: now }]. *)
Definition softDeleted (now : Z) (t : Transaction) : Transaction :=
  mkTransaction (t_userId t) (t_type t) (t_transactionDate t) (t_categoryId t)
                (t_amount t) (t_note t) (Some now) (t_loanId t) (t_entries t).

(** [tx.transaction.update({ where: { id }, data: { deletedAt } })] *)
Definition transaction_softDelete (id : string) (now : Z) : Prisma unit :=
  λ db, match transactions db !! id with
        | None => (Throw P2025, db)
        | Some t => (Ok tt, with_transactions <[id := softDeleted now t]> db)
        end.

(** [tx.loan.create({ data })]: P2020 when an amount is out of range. *)
Definition loan_create (row : Loan) : Prisma (string * Loan) :=
  λ db, if negb (decimal_18_2 (l_principal row) && decimal_18_2 (l_outstandingAmount row))
        then (Throw P2020, db)
        else let id := fresh (dom (loans db)) in
             (Ok (id, row), with_loans <[id := row]> db).

(** [loan.findFirst({ where: { id, userId, deletedAt: null } })] *)
Definition loan_findFirst (loanId userId : string) : Prisma (option Loan) :=
  reads (λ db, findById loanId
     (λ l, bool_decide (l_userId l = userId) && is_null (l_deletedAt l)) (loans db)).

(** [tx.loan.update({ where: { id }, data })] for a [data] without amounts. *)
Definition loan_update (loanId : string) (f : Loan → Loan) : Prisma (string * Loan) :=
  λ db, match loans db !! loanId with
        | None => (Throw P2025, db)
        | Some l => (Ok (loanId, f l), with_loans <[loanId := f l]> db)
        end.

Definition set_deletedAt (now : Z) (l : Loan) : Loan :=
  mkLoan (l_userId l) (l_kind l) (l_counterpartyName l) (l_principal l)
         (l_outstandingAmount l) (l_startDate l) (l_dueDate l) (l_status l)
         (l_note l) (Some now).

Definition set_outstanding (outstanding : Z) (status : LoanStatus) (l : Loan) : Loan :=
  mkLoan (l_userId l) (l_kind l) (l_counterpartyName l) (l_principal l)
         outstanding (l_startDate l) (l_dueDate l) status
         (l_note l) (l_deletedAt l).

(** [tx.loan.update({ where: { id }, data: { outstandingAmount, status } })]:
    P2025 when the row does not exist, P2020 when the amount is out of
    range. *)
Definition loan_update_outstanding (loanId : string) (outstandingAmount : Z)
    (status : LoanStatus) : Prisma (string * Loan) :=
  λ db, match loans db !! loanId with
        | None => (Throw P2025, db)
        | Some l =>
            if decimal_18_2 outstandingAmount
            then (Ok (loanId, set_outstanding outstandingAmount status l),
                  with_loans <[loanId := set_outstanding outstandingAmount status l]> db)
            else (Throw P2020, db)
        end.

(** The relation [payments] of a loan, as [include: { payments: { take: n } }]
    loads it. *)
Definition payments_of (loanId : string) (tbl : gmap string LoanPayment)
  : list (string * LoanPayment) :=
  List.filter (λ kp, bool_decide (p_loanId kp.2 = loanId)) (map_to_list tbl).

(** [tx.loanPayment.create({ data })]: P2020 when the amount is out of
    range, P2002 when the unique index [LoanPayment_transactionId_key]
    already holds the transaction. *)
Definition loanPayment_create (row : LoanPayment) : Prisma (string * LoanPayment) :=
  λ db, if negb (decimal_18_2 (p_amount row)) then (Throw P2020, db)
        else if negb (is_null (findFirst
                   (λ _ p, bool_decide (p_transactionId p = p_transactionId row))
                   (loanPayments db)))
        then (Throw P2002, db)
        else let id := fresh (dom (loanPayments db)) in
             (Ok (id, row), with_loanPayments <[id := row]> db).

(** The row that [tx.transaction.findFirst({ where: { userId, deletedAt: null,
    loanId }, include: { entries: true } })] returns. *)
Definition base_transaction (db : Db) (userId loanId : string)
  : option (string * Transaction) :=
  findFirst (λ _ t,
     bool_decide (t_userId t = userId) && is_null (t_deletedAt t)
     && bool_decide (t_loanId t = Some loanId)) (transactions db).

Definition transaction_findByLoan (userId loanId : string)
  : Prisma (option (string * Transaction)) :=
  reads (λ db, base_transaction db userId loanId).

(** *** Grouped loan statistics *)

Record LoanGroup := mkLoanGroup {
  g_kind : LoanKind;
  g_status : LoanStatus;
  g_count_id : nat;
  g_sum_outstandingAmount : option Z
}.

(** [totalAmount] is a number. *)
Record LoanBucket := mkLoanBucket {
  count : nat;
  totalAmount : Z
}.

Record LoanStats := mkLoanStats {
  youOwe : LoanBucket;
  owedToYou : LoanBucket;
  totalLoans : nat
}.

Definition sum_outstanding (rows : list (string * Loan)) : Z :=
  foldr (λ kl acc, l_outstandingAmount kl.2 + acc) 0 rows.

(** One row of [GROUP BY kind, status]: present when the group has members. *)
Definition loan_group (rows : list (string * Loan)) (key : LoanKind * LoanStatus)
  : option LoanGroup :=
  let members := List.filter (λ kl, bool_decide (l_kind kl.2 = key.1)
                                    && bool_decide (l_status kl.2 = key.2)) rows in
  match members with
  | [] => None
  | _ => Some (mkLoanGroup key.1 key.2 (length members) (Some (sum_outstanding members)))
  end.

(** [prisma.loan.groupBy({ by: ['kind', 'status'],
      where: { userId, deletedAt: null },
      _count: { id: true }, _sum: { outstandingAmount: true } })] *)
Definition loan_groupBy (userId : string) (tbl : gmap string Loan) : list LoanGroup :=
  let rows := List.filter (λ kl, bool_decide (l_userId kl.2 = userId)
                                 && is_null (l_deletedAt kl.2)) (map_to_list tbl) in
  omap (loan_group rows)
       [(you_owe, open); (you_owe, closed); (owed_to_you, open); (owed_to_you, closed)].

(** JavaScript [note || fallback] on an optional string: [undefined], [null]
    and the empty string are falsy. *)
Definition or_else (note : option string) (fallback : string) : string :=
  match note with
  | None => fallback
  | Some EmptyString => fallback
  | Some n => n
  end.

(** *** Listings *)

(** [findMany({ where, orderBy, take, skip })]: the rows that satisfy
    [where], put in the order of [orderBy], without the first [skip] of them
    and cut after [take]. MySQL leaves open the order of rows that [orderBy]
    does not tell apart; here they come as the merge sort leaves them.
    [take] and [skip] are natural numbers. *)
Definition findMany {Row} (where_ : string → Row → bool)
    (orderBy : relation (string * Row)) `{!∀ x y, Decision (orderBy x y)}
    (take_ skip : nat) (tbl : gmap string Row) : list (string * Row) :=
  take take_ (drop skip
    (merge_sort orderBy (List.filter (λ kr, where_ kr.1 kr.2) (map_to_list tbl)))).

(** [count({ where })] *)
Definition count_where {Row} (where_ : string → Row → bool) (tbl : gmap string Row)
  : nat :=
  length (List.filter (λ kr, where_ kr.1 kr.2) (map_to_list tbl)).

Record Pagination := mkPagination {
  total : nat;
  limit : nat;
  offset : nat;
  hasMore : bool
}.

(** A condition on an optional key of a [where] object: absent, it holds. *)
Definition when_given {A} (o : option A) (p : A → bool) : bool :=
  match o with
  | None => true
  | Some a => p a
  end.

(** JavaScript [if (s)] on an optional string: [undefined] and the empty
    string are falsy. *)
Definition truthy (s : option string) : option string :=
  match s with
  | None => None
  | Some EmptyString => None
  | Some s => Some s
  end.

(** [{ gte, lte }] on a date column. *)
Record DateRange := mkDateRange {
  gte : option Z;
  lte : option Z
}.

Definition in_range (r : DateRange) (d : Z) : bool :=
  when_given (gte r) (λ from, from <=? d) && when_given (lte r) (λ to, d <=? to).

(** [orderBy: { paymentDate: 'desc' }] *)
Definition by_paymentDate_desc (x y : string * LoanPayment) : Prop :=
  p_paymentDate y.2 ≤ p_paymentDate x.2.

#[global] Instance by_paymentDate_desc_dec x y : Decision (by_paymentDate_desc x y).
Proof. unfold by_paymentDate_desc. apply _. Defined.

(** ** transaction.service.ts *)

Module TransactionService.

(** The payload of [CreateTransactionData], by discriminant [type]: the
    fields that each branch of the service destructures. [Unsupported]
    stands for a payload whose [type] is none of the three. *)
Record WalletData := mkWalletData {
  td_walletId : string;
  td_categoryId : string;
  td_transactionDate : Z;
  td_amount : Z;
  td_note : option string
}.

Record TransferData := mkTransferData {
  xd_fromWalletId : string;
  xd_toWalletId : string;
  xd_transactionDate : Z;
  xd_amount : Z;
  xd_note : option string
}.

Inductive CreateTransactionData :=
  | Income (data : WalletData)
  | Expense (data : WalletData)
  | Transfer (data : TransferData)
  | Unsupported (type : string).

Definition validateWalletOwnership (walletId userId : string) (requiredAmount : option Z)
  : Prisma Wallet :=
  let* wallet := wallet_findFirst walletId userId in
  match wallet with
  | None => throw TRANSACTION_WALLET_NOT_FOUND
  | Some w =>
      match requiredAmount with
      | Some required =>
          if Number.ltb (Number.toNumber (w_currentBalance w)) (Number.toNumber required)
          then throw INSUFFICIENT_WALLET_BALANCE
          else ret w
      | None => ret w
      end
  end.

Definition validateCategoryOwnership (categoryId userId : string)
    (transactionType : TransactionType) : Prisma Category :=
  let* category := category_findFirst categoryId userId in
  match category with
  | None => throw TRANSACTION_CATEGORY_NOT_FOUND
  | Some c =>
      if bool_decide (transactionType = income) && negb (bool_decide (c_type c = income))
      then throw INVALID_CATEGORY_TYPE_FOR_INCOME
      else if bool_decide (transactionType = expense)
              && negb (bool_decide (c_type c = expense))
      then throw INVALID_CATEGORY_TYPE_FOR_EXPENSE
      else ret c
  end.

Definition createIncomeTransaction (data : WalletData) (userId : string)
  : Prisma (string * Transaction) :=
  let* _ := validateWalletOwnership (td_walletId data) userId None in
  let* _ := validateCategoryOwnership (td_categoryId data) userId income in
  transaction_ (
    let* transaction := transaction_create
      (mkTransaction userId income (td_transactionDate data)
         (Some (td_categoryId data)) (td_amount data) (td_note data) None None
         [mkEntry (td_walletId data) dir_in (td_amount data)]) in
    let* _ := wallet_increment (td_walletId data) (td_amount data) in
    ret transaction).

Definition createExpenseTransaction (data : WalletData) (userId : string)
  : Prisma (string * Transaction) :=
  let* _ := validateWalletOwnership (td_walletId data) userId (Some (td_amount data)) in
  let* _ := validateCategoryOwnership (td_categoryId data) userId expense in
  transaction_ (
    let* wallet := wallet_findUnique (td_walletId data) in
    match wallet with
    | None => throw INSUFFICIENT_WALLET_BALANCE
    | Some w =>
        if Number.ltb (Number.toNumber (w_currentBalance w))
                      (Number.toNumber (td_amount data))
        then throw INSUFFICIENT_WALLET_BALANCE
        else
          let* transaction := transaction_create
            (mkTransaction userId expense (td_transactionDate data)
               (Some (td_categoryId data)) (td_amount data) (td_note data) None None
               [mkEntry (td_walletId data) dir_out (td_amount data)]) in
          let* _ := wallet_decrement (td_walletId data) (td_amount data) in
          ret transaction
    end).

Definition createTransferTransaction (data : TransferData) (userId : string)
  : Prisma (string * Transaction) :=
  if bool_decide (xd_fromWalletId data = xd_toWalletId data)
  then throw SAME_WALLET_TRANSFER
  else
    let* _ := validateWalletOwnership (xd_fromWalletId data) userId (Some (xd_amount data)) in
    let* _ := validateWalletOwnership (xd_toWalletId data) userId None in
    transaction_ (
      let* fromWallet := wallet_findUnique (xd_fromWalletId data) in
      match fromWallet with
      | None => throw INSUFFICIENT_WALLET_BALANCE
      | Some w =>
          if Number.ltb (Number.toNumber (w_currentBalance w))
                        (Number.toNumber (xd_amount data))
          then throw INSUFFICIENT_WALLET_BALANCE
          else
            let* transaction := transaction_create
              (mkTransaction userId transfer (xd_transactionDate data)
                 None (xd_amount data) (xd_note data) None None
                 [mkEntry (xd_fromWalletId data) dir_out (xd_amount data);
                  mkEntry (xd_toWalletId data) dir_in (xd_amount data)]) in
            let* _ := wallet_decrement (xd_fromWalletId data) (xd_amount data) in
            let* _ := wallet_increment (xd_toWalletId data) (xd_amount data) in
            ret transaction
      end).

Definition createTransaction (data : CreateTransactionData) (userId : string)
  : Prisma (string * Transaction) :=
  match data with
  | Income d => createIncomeTransaction d userId
  | Expense d => createExpenseTransaction d userId
  | Transfer d => createTransferTransaction d userId
  | Unsupported _ => throw UNSUPPORTED_TRANSACTION_TYPE
  end.

(** *** Listing *)

(** The optional [filters] of [getTransactions]; [limit] and [offset] are
    natural numbers. *)
Record TransactionFilters := mkTransactionFilters {
  tf_type : option TransactionType;
  tf_startDate : option Z;
  tf_endDate : option Z;
  tf_categoryId : option string;
  tf_walletId : option string;
  tf_limit : option nat;
  tf_offset : option nat;
  tf_excludeLoanRelated : option bool
}.

(** The object [baseWhere]: [userId] and [deletedAt: null], and the keys that
    the filters add. *)
Record BaseWhere := mkBaseWhere {
  bw_userId : string;
  bw_type : option TransactionType;
  bw_transactionDate : option DateRange;
  bw_categoryId : option string;
  bw_entries_some : option string
}.

(** The [where] objects that [getTransactions] builds. *)
#[warnings="-register-all"] Inductive Where :=
  | Fields (baseWhere : BaseWhere)
  | AND (conditions : list Where)
  | NOT (condition : Where)
  | OR (conditions : list Where)
  | loanPayment_isNot_null
  | loanId_not_null
  | entries_some (walletId : string).

(** [entries: { some: { walletId } }] *)
Definition some_entry (walletId : string) (t : Transaction) : bool :=
  existsb (λ e, bool_decide (e_walletId e = walletId)) (t_entries t).

Definition holds_fields (w : BaseWhere) (t : Transaction) : bool :=
  bool_decide (t_userId t = bw_userId w) && is_null (t_deletedAt t)
  && when_given (bw_type w) (λ type, bool_decide (t_type t = type))
  && when_given (bw_transactionDate w) (λ r, in_range r (t_transactionDate t))
  && when_given (bw_categoryId w) (λ c, bool_decide (t_categoryId t = Some c))
  && when_given (bw_entries_some w) (λ walletId, some_entry walletId t).

(** Whether a row satisfies a [where] object; [loanPayment] is the payment
    that refers to the transaction. *)
Fixpoint holds (db : Db) (w : Where) (id : string) (t : Transaction) : bool :=
  match w with
  | Fields baseWhere => holds_fields baseWhere t
  | AND conditions => forallb (λ c, holds db c id t) conditions
  | NOT condition => negb (holds db condition id t)
  | OR conditions => existsb (λ c, holds db c id t) conditions
  | loanPayment_isNot_null =>
      negb (is_null (findFirst (λ _ p, bool_decide (p_transactionId p = id))
                       (loanPayments db)))
  | loanId_not_null => negb (is_null (t_loanId t))
  | entries_some walletId => some_entry walletId t
  end.

(** [where.AND || []] *)
Definition AND_of (w : Where) : list Where :=
  match w with
  | AND conditions => conditions
  | _ => []
  end.

(** [where.entries = { some: { walletId } }] on the object [baseWhere]. *)
Definition set_entries (walletId : string) (w : Where) : Where :=
  match w with
  | Fields b =>
      Fields (mkBaseWhere (bw_userId b) (bw_type b) (bw_transactionDate b)
                (bw_categoryId b) (Some walletId))
  | _ => w
  end.

(** [orderBy: { transactionDate: 'desc' }] *)
Definition by_transactionDate_desc (x y : string * Transaction) : Prop :=
  t_transactionDate y.2 ≤ t_transactionDate x.2.

#[global] Instance by_transactionDate_desc_dec x y : Decision (by_transactionDate_desc x y).
Proof. unfold by_transactionDate_desc. apply _. Defined.

(** The object that [getTransactions] hands to [findMany] and [count]. *)
Definition transactions_where (userId : string) (filters : option TransactionFilters)
  : Where :=
  let filters := default (mkTransactionFilters None None None None None None None None)
                         filters in
  let excludeLoanRelated := default false (tf_excludeLoanRelated filters) in
  let baseWhere :=
    mkBaseWhere userId (tf_type filters)
      (if negb (is_null (tf_startDate filters)) || negb (is_null (tf_endDate filters))
       then Some (mkDateRange (tf_startDate filters) (tf_endDate filters))
       else None)
      (truthy (tf_categoryId filters)) None in
  let where_ :=
    if excludeLoanRelated
    then AND [Fields baseWhere; NOT (OR [loanPayment_isNot_null; loanId_not_null])]
    else Fields baseWhere in
  match truthy (tf_walletId filters) with
  | Some walletId =>
      if excludeLoanRelated
      then AND (AND_of where_ ++ [entries_some walletId])
      else set_entries walletId where_
  | None => where_
  end.

(** The rows come without their [include]d wallets and category. *)
Definition getTransactions (userId : string) (filters : option TransactionFilters)
  : Prisma (list (string * Transaction) * Pagination) :=
  let limit := default 50%nat (filters ≫= tf_limit) in
  let offset := default 0%nat (filters ≫= tf_offset) in
  let where_ := transactions_where userId filters in
  let* found :=
    reads (λ db, findMany (holds db where_) by_transactionDate_desc limit offset
                   (transactions db)) in
  let* total := reads (λ db, count_where (holds db where_) (transactions db)) in
  ret (found, mkPagination total limit offset (offset + limit <? total)%nat).

End TransactionService.

(** ** loan.service.ts *)

Module LoanService.

Record CreateLoanData := mkLoanData {
  ld_kind : LoanKind;
  ld_counterpartyName : string;
  ld_principal : Z;
  ld_walletId : string;
  ld_startDate : Z;
  ld_dueDate : option Z;
  ld_note : option string
}.

Record CreateLoanPaymentData := mkLoanPaymentData {
  pd_loanId : string;
  pd_walletId : string;
  pd_paymentDate : Z;
  pd_amount : Z;
  pd_note : option string
}.

Definition validateWalletOwnership (walletId userId : string) (requiredAmount : option Z)
  : Prisma Wallet :=
  let* wallet := wallet_findFirst walletId userId in
  match wallet with
  | None => throw WALLET_NOT_FOUND
  | Some w =>
      match requiredAmount with
      | Some required =>
          if Number.ltb (Number.toNumber (w_currentBalance w)) (Number.toNumber required)
          then throw INSUFFICIENT_WALLET_BALANCE
          else ret w
      | None => ret w
      end
  end.

Definition validateLoanOwnership (loanId userId : string) : Prisma Loan :=
  let* loan := loan_findFirst loanId userId in
  match loan with
  | None => throw LOAN_NOT_FOUND
  | Some l =>
      if bool_decide (l_status l = closed)
      then throw LOAN_ALREADY_CLOSED
      else ret l
  end.

Definition categoryId_of (c : option (string * Category)) : option string :=
  match c with
  | Some (id, _) => Some id
  | None => None
  end.

Definition createLoan (data : CreateLoanData) (userId : string)
  : Prisma (string * Loan) :=
  let kind := ld_kind data in
  let principal := ld_principal data in
  let walletId := ld_walletId data in
  let* _ := validateWalletOwnership walletId userId None in
  let* _ := if bool_decide (kind = owed_to_you)
            then let* _ := validateWalletOwnership walletId userId (Some principal) in
                 ret tt
            else ret tt in
  transaction_ (
    let* loan := loan_create
      (mkLoan userId kind (ld_counterpartyName data) principal principal
         (ld_startDate data) (ld_dueDate data) open (ld_note data) None) in
    let transactionType := if bool_decide (kind = you_owe) then income else expense in
    let entryDirection := if bool_decide (kind = you_owe) then dir_in else dir_out in
    let* defaultCategory := category_findDefault userId transactionType
      (if bool_decide (kind = you_owe) then "Vay nợ" else "Cho vay")%string in
    let categoryId := categoryId_of defaultCategory in
    let* transaction := transaction_create
      (mkTransaction userId transactionType (ld_startDate data) categoryId principal
         (Some (or_else (ld_note data)
                  ((if bool_decide (kind = you_owe) then "Vay nợ" else "Cho vay")
                   +:+ ": " +:+ ld_counterpartyName data)))
         None (Some loan.1)
         [mkEntry walletId entryDirection principal]) in
    let* _ := if bool_decide (kind = you_owe)
              then wallet_increment walletId principal
              else wallet_decrement walletId principal in
    ret loan).

Definition deleteLoan (loanId userId : string) (now : Z) : Prisma (string * Loan) :=
  transaction_ (
    let* loan := loan_findFirst loanId userId in
    match loan with
    | None => throw LOAN_NOT_FOUND
    | Some loan =>
        let* payments := reads (λ db, take 1 (payments_of loanId (loanPayments db))) in
        if (0 <? length payments)%nat
        then throw LOAN_HAS_PAYMENTS
        else
          let* baseTransaction := transaction_findByLoan userId loanId in
          let* _ :=
            match baseTransaction with
            | Some (transactionId, t) =>
                match t_entries t with
                | [entry] =>
                    let* _ := if bool_decide (l_kind loan = you_owe)
                              then wallet_decrement (e_walletId entry) (l_principal loan)
                              else wallet_increment (e_walletId entry) (l_principal loan) in
                    transaction_softDelete transactionId now
                | _ => ret tt
                end
            | None => ret tt
            end in
          loan_update loanId (set_deletedAt now)
    end).

Definition createLoanPayment (data : CreateLoanPaymentData) (userId : string)
  : Prisma (string * LoanPayment) :=
  let loanId := pd_loanId data in
  let walletId := pd_walletId data in
  let amount := pd_amount data in
  let* loan := validateLoanOwnership loanId userId in
  if Number.ltb (Number.toNumber (l_outstandingAmount loan)) (Number.toNumber amount)
  then throw PAYMENT_EXCEEDS_OUTSTANDING
  else
    let requiredAmount := if bool_decide (l_kind loan = you_owe) then Some amount else None in
    let* _ := validateWalletOwnership walletId userId requiredAmount in
    transaction_ (
      let transactionType := if bool_decide (l_kind loan = you_owe) then expense else income in
      let entryDirection := if bool_decide (l_kind loan = you_owe) then dir_out else dir_in in
      let* defaultCategory := category_findDefault userId transactionType
        (if bool_decide (l_kind loan = you_owe) then "Trả nợ" else "Thu nợ")%string in
      let categoryId := categoryId_of defaultCategory in
      let* transaction := transaction_create
        (mkTransaction userId transactionType (pd_paymentDate data) categoryId amount
           (Some (or_else (pd_note data)
                    ((if bool_decide (l_kind loan = you_owe) then "Trả nợ" else "Thu nợ")
                     +:+ ": " +:+ l_counterpartyName loan)))
           None None
           [mkEntry walletId entryDirection amount]) in
      let* loanPayment := loanPayment_create
        (mkLoanPayment loanId userId walletId transaction.1 (pd_paymentDate data)
           amount (pd_note data)) in
      let* _ := if bool_decide (l_kind loan = you_owe)
                then wallet_decrement walletId amount
                else wallet_increment walletId amount in
      let newOutstandingAmount :=
        Number.sub (Number.toNumber (l_outstandingAmount loan)) (Number.toNumber amount) in
      let newStatus := if Number.leb newOutstandingAmount 0 then closed else open in
      let* _ := loan_update_outstanding loanId
        (Number.toDecimal (Number.max 0 newOutstandingAmount)) newStatus in
      ret loanPayment).

Definition getLoanStats (userId : string) : Prisma LoanStats :=
  let* loanStats := reads (λ db, loan_groupBy userId (loans db)) in
  let youOweTotal :=
    foldl (λ sum stat,
             Number.add sum (default 0 (Number.toNumber <$> g_sum_outstandingAmount stat)))
          0
      (List.filter (λ stat, bool_decide (g_kind stat = you_owe)
                            && bool_decide (g_status stat = open)) loanStats) in
  let owedToYouTotal :=
    foldl (λ sum stat,
             Number.add sum (default 0 (Number.toNumber <$> g_sum_outstandingAmount stat)))
          0
      (List.filter (λ stat, bool_decide (g_kind stat = owed_to_you)
                            && bool_decide (g_status stat = open)) loanStats) in
  ret (mkLoanStats
         (mkLoanBucket
            (foldl (λ sum s, sum + g_count_id s)%nat 0%nat
               (List.filter (λ s, bool_decide (g_kind s = you_owe)
                                  && bool_decide (g_status s = open)) loanStats))
            youOweTotal)
         (mkLoanBucket
            (foldl (λ sum s, sum + g_count_id s)%nat 0%nat
               (List.filter (λ s, bool_decide (g_kind s = owed_to_you)
                                  && bool_decide (g_status s = open)) loanStats))
            owedToYouTotal)
         (foldl (λ sum stat, sum + g_count_id stat)%nat 0%nat loanStats)).

(** *** Listings *)

(** [Number(value) || fallback] on an optional integer: [undefined] gives
    [NaN], and [NaN] and [0] are falsy. *)
Definition number_or (value : option Z) (fallback : Z) : Z :=
  match value with
  | None => fallback
  | Some 0 => fallback
  | Some n => n
  end.

(** The part of [GetLoansQuery] that [getLoans] reads. A date is absent,
    given but not parsed by [new Date] ([Some None]), or parsed. *)
Record GetLoansQuery := mkGetLoansQuery {
  lq_kind : option LoanKind;
  lq_status : option LoanStatus;
  lq_startDate : option (option Z);
  lq_endDate : option (option Z);
  lq_limit : option Z;
  lq_offset : option Z
}.

Record LoansWhere := mkLoansWhere {
  lw_userId : string;
  lw_kind : option LoanKind;
  lw_status : option LoanStatus;
  lw_startDate : option DateRange
}.

Definition loans_holds (w : LoansWhere) (l : Loan) : bool :=
  bool_decide (l_userId l = lw_userId w) && is_null (l_deletedAt l)
  && when_given (lw_kind w) (λ kind, bool_decide (l_kind l = kind))
  && when_given (lw_status w) (λ status, bool_decide (l_status l = status))
  && when_given (lw_startDate w) (λ r, in_range r (l_startDate l)).

Definition loans_where (userId : string) (filters : GetLoansQuery) : LoansWhere :=
  mkLoansWhere userId (lq_kind filters) (lq_status filters)
    (if negb (is_null (lq_startDate filters)) || negb (is_null (lq_endDate filters))
     then Some (mkDateRange (mjoin (lq_startDate filters)) (mjoin (lq_endDate filters)))
     else None).

(** The position of a status in [ENUM('open', 'closed')]. *)
Definition status_index (s : LoanStatus) : Z :=
  match s with open => 1 | closed => 2 end.

(** A nullable date in ascending order: [NULL] comes first. *)
Definition null_first_lt (a b : option Z) : bool :=
  match a, b with
  | None, Some _ => true
  | Some a, Some b => a <? b
  | _, None => false
  end.

(** [orderBy: [{ status: 'asc' }, { dueDate: 'asc' }, { createdAt: 'desc' }]];
    [createdAt] is no column of the rows and is read from outside. *)
Definition loans_order (createdAt : string → Z) (x y : string * Loan) : Prop :=
  status_index (l_status x.2) < status_index (l_status y.2)
  ∨ (l_status x.2 = l_status y.2
     ∧ (null_first_lt (l_dueDate x.2) (l_dueDate y.2) = true
        ∨ (l_dueDate x.2 = l_dueDate y.2 ∧ createdAt y.1 ≤ createdAt x.1))).

#[global] Instance loans_order_dec createdAt x y : Decision (loans_order createdAt x y).
Proof. unfold loans_order. apply _. Defined.

(** [include: { payments: { orderBy: { paymentDate: 'desc' }, take: 3 } }] *)
Definition recent_payments (db : Db) (loanId : string) : list (string * LoanPayment) :=
  take 3 (merge_sort by_paymentDate_desc (payments_of loanId (loanPayments db))).

Definition getLoans (createdAt : string → Z) (userId : string) (filters : GetLoansQuery)
  : Prisma (list (string * Loan * list (string * LoanPayment)) * Pagination) :=
  let limit := Z.min 100 (Z.max 1 (number_or (lq_limit filters) 50)) in
  let offset := Z.max 0 (number_or (lq_offset filters) 0) in
  let where_ := loans_where userId filters in
  let* found :=
    reads (λ db, (λ kl, (kl, recent_payments db kl.1)) <$>
                 findMany (λ _, loans_holds where_) (loans_order createdAt)
                   (Z.to_nat limit) (Z.to_nat offset) (loans db)) in
  let* total := reads (λ db, count_where (λ _, loans_holds where_) (loans db)) in
  ret (found, mkPagination total (Z.to_nat limit) (Z.to_nat offset)
                (Z.to_nat offset + Z.to_nat limit <? total)%nat).

(** [getLoanById]: the loan of the caller with all its payments, most recent
    first, or [null]. *)
Definition getLoanById (loanId userId : string)
  : Prisma (option (Loan * list (string * LoanPayment))) :=
  let* loan := loan_findFirst loanId userId in
  reads (λ db, (λ l, (l, merge_sort by_paymentDate_desc
                           (payments_of loanId (loanPayments db)))) <$> loan).

(** The part of [GetLoanPaymentsQuery] that [getLoanPayments] reads; [limit]
    and [offset] are natural numbers. *)
Record GetLoanPaymentsQuery := mkGetLoanPaymentsQuery {
  pq_loanId : option string;
  pq_limit : option nat;
  pq_offset : option nat
}.

Definition payments_holds (userId : string) (loanId : option string) (p : LoanPayment)
  : bool :=
  bool_decide (p_userId p = userId)
  && when_given loanId (λ loanId, bool_decide (p_loanId p = loanId)).

Definition getLoanPayments (userId : string) (filters : GetLoanPaymentsQuery)
  : Prisma (list (string * LoanPayment) * Pagination) :=
  let limit := default 50%nat (pq_limit filters) in
  let offset := default 0%nat (pq_offset filters) in
  let loanId := truthy (pq_loanId filters) in
  let* found :=
    reads (λ db, findMany (λ _, payments_holds userId loanId) by_paymentDate_desc
                   limit offset (loanPayments db)) in
  let* total :=
    reads (λ db, count_where (λ _, payments_holds userId loanId) (loanPayments db)) in
  ret (found, mkPagination total limit offset (offset + limit <? total)%nat).

End LoanService.

(** ** utils/error-handler.ts *)

Module ErrorHandler.

Record ErrorResponse := mkErrorResponse {
  status : nat;
  message : string
}.

(** The object [ErrorMap], by its keys. *)
Definition ErrorMap : gmap string ErrorResponse :=
  list_to_map
    [ ("EMAIL_EXISTS", mkErrorResponse 409 "Email already exists");
      ("INVALID_CREDENTIALS", mkErrorResponse 401 "Email or password is incorrect");
      ("TOKEN_EXPIRED", mkErrorResponse 401 "Token expired");
      ("TOKEN_INVALID", mkErrorResponse 401 "Invalid token");
      ("UNAUTHORIZED", mkErrorResponse 401 "Unauthorized");
      ("USER_NOT_FOUND", mkErrorResponse 404 "User not found");
      ("WALLET_NAME_EXISTS", mkErrorResponse 409 "Wallet name already exists");
      ("WALLET_NOT_FOUND", mkErrorResponse 404 "Wallet not found");
      ("WALLET_HAS_TRANSACTIONS",
       mkErrorResponse 409 "Cannot archive wallet with existing transactions");
      ("CATEGORY_NAME_EXISTS",
       mkErrorResponse 409 "Category name already exists for this type");
      ("PARENT_CATEGORY_NOT_FOUND", mkErrorResponse 404 "Parent category not found");
      ("INVALID_PARENT_TYPE", mkErrorResponse 400 "Parent category must be the same type");
      ("CIRCULAR_REFERENCE", mkErrorResponse 400 "Circular reference detected");
      ("CATEGORY_NOT_FOUND", mkErrorResponse 404 "Category not found");
      ("CATEGORY_HAS_TRANSACTIONS",
       mkErrorResponse 409 "Cannot delete category with existing transactions");
      ("CATEGORY_HAS_CHILDREN",
       mkErrorResponse 409 "Cannot delete category with child categories");
      ("TEMPLATE_NOT_FOUND", mkErrorResponse 404 "Category template not found");
      ("TRANSACTION_WALLET_NOT_FOUND",
       mkErrorResponse 404 "Wallet not found or does not belong to user");
      ("TRANSACTION_CATEGORY_NOT_FOUND",
       mkErrorResponse 404 "Category not found or does not belong to user");
      ("INVALID_CATEGORY_TYPE_FOR_INCOME",
       mkErrorResponse 400 "Category type must be income for income transactions");
      ("INVALID_CATEGORY_TYPE_FOR_EXPENSE",
       mkErrorResponse 400 "Category type must be expense for expense transactions");
      ("UNSUPPORTED_TRANSACTION_TYPE", mkErrorResponse 400 "Unsupported transaction type");
      ("SAME_WALLET_TRANSFER", mkErrorResponse 400 "Ví nguồn và ví đích phải khác nhau");
      ("INSUFFICIENT_BALANCE", mkErrorResponse 400 "Insufficient balance");
      ("VALIDATION_ERROR", mkErrorResponse 400 "Validation error");
      ("INVALID_INPUT", mkErrorResponse 400 "Invalid input");
      ("DATABASE_ERROR", mkErrorResponse 500 "Database error");
      ("CONNECTION_ERROR", mkErrorResponse 500 "Connection error") ]%string.

(** [handleError(error, res, context)], by [error.message]: the status and
    the message of the response. The messages looked up are the names that
    the services throw and the texts of the Prisma client, none of which
    names a property that every object inherits. *)
Definition handleError (error_message : string) : ErrorResponse :=
  match ErrorMap !! error_message with
  | Some errorConfig => mkErrorResponse (status errorConfig) (message errorConfig)
  | None => mkErrorResponse 500 "Internal server error"
  end.

End ErrorHandler.

(** ** transaction.controller.ts *)

Module TransactionController.

(** What the controller sends: the status, the message, and the created
    transaction when there is one. *)
Record Response := mkResponse {
  res_status : nat;
  res_message : string;
  res_transaction : option (string * Transaction)
}.

(** [error.message]. An [Error] of a service carries the name it was thrown
    with; an error of the Prisma client carries the text of the client,
    [client_message]. *)
Definition message_of (client_message : Error → string) (e : Error) : string :=
  match e with
  | TRANSACTION_WALLET_NOT_FOUND => "TRANSACTION_WALLET_NOT_FOUND"
  | TRANSACTION_CATEGORY_NOT_FOUND => "TRANSACTION_CATEGORY_NOT_FOUND"
  | INVALID_CATEGORY_TYPE_FOR_INCOME => "INVALID_CATEGORY_TYPE_FOR_INCOME"
  | INVALID_CATEGORY_TYPE_FOR_EXPENSE => "INVALID_CATEGORY_TYPE_FOR_EXPENSE"
  | INSUFFICIENT_WALLET_BALANCE => "INSUFFICIENT_WALLET_BALANCE"
  | SAME_WALLET_TRANSFER => "SAME_WALLET_TRANSFER"
  | UNSUPPORTED_TRANSACTION_TYPE => "UNSUPPORTED_TRANSACTION_TYPE"
  | WALLET_NOT_FOUND => "WALLET_NOT_FOUND"
  | LOAN_NOT_FOUND => "LOAN_NOT_FOUND"
  | LOAN_ALREADY_CLOSED => "LOAN_ALREADY_CLOSED"
  | LOAN_HAS_PAYMENTS => "LOAN_HAS_PAYMENTS"
  | PAYMENT_EXCEEDS_OUTSTANDING => "PAYMENT_EXCEEDS_OUTSTANDING"
  | P2002 => client_message P2002
  | P2020 => client_message P2020
  | P2025 => client_message P2025
  end%string.

(** [createTransaction(req, res)], with [req.user?.sub] and [req.body]. *)
Definition createTransaction (client_message : Error → string)
    (sub : option string) (body : TransactionService.CreateTransactionData)
  : Db → Response * Db :=
  λ db,
    match truthy sub with
    | None => (mkResponse 401 "Unauthorized" None, db)
    | Some userId =>
        match TransactionService.createTransaction body userId db with
        | (Ok transaction, db') =>
            (mkResponse 201 "Transaction created successfully" (Some transaction), db')
        | (Throw e, db') =>
            let r := ErrorHandler.handleError (message_of client_message e) in
            (mkResponse (ErrorHandler.status r) (ErrorHandler.message r) None, db')
        end
    end.

End TransactionController.

(** ** The engine as a transition system *)

Inductive Op :=
  | CreateTransaction (data : TransactionService.CreateTransactionData) (userId : string)
  | CreateLoan (data : LoanService.CreateLoanData) (userId : string)
  | CreateLoanPayment (data : LoanService.CreateLoanPaymentData) (userId : string)
  | DeleteLoan (loanId userId : string) (now : Z).

(** What a caller observes of a call: the error, if any, and the store. *)
Definition outcome {A} (r : Result A * Db) : option Error * Db :=
  (match r.1 with Ok _ => None | Throw e => Some e end, r.2).

Definition run (op : Op) (db : Db) : option Error * Db :=
  match op with
  | CreateTransaction data userId =>
      outcome (TransactionService.createTransaction data userId db)
  | CreateLoan data userId => outcome (LoanService.createLoan data userId db)
  | CreateLoanPayment data userId =>
      outcome (LoanService.createLoanPayment data userId db)
  | DeleteLoan loanId userId now => outcome (LoanService.deleteLoan loanId userId now db)
  end.

Definition exec (op : Op) (db : Db) : Db := (run op db).2.

Definition exec_all (ops : list Op) (db : Db) : Db :=
  foldl (λ db op, exec op db) db ops.

(** ** The ledger as a projection *)

(** Sum of a column expression over a table. *)
Definition table_sum {Row} (f : Row → Z) (tbl : gmap string Row) : Z :=
  map_fold (λ _ r acc, f r + acc) 0 tbl.

Definition signed (e : TransactionEntry) : Z :=
  match e_direction e with
  | dir_in => e_amount e
  | dir_out => - e_amount e
  end.

(** Signed sum of the entries of a list that are posted to a wallet. *)
Fixpoint posted (walletId : string) (es : list TransactionEntry) : Z :=
  match es with
  | [] => 0
  | e :: es' =>
      (if bool_decide (e_walletId e = walletId) then signed e else 0)
      + posted walletId es'
  end.

(** What a transaction contributes to a wallet: nothing once soft-deleted. *)
Definition posting (walletId : string) (t : Transaction) : Z :=
  if is_null (t_deletedAt t) then posted walletId (t_entries t) else 0.

Definition ledger_balance (walletId : string) (tbl : gmap string Transaction) : Z :=
  table_sum (posting walletId) tbl.

(** Sum of the payments recorded against a loan. *)
Definition paid (loanId : string) (tbl : gmap string LoanPayment) : Z :=
  table_sum (λ p, if bool_decide (p_loanId p = loanId) then p_amount p else 0) tbl.

(** ** Predicates on the store, and sample stores *)

(** A computation that never writes, and one whose throws leave no trace. *)
Definition readonly {A} (c : Prisma A) : Prop := ∀ db, (c db).2 = db.
Definition atomic {A} (c : Prisma A) : Prop :=
  ∀ db e, (c db).1 = Throw e → (c db).2 = db.

(** The test [balance.toNumber() < amount] of the services lets the amount
    through ([outstandingAmount.toNumber()] likewise). *)
Definition covers (balance amount : Z) : Prop :=
  Number.ltb (Number.toNumber balance) (Number.toNumber amount) = false.

#[global] Instance covers_dec balance amount : Decision (covers balance amount).
Proof. unfold covers. apply _. Defined.

(** Amounts below ten trillion (in hundredths): binary64 tells them apart to
    the cent, and subtracts them with an error far below a cent. *)
Definition small (c : Z) : Prop := Z.abs c < 10 ^ 15.

#[global] Instance small_dec c : Decision (small c).
Proof. unfold small. apply _. Defined.

(** The row of a wallet with another balance. *)
Definition with_balance (w : Wallet) (balance : Z) : Wallet :=
  mkWallet (w_userId w) (w_isArchived w) (w_openingBalance w) balance.

(** The balance of a wallet can move by an amount: it is a [DECIMAL(18,2)]
    before and after. *)
Definition credit_fits (w : Wallet) (amount : Z) : Prop :=
  decimal_18_2 (w_currentBalance w) = true
  ∧ decimal_18_2 (w_currentBalance w + amount) = true.

(** The wallet that [validateWalletOwnership] accepts for a caller. *)
Definition owned_wallet (db : Db) (walletId userId : string) (w : Wallet) : Prop :=
  wallets db !! walletId = Some w ∧ w_userId w = userId ∧ w_isArchived w = false.

(** The loan that [loan.findFirst] returns for a caller. *)
Definition owned_loan (db : Db) (loanId userId : string) (l : Loan) : Prop :=
  loans db !! loanId = Some l ∧ l_userId l = userId ∧ l_deletedAt l = None.

(** What [deleteLoan] gives back to the wallet of the disbursement. *)
Definition reversal (loan : Loan) : Z :=
  if bool_decide (l_kind loan = you_owe) then - l_principal loan else l_principal loan.

(** Every wallet shows its opening balance plus what the live transactions
    post to it. *)
Definition balanced_tables (ws : gmap string Wallet) (txs : gmap string Transaction)
  : Prop :=
  map_Forall (λ walletId w,
    w_currentBalance w = w_openingBalance w + ledger_balance walletId txs) ws.

Definition balanced (db : Db) : Prop := balanced_tables (wallets db) (transactions db).

(** The entry of a disbursement carries the principal of its loan, in the
    direction of the loan's kind. *)
Definition matches_loan (loan : Loan) (e : TransactionEntry) : bool :=
  bool_decide (e_amount e = l_principal loan)
  && bool_decide (e_direction e
                  = if bool_decide (l_kind loan = you_owe) then dir_in else dir_out).

Definition disbursement_ok (lns : gmap string Loan) (t : Transaction) : bool :=
  match t_loanId t, t_deletedAt t, t_entries t with
  | Some loanId, None, [e] =>
      match lns !! loanId with
      | Some loan => matches_loan loan e
      | None => true
      end
  | _, _, _ => true
  end.

Definition disbursements_ok (db : Db) : Prop :=
  map_Forall (λ _ t, disbursement_ok (loans db) t = true) (transactions db).

Definition ledger_ok (db : Db) : Prop := balanced db ∧ disbursements_ok db.

#[global] Instance ledger_ok_dec db : Decision (ledger_ok db).
Proof. unfold ledger_ok, balanced, balanced_tables, disbursements_ok. apply _. Defined.

(** *** Loans and their disbursement *)

(** A transaction that [deleteLoan] accepts as the disbursement of a loan. *)
Definition is_base (loanId : string) (loan : Loan) (t : Transaction) : Prop :=
  t_userId t = l_userId loan ∧ t_deletedAt t = None ∧ t_loanId t = Some loanId.

(** A live loan has such a transaction, and each of them has one entry. *)
Definition loan_backed (txs : gmap string Transaction) (loanId : string) (loan : Loan)
  : Prop :=
  l_deletedAt loan = None →
  (∃ id t, txs !! id = Some t ∧ is_base loanId loan t)
  ∧ (∀ id t, txs !! id = Some t → is_base loanId loan t → ∃ e, t_entries t = [e]).

Definition loans_backed (db : Db) : Prop :=
  map_Forall (loan_backed (transactions db)) (loans db).

(** *** Sample stores and calls *)

(** Three wallets of user ["u"] at their opening balances (1000.00, 500.00
    and 100.00), two categories, and an empty ledger. *)
Definition sample_db : Db :=
  mkDb {[ "W"%string := mkWallet "u" false 100000 100000;
          "A"%string := mkWallet "u" false 50000 50000;
          "B"%string := mkWallet "u" false 10000 10000 ]}
       {[ "food"%string := mkCategory "u" expense "Food" false;
          "salary"%string := mkCategory "u" income "Salary" false ]}
       ∅ ∅ ∅.


(** An expense, a transfer, a loan that is repaid in full, and a loan that is
    deleted again. *)
Definition sample_ops : list Op :=
  [ CreateTransaction
      (TransactionService.Expense
         (TransactionService.mkWalletData "W" "food" 1 30000 None)) "u";
    CreateTransaction
      (TransactionService.Transfer
         (TransactionService.mkTransferData "A" "B" 2 20000 None)) "u";
    CreateLoan (LoanService.mkLoanData you_owe "Bob" 50000 "W" 3 None None) "u";
    CreateLoanPayment (LoanService.mkLoanPaymentData "0" "W" 4 50000 None) "u";
    CreateLoan (LoanService.mkLoanData owed_to_you "Eve" 7000 "B" 5 None None) "u";
    DeleteLoan "1" "u" 6 ].

(** A store in which a transaction row already points at the identifier that
    the next loan will receive: the unit of work of [createLoan] throws P2002
    after it has written the loan. *)
Definition dangling_db : Db :=
  mkDb {[ "W"%string := mkWallet "u" false 100000 100000 ]} ∅
       {[ "t"%string := mkTransaction "u" income 0 None 100 None None (Some "0"%string) [] ]}
       ∅ ∅.

(** A store with a repaid loan ["0"] of user ["u"], and a loan ["1"] that has
    since been deleted. *)
Definition repaid_db : Db := exec_all sample_ops sample_db.

(** A store whose loan has no disbursement transaction, as a loan created
    before transactions carried a loan reference. *)
Definition legacy_db : Db :=
  mkDb {[ "W"%string := mkWallet "u" false 100000 150000 ]} ∅ ∅
       {[ "L"%string := mkLoan "u" you_owe "Bob" 50000 50000 0 None open None None ]}
       ∅.

(** A loan of 70.00 lent from wallet B, which opened with 100.00, and its
    disbursement. *)
Definition lent_db : Db :=
  mkDb {[ "B"%string := mkWallet "u" false 10000 3000 ]} ∅
       {[ "0"%string := mkTransaction "u" expense 5 None 7000 (Some "Cho vay: Eve"%string)
                          None (Some "0"%string) [mkEntry "B" dir_out 7000] ]}
       {[ "0"%string := mkLoan "u" owed_to_you "Eve" 7000 7000 5 None open None None ]}
       ∅.

(** *** Consistency of the loans *)

(** The outstanding amount is what the payments leave of the principal, and
    the status tells whether anything is left. *)
Definition loan_ok (payments : gmap string LoanPayment) (loanId : string) (loan : Loan)
  : Prop :=
  l_outstandingAmount loan = Z.max 0 (l_principal loan - paid loanId payments)
  ∧ (l_status loan = closed ↔ l_outstandingAmount loan = 0).

(** Every payment belongs to a loan of the store (the foreign key
    [LoanPayment_loanId_fkey]). *)
Definition payments_attached (db : Db) : Prop :=
  map_Forall (λ _ p, is_Some (loans db !! p_loanId p)) (loanPayments db).

Definition loans_ok (db : Db) : Prop :=
  map_Forall (loan_ok (loanPayments db)) (loans db) ∧ payments_attached db.

#[global] Instance loan_ok_dec payments loanId loan : Decision (loan_ok payments loanId loan).
Proof. unfold loan_ok. apply _. Defined.

#[global] Instance loans_ok_dec db : Decision (loans_ok db).
Proof. unfold loans_ok, payments_attached. apply _. Defined.

(** Outstanding amounts below ten trillion. *)
Definition outstanding_small (db : Db) : Prop :=
  map_Forall (λ _ l, small (l_outstandingAmount l)) (loans db).

#[global] Instance outstanding_small_dec db : Decision (outstanding_small db).
Proof. unfold outstanding_small. apply _. Defined.

(** The calls whose principal, if they carry one, is positive and below ten
    trillion, and whose payment, if they carry one, is not negative. *)
Definition amounts_ok (op : Op) : bool :=
  match op with
  | CreateLoan data _ =>
      bool_decide (0 < LoanService.ld_principal data
                   ∧ small (LoanService.ld_principal data))
  | CreateLoanPayment data _ => bool_decide (0 ≤ LoanService.pd_amount data)
  | _ => true
  end.






(** ** Further predicates on calls and stores *)

(** The category that [validateCategoryOwnership] finds for a caller. *)
Definition owned_category (db : Db) (categoryId userId : string) (c : Category) : Prop :=
  categories db !! categoryId = Some c ∧ c_userId c = userId.

(** Every balance is a value of its column [DECIMAL(18,2)]. *)
Definition balances_decimal (db : Db) : Prop :=
  map_Forall (λ _ w, decimal_18_2 (w_currentBalance w) = true) (wallets db).

#[global] Instance balances_decimal_dec db : Decision (balances_decimal db).
Proof. unfold balances_decimal. apply _. Defined.

(** Every entry is on a wallet of the store (the foreign key
    [TransactionEntry_walletId_fkey]). *)
Definition entries_refer (db : Db) : Prop :=
  map_Forall (λ _ t, Forall (λ e, is_Some (wallets db !! e_walletId e)) (t_entries t))
             (transactions db).

#[global] Instance entries_refer_dec db : Decision (entries_refer db).
Proof. unfold entries_refer. apply _. Defined.




Definition deleteLoan_accepts (db : Db) (loanId userId : string) : Prop :=
  ∃ loan,
    owned_loan db loanId userId loan
    ∧ (∀ id p, loanPayments db !! id = Some p → p_loanId p ≠ loanId)
    ∧ (∀ transactionId t entry w,
         base_transaction db userId loanId = Some (transactionId, t) →
         t_entries t = [entry] → wallets db !! e_walletId entry = Some w →
         decimal_18_2 (if bool_decide (l_kind loan = you_owe)
                       then w_currentBalance w - l_principal loan
                       else w_currentBalance w + l_principal loan) = true).

(** A wallet that holds 1500.00 and an open debt of 5000.00 of its owner. *)
Definition owing_db : Db :=
  mkDb {[ "W"%string := mkWallet "u" false 100000 150000 ]} ∅ ∅
       {[ "L"%string := mkLoan "u" you_owe "Bob" 500000 500000 0 None open None None ]}
       ∅.

(** *** How rows may differ between two stores *)

(** A wallet keeps its owner, its archival flag and its opening balance. *)
Definition wallet_evolves (w w' : Wallet) : Prop :=
  w_userId w' = w_userId w ∧ w_isArchived w' = w_isArchived w
  ∧ w_openingBalance w' = w_openingBalance w.

(** A transaction stays as it is, or is a live loan disbursement that gets
    its [deletedAt]. *)
Definition tx_evolves (t t' : Transaction) : Prop :=
  t' = t
  ∨ (t_deletedAt t = None ∧ is_Some (t_loanId t) ∧ ∃ now, t' = softDeleted now t).

(** A loan keeps what describes it; once soft-deleted it keeps everything,
    and once closed it keeps its status and outstanding amount. *)
Definition loan_evolves (l l' : Loan) : Prop :=
  (l_userId l' = l_userId l ∧ l_kind l' = l_kind l
   ∧ l_counterpartyName l' = l_counterpartyName l ∧ l_principal l' = l_principal l
   ∧ l_startDate l' = l_startDate l ∧ l_dueDate l' = l_dueDate l
   ∧ l_note l' = l_note l)
  ∧ (l_deletedAt l ≠ None → l' = l)
  ∧ (l_status l = closed →
     l_status l' = closed ∧ l_outstandingAmount l' = l_outstandingAmount l).

(** What every table of a later store owes to an earlier one. *)
Definition store_evolves (db db' : Db) : Prop :=
  categories db' = categories db
  ∧ (∀ id, wallets db !! id = None → wallets db' !! id = None)
  ∧ (∀ id w, wallets db !! id = Some w →
       ∃ w', wallets db' !! id = Some w' ∧ wallet_evolves w w')
  ∧ (∀ id t, transactions db !! id = Some t →
       ∃ t', transactions db' !! id = Some t' ∧ tx_evolves t t')
  ∧ (∀ id l, loans db !! id = Some l →
       ∃ l', loans db' !! id = Some l' ∧ loan_evolves l l')
  ∧ (∀ id p, loanPayments db !! id = Some p → loanPayments db' !! id = Some p).

(** *** Bounds on the outstanding amount *)

Definition payments_nonneg (db : Db) : Prop :=
  map_Forall (λ _ p, 0 ≤ p_amount p) (loanPayments db).

#[global] Instance payments_nonneg_dec db : Decision (payments_nonneg db).
Proof. unfold payments_nonneg. apply _. Defined.

(** *** Payments and their transactions *)

(** A payment has its live transaction: same owner and amount, no loan
    reference, of the type and with the single entry that the kind of the
    loan asks for, on the paying wallet. *)
Definition payment_linked (db : Db) (p : LoanPayment) : Prop :=
  ∃ t loan,
    transactions db !! p_transactionId p = Some t
    ∧ loans db !! p_loanId p = Some loan
    ∧ l_userId loan = p_userId p
    ∧ t_userId t = p_userId p ∧ t_amount t = p_amount p
    ∧ t_loanId t = None ∧ t_deletedAt t = None
    ∧ t_type t = (if bool_decide (l_kind loan = you_owe) then expense else income)
    ∧ t_entries t
      = [mkEntry (p_walletId p)
           (if bool_decide (l_kind loan = you_owe) then dir_out else dir_in)
           (p_amount p)].

Definition payments_linked (db : Db) : Prop :=
  map_Forall (λ _ p, payment_linked db p) (loanPayments db)
  ∧ (∀ i j p q, loanPayments db !! i = Some p → loanPayments db !! j = Some q →
                p_transactionId p = p_transactionId q → i = j).

(** *** Callers *)

(** The user on whose behalf a call is made. *)
Definition op_user (op : Op) : string :=
  match op with
  | CreateTransaction _ userId => userId
  | CreateLoan _ userId => userId
  | CreateLoanPayment _ userId => userId
  | DeleteLoan _ userId _ => userId
  end.

(** The entries of a transaction are on wallets of its owner. *)
Definition entries_owned (db : Db) : Prop :=
  ∀ id t e w,
    transactions db !! id = Some t → e ∈ t_entries t →
    wallets db !! e_walletId e = Some w → w_userId w = t_userId t.

(** The rows of other users are the same in both stores: none is changed,
    removed or added. *)
Definition same_rows_of_others {Row} (owner : Row → string) (userId : string)
    (tbl tbl' : gmap string Row) : Prop :=
  ∀ id row, owner row ≠ userId → tbl !! id = Some row ↔ tbl' !! id = Some row.

Definition others_untouched (userId : string) (db db' : Db) : Prop :=
  same_rows_of_others w_userId userId (wallets db) (wallets db')
  ∧ same_rows_of_others t_userId userId (transactions db) (transactions db')
  ∧ same_rows_of_others l_userId userId (loans db) (loans db')
  ∧ same_rows_of_others p_userId userId (loanPayments db) (loanPayments db').

(** Two users: ["u"] with a wallet and a category, ["v"] with a wallet and
    an open loan. *)
Definition shared_db : Db :=
  mkDb {[ "W"%string := mkWallet "u" false 100000 100000;
          "V"%string := mkWallet "v" false 50000 50000 ]}
       {[ "food"%string := mkCategory "u" expense "Food" false ]}
       ∅
       {[ "L"%string := mkLoan "v" owed_to_you "Ann" 9000 9000 0 None open None None ]}
       ∅.

(** Calls of ["u"], four of them aimed at what belongs to ["v"]. *)
Definition shared_ops : list Op :=
  [ CreateTransaction
      (TransactionService.Expense
         (TransactionService.mkWalletData "V" "food" 1 100 None)) "u";
    CreateTransaction
      (TransactionService.Transfer
         (TransactionService.mkTransferData "W" "V" 2 100 None)) "u";
    CreateLoanPayment (LoanService.mkLoanPaymentData "L" "W" 3 100 None) "u";
    DeleteLoan "L" "u" 4;
    CreateLoan (LoanService.mkLoanData you_owe "Bob" 50000 "W" 5 None None) "u";
    CreateTransaction
      (TransactionService.Expense
         (TransactionService.mkWalletData "W" "food" 6 30000 None)) "u" ].

(** *** Totals and signs of the balances *)

(** What all wallets hold together. *)
Definition total_balance (db : Db) : Z := table_sum w_currentBalance (wallets db).

(** What a transaction brings in from outside the wallets. *)
Definition net_inflow (data : TransactionService.CreateTransactionData) : Z :=
  match data with
  | TransactionService.Income d => TransactionService.td_amount d
  | TransactionService.Expense d => - TransactionService.td_amount d
  | TransactionService.Transfer _ => 0
  | TransactionService.Unsupported _ => 0
  end.

Definition balances_nonneg (db : Db) : Prop :=
  map_Forall (λ _ w, 0 ≤ w_currentBalance w) (wallets db).

#[global] Instance balances_nonneg_dec db : Decision (balances_nonneg db).
Proof. unfold balances_nonneg. apply _. Defined.

(** The calls that consult the balance they lower: every call but
    [deleteLoan], with an amount below ten trillion that is not negative
    where the call adds it to a wallet. *)
Definition guarded (op : Op) : bool :=
  match op with
  | CreateTransaction (TransactionService.Income d) _ =>
      bool_decide (0 ≤ TransactionService.td_amount d)
  | CreateTransaction (TransactionService.Expense d) _ =>
      bool_decide (TransactionService.td_amount d < 10 ^ 15)
  | CreateTransaction (TransactionService.Transfer d) _ =>
      bool_decide (0 ≤ TransactionService.xd_amount d < 10 ^ 15)
  | CreateTransaction (TransactionService.Unsupported _) _ => true
  | CreateLoan data _ => bool_decide (0 ≤ LoanService.ld_principal data < 10 ^ 15)
  | CreateLoanPayment data _ => bool_decide (0 ≤ LoanService.pd_amount data < 10 ^ 15)
  | DeleteLoan _ _ _ => false
  end.

(** *** What a listing shows *)

(** The transactions that [getTransactions] has to show to a user under
    given filters. *)
Definition shown (db : Db) (userId : string)
    (filters : TransactionService.TransactionFilters) (id : string) (t : Transaction)
  : Prop :=
  t_userId t = userId ∧ t_deletedAt t = None
  ∧ (∀ type, TransactionService.tf_type filters = Some type → t_type t = type)
  ∧ (∀ d, TransactionService.tf_startDate filters = Some d → d ≤ t_transactionDate t)
  ∧ (∀ d, TransactionService.tf_endDate filters = Some d → t_transactionDate t ≤ d)
  ∧ (∀ c, TransactionService.tf_categoryId filters = Some c → c ≠ EmptyString →
          t_categoryId t = Some c)
  ∧ (∀ w, TransactionService.tf_walletId filters = Some w → w ≠ EmptyString →
          ∃ e, e ∈ t_entries t ∧ e_walletId e = w)
  ∧ (TransactionService.tf_excludeLoanRelated filters = Some true →
     t_loanId t = None
     ∧ ∀ paymentId p, loanPayments db !! paymentId = Some p → p_transactionId p ≠ id).

(** Without filters: the live transactions of the user. *)
Definition shown_plain (userId : string) (t : Transaction) : Prop :=
  t_userId t = userId ∧ t_deletedAt t = None.

(** A page of [take] rows after [skip] rows, out of [total]. *)
Definition page_length (take_ skip total : nat) : nat := (take_ `min` (total - skip))%nat.

(** No filter, and the filter that leaves out what comes from loans. *)
Definition no_filters : TransactionService.TransactionFilters :=
  TransactionService.mkTransactionFilters None None None None None None None None.

Definition excluding_loans : TransactionService.TransactionFilters :=
  TransactionService.mkTransactionFilters None None None None None None None (Some true).

(** Every loan that a transaction refers to is a loan of the store (the
    foreign key [Transaction_loanId_fkey]). *)
Definition disbursements_refer (db : Db) : Prop :=
  map_Forall (λ _ t, match t_loanId t with
                     | Some loanId => is_Some (loans db !! loanId)
                     | None => True
                     end) (transactions db).

#[global] Instance disbursements_refer_dec db : Decision (disbursements_refer db).
Proof.
  unfold disbursements_refer. apply map_Forall_dec. intros _ t.
  destruct (t_loanId t); apply _.
Defined.

(** Every payment refers to a transaction of the store (the foreign key
    [LoanPayment_transactionId_fkey]). *)
Definition payments_refer (db : Db) : Prop :=
  map_Forall (λ _ p, is_Some (transactions db !! p_transactionId p)) (loanPayments db).

#[global] Instance payments_refer_dec db : Decision (payments_refer db).
Proof. unfold payments_refer. apply _. Defined.

(** The calls that add a transaction, and those of [createTransaction]. *)
Definition adds_transaction (op : Op) : bool :=
  match op with
  | DeleteLoan _ _ _ => false
  | _ => true
  end.

Definition plain_transaction (op : Op) : bool :=
  match op with
  | CreateTransaction _ _ => true
  | _ => false
  end.

(** A payment of 500.00 on the debt of [owing_db]. *)
Definition owing_payment : Op :=
  CreateLoanPayment (LoanService.mkLoanPaymentData "L" "W" 4 50000 None) "u".

(** The amounts of a list of payments, added up. *)
Definition sum_amounts (rows : list (string * LoanPayment)) : Z :=
  foldr (λ kp acc, p_amount kp.2 + acc) 0 rows.

(** *** Shape of the transactions *)

(** The entries that the type of a transaction asks for: one [in] entry for
    an income, one [out] entry for an expense, an [out] and an [in] entry on
    two wallets for a transfer, each of the amount of the transaction. *)
Definition entries_match (t : Transaction) : Prop :=
  match t_type t with
  | income => ∃ w, t_entries t = [mkEntry w dir_in (t_amount t)]
  | expense => ∃ w, t_entries t = [mkEntry w dir_out (t_amount t)]
  | transfer =>
      ∃ a b, a ≠ b
             ∧ t_entries t = [mkEntry a dir_out (t_amount t); mkEntry b dir_in (t_amount t)]
  end.

(** The category of a transaction, when it has one, is a category of its
    owner and of its type; a transfer has none. *)
Definition category_matches (db : Db) (t : Transaction) : Prop :=
  match t_categoryId t with
  | None => True
  | Some categoryId =>
      t_type t ≠ transfer
      ∧ ∃ c, categories db !! categoryId = Some c
             ∧ c_userId c = t_userId t ∧ c_type c = t_type t
  end.

Definition transactions_wellformed (db : Db) : Prop :=
  map_Forall (λ _ t, entries_match t ∧ category_matches db t) (transactions db).

(** A store with an archived wallet, and calls that name it. *)
Definition archive_db : Db :=
  mkDb {[ "W"%string := mkWallet "u" false 100000 100000;
          "Z"%string := mkWallet "u" true 5000 5000 ]}
       {[ "food"%string := mkCategory "u" expense "Food" false;
          "salary"%string := mkCategory "u" income "Salary" false ]}
       ∅ ∅ ∅.

Definition archive_ops : list Op :=
  [ CreateTransaction
      (TransactionService.Income
         (TransactionService.mkWalletData "Z" "salary" 1 100 None)) "u";
    CreateTransaction
      (TransactionService.Transfer
         (TransactionService.mkTransferData "W" "Z" 2 100 None)) "u";
    CreateLoan (LoanService.mkLoanData you_owe "Bob" 50000 "Z" 3 None None) "u";
    CreateTransaction
      (TransactionService.Income
         (TransactionService.mkWalletData "W" "salary" 4 2500 None)) "u" ].

(** * Properties *)

(** ** Numbers and the decimals they are read from *)

Section number.
Import Number.

Lemma nearest_even_cases n d :
  0 < d →
  let m := nearest_even n d in
  (m = n / d ∨ m = n / d + 1) ∧ 2 * Z.abs (m * d - n) ≤ d.
Proof.
  intros Hd m. subst m. unfold nearest_even.
  pose proof (Z.div_mod n d ltac:(lia)) as Hdm.
  pose proof (Z.mod_pos_bound n d Hd) as Hr.
  destruct (Z.ltb_spec (2 * (n mod d)) d); [split; [by left|nia]|].
  destruct (Z.ltb_spec d (2 * (n mod d))); [split; [by right|nia]|].
  destruct (Z.even (n / d)); [split; [by left|nia] | split; [by right|nia]].
Qed.

Lemma nearest_even_mono n n' d :
  0 < d → n ≤ n' → nearest_even n d ≤ nearest_even n' d.
Proof.
  intros Hd Hle.
  pose proof (Z.div_le_mono n n' d Hd Hle) as Hq.
  destruct (proj1 (nearest_even_cases n d Hd)) as [Hm|Hm];
    destruct (proj1 (nearest_even_cases n' d Hd)) as [Hm'|Hm']; try lia.
  destruct (Z.eq_dec (n / d) (n' / d)) as [Heq|]; [|lia].
  revert Hm Hm'. unfold nearest_even. rewrite <- Heq.
  pose proof (Z.div_mod n d ltac:(lia)). pose proof (Z.div_mod n' d ltac:(lia)).
  assert (n mod d ≤ n' mod d) by nia.
  destruct (Z.ltb_spec (2 * (n mod d)) d); [lia|].
  destruct (Z.ltb_spec (2 * (n' mod d)) d); [lia|].
  destruct (Z.ltb_spec d (2 * (n mod d))); destruct (Z.ltb_spec d (2 * (n' mod d)));
    lia.
Qed.

Lemma round_opp n d : round (- n) d = - round n d.
Proof. unfold round. rewrite Z.abs_opp, Z.sgn_opp. lia. Qed.

Lemma round_0 d : round 0 d = 0.
Proof. done. Qed.

Lemma round_nonneg n d : 0 < d → 0 ≤ n → 0 ≤ round n d.
Proof.
  intros Hd Hn. unfold round.
  set (e := Z.max 0 _). assert (0 < 2 ^ e) by (apply Z.pow_pos_nonneg; lia).
  destruct (proj1 (nearest_even_cases (Z.abs n) (d * 2 ^ e) ltac:(lia))) as [Hm|Hm];
    pose proof (Z.div_pos (Z.abs n) (d * 2 ^ e) ltac:(lia) ltac:(lia));
    destruct (Z.sgn_spec n) as [[? ->]|[[? ->]|[? ->]]]; nia.
Qed.

(** The exponent of the last place of [n / d]. *)
Lemma exponent_le n d k :
  0 < d → 0 ≤ n → 0 ≤ k → n / d < 2 ^ (53 + k) →
  Z.max 0 (Z.log2 (n / d) - 52) ≤ k.
Proof.
  intros Hd Hn Hk Hlt.
  pose proof (Z.div_pos n d Hn Hd) as Hq.
  destruct (Z.eq_dec (n / d) 0) as [->|]; [simpl; lia|].
  apply Z.log2_lt_pow2 in Hlt; lia.
Qed.

Lemma round_error n d k :
  0 < d → 0 ≤ n → 0 ≤ k → n / d < 2 ^ (53 + k) →
  2 * Z.abs (round n d * d - n) ≤ d * 2 ^ k.
Proof.
  intros Hd Hn Hk Hlt. unfold round. rewrite (Z.abs_eq n) by done.
  pose proof (exponent_le n d k Hd Hn Hk Hlt) as He.
  set (e := Z.max 0 _) in *.
  assert (0 < 2 ^ e) by (apply Z.pow_pos_nonneg; lia).
  assert (2 ^ e ≤ 2 ^ k) by (apply Z.pow_le_mono_r; lia).
  destruct (Z.eq_dec n 0) as [->|Hnz].
  { simpl. nia. }
  rewrite (Z.sgn_pos n) by lia.
  pose proof (proj2 (nearest_even_cases n (d * 2 ^ e) ltac:(nia))) as Herr.
  simpl in Herr.
  replace (1 * (nearest_even n (d * 2 ^ e) * 2 ^ e) * d - n)
    with (nearest_even n (d * 2 ^ e) * (d * 2 ^ e) - n) by ring.
  nia.
Qed.

Lemma round_mono n n' d : 0 < d → 0 ≤ n → n ≤ n' → round n d ≤ round n' d.
Proof.
  intros Hd Hn Hle. unfold round.
  rewrite (Z.abs_eq n), (Z.abs_eq n') by lia.
  destruct (Z.eq_dec n 0) as [->|Hnz].
  { change (Z.sgn 0) with 0. rewrite Z.mul_0_l.
    pose proof (round_nonneg n' d Hd Hle) as Hn'.
    unfold round in Hn'. rewrite (Z.abs_eq n') in Hn' by lia. lia. }
  rewrite (Z.sgn_pos n), (Z.sgn_pos n'), !Z.mul_1_l by lia.
  pose proof (Z.div_pos n d ltac:(lia) Hd) as Hq.
  pose proof (Z.div_le_mono n n' d Hd Hle) as Hqq.
  pose proof (Z.log2_le_mono _ _ Hqq) as Hlog.
  set (e := Z.max 0 (Z.log2 (n / d) - 52)).
  set (e' := Z.max 0 (Z.log2 (n' / d) - 52)).
  assert (e ≤ e') by lia.
  assert (0 < 2 ^ e) by (apply Z.pow_pos_nonneg; lia).
  assert (0 < 2 ^ e') by (apply Z.pow_pos_nonneg; lia).
  destruct (Z.eq_dec e e') as [Heq|Hne].
  - rewrite <- Heq.
    pose proof (nearest_even_mono n n' (d * 2 ^ e) ltac:(nia) Hle). nia.
  - assert (He' : e' = Z.log2 (n' / d) - 52) by lia.
    assert (0 < n' / d).
    { destruct (Z.eq_dec (n' / d) 0) as [Hz|]; [|lia].
      rewrite Hz in He'. simpl in He'. lia. }
    (* upper bound of the smaller one *)
    assert (Hup : n / d < 2 ^ (53 + e)).
    { destruct (Z.eq_dec (n / d) 0) as [->|].
      - apply Z.pow_pos_nonneg; lia.
      - apply Z.log2_lt_pow2; lia. }
    assert (Hlow : 2 ^ (52 + e') ≤ n' / d).
    { replace (52 + e') with (Z.log2 (n' / d)) by lia.
      apply Z.log2_spec. lia. }
    rewrite Z.pow_add_r in Hup, Hlow by lia.
    assert (Hm : nearest_even n (d * 2 ^ e) ≤ 2 ^ 53).
    { destruct (proj1 (nearest_even_cases n (d * 2 ^ e) ltac:(nia))) as [->| ->].
      - rewrite <- Z.div_div by lia.
        pose proof (Z.div_lt_upper_bound (n / d) (2 ^ e) (2 ^ 53) ltac:(lia) ltac:(lia)).
        lia.
      - rewrite <- Z.div_div by lia.
        pose proof (Z.div_lt_upper_bound (n / d) (2 ^ e) (2 ^ 53) ltac:(lia) ltac:(lia)).
        lia. }
    assert (Hm' : 2 ^ 52 ≤ nearest_even n' (d * 2 ^ e')).
    { assert (2 ^ 52 ≤ n' / (d * 2 ^ e')).
      { rewrite <- Z.div_div by lia. apply Z.div_le_lower_bound; lia. }
      destruct (proj1 (nearest_even_cases n' (d * 2 ^ e') ltac:(nia))) as [->| ->]; lia. }
    assert (2 * 2 ^ e ≤ 2 ^ e').
    { replace e' with (1 + e + (e' - e - 1)) by lia.
      rewrite !Z.pow_add_r by lia.
      assert (0 < 2 ^ (e' - e - 1)) by (apply Z.pow_pos_nonneg; lia).
      change (2 ^ 1) with 2. nia. }
    change (2 ^ 53) with (2 * 2 ^ 52) in Hm. nia.
Qed.

Lemma toNumber_opp c : toNumber (- c) = - toNumber c.
Proof. unfold toNumber. rewrite Z.mul_opp_l. apply round_opp. Qed.

Lemma toNumber_nonneg c : 0 ≤ c → 0 ≤ toNumber c.
Proof. intros. apply round_nonneg; lia. Qed.

Lemma toNumber_mono c c' : c ≤ c' → toNumber c ≤ toNumber c'.
Proof.
  intros Hle. destruct (Z.le_gt_cases 0 c) as [Hc|Hc].
  - apply round_mono; lia.
  - destruct (Z.le_gt_cases 0 c') as [Hc'|Hc'].
    + pose proof (toNumber_nonneg c' Hc').
      pose proof (toNumber_nonneg (- c) ltac:(lia)) as Hn.
      rewrite toNumber_opp in Hn. lia.
    + assert (toNumber (- c') ≤ toNumber (- c)) as Hn
        by (apply round_mono; lia).
      rewrite !toNumber_opp in Hn. lia.
Qed.

(** Below ten trillion, the number read from a decimal is within a quarter
    of a thousandth of it. *)
Lemma toNumber_error c :
  Z.abs c ≤ 10 ^ 15 →
  2 * Z.abs (25 * toNumber c - c * 2 ^ 57) ≤ 25 * 2 ^ 50.
Proof.
  intros Hc.
  assert (Hpos : ∀ c, 0 ≤ c ≤ 10 ^ 15 →
            2 * Z.abs (25 * toNumber c - c * 2 ^ 57) ≤ 25 * 2 ^ 50).
  { clear. intros c [H0 Hc]. unfold toNumber.
    pose proof (round_error (c * 2 ^ 57) 25 50 ltac:(lia) ltac:(lia) ltac:(lia)) as H.
    rewrite (Z.mul_comm 25). apply H.
    apply Z.div_lt_upper_bound; [lia|].
    change (2 ^ (53 + 50)) with (2 ^ 46 * 2 ^ 57).
    assert (10 ^ 15 < 25 * 2 ^ 46) by (vm_compute; done).
    assert (0 < 2 ^ 57) by (vm_compute; done). nia. }
  destruct (Z.le_gt_cases 0 c).
  - apply Hpos. lia.
  - specialize (Hpos (- c) ltac:(lia)). rewrite toNumber_opp in Hpos. lia.
Qed.

Lemma toDecimal_nearest x k :
  2 * Z.abs (25 * x - k * 2 ^ 57) < 2 ^ 57 → toDecimal x = k.
Proof.
  intros Hnear. unfold toDecimal.
  assert (H57 : 0 < 2 ^ 57) by (vm_compute; done).
  destruct (Z.sgn_spec x) as [[Hx ->]|[[Hx ->]|[Hx ->]]].
  - rewrite Z.abs_eq by lia. rewrite Z.mul_1_l. symmetry.
    apply (Z.div_unique _ _ k (2 * (25 * x) + 2 ^ 57 - k * (2 * 2 ^ 57))); lia.
  - subst x. simpl in Hnear. lia.
  - rewrite Z.abs_neq by lia.
    replace k with (- - k) by lia. rewrite Z.mul_opp_l, Z.mul_1_l. f_equal.
    symmetry.
    apply (Z.div_unique _ _ (- k) (2 * (25 * - x) + 2 ^ 57 - - k * (2 * 2 ^ 57))); lia.
Qed.

Lemma toDecimal_toNumber c : Z.abs c ≤ 10 ^ 15 → toDecimal (toNumber c) = c.
Proof.
  intros Hc. apply toDecimal_nearest.
  pose proof (toNumber_error c Hc).
  assert (25 * 2 ^ 50 < 2 ^ 57) by (vm_compute; done). lia.
Qed.

Lemma toNumber_lt c c' :
  Z.abs c ≤ 10 ^ 15 → Z.abs c' ≤ 10 ^ 15 → c < c' → toNumber c < toNumber c'.
Proof.
  intros Hc Hc' Hlt.
  pose proof (toNumber_mono c c' ltac:(lia)) as Hle.
  destruct (Z.eq_dec (toNumber c) (toNumber c')) as [Heq|]; [|lia].
  apply (f_equal toDecimal) in Heq. rewrite !toDecimal_toNumber in Heq by done. lia.
Qed.

(** A comparison of two numbers read from decimals agrees with the
    comparison of the decimals as soon as one of them is below ten
    trillion. *)
Lemma ltb_toNumber_r o a :
  Z.abs a < 10 ^ 15 → ltb (toNumber o) (toNumber a) = (o <? a).
Proof.
  intros Ha. unfold ltb.
  destruct (Z.ltb_spec o a) as [Hlt|Hge].
  - apply Z.ltb_lt.
    destruct (Z.le_gt_cases (- 10 ^ 15) o).
    + apply toNumber_lt; lia.
    + pose proof (toNumber_mono o (- 10 ^ 15) ltac:(lia)).
      pose proof (toNumber_lt (- 10 ^ 15) a ltac:(lia) ltac:(lia) ltac:(lia)). lia.
  - apply Z.ltb_ge. by apply toNumber_mono.
Qed.

Lemma ltb_toNumber_l o a :
  Z.abs o < 10 ^ 15 → ltb (toNumber o) (toNumber a) = (o <? a).
Proof.
  intros Ho. unfold ltb.
  destruct (Z.ltb_spec o a) as [Hlt|Hge].
  - apply Z.ltb_lt.
    destruct (Z.le_gt_cases a (10 ^ 15)).
    + apply toNumber_lt; lia.
    + pose proof (toNumber_mono (10 ^ 15) a ltac:(lia)).
      pose proof (toNumber_lt o (10 ^ 15) ltac:(lia) ltac:(lia) ltac:(lia)). lia.
  - apply Z.ltb_ge. by apply toNumber_mono.
Qed.

(** Whatever the magnitudes, a balance that covers an amount passes the
    comparison of the numbers. *)
Lemma ltb_toNumber_ge o a : a ≤ o → ltb (toNumber o) (toNumber a) = false.
Proof. intros Hle. apply Z.ltb_ge. by apply toNumber_mono. Qed.

(** Below ten trillion the difference of two numbers read from decimals is
    the number of the difference of the decimals, to the cent. *)
Lemma sub_toNumber_error o a :
  Z.abs o ≤ 10 ^ 15 → Z.abs a ≤ 10 ^ 15 →
  Z.abs (25 * sub (toNumber o) (toNumber a) - (o - a) * 2 ^ 57) ≤ 50 * 2 ^ 50.
Proof.
  intros Ho Ha.
  pose proof (toNumber_error o Ho) as Eo. pose proof (toNumber_error a Ha) as Ea.
  assert (H57 : 2 ^ 57 = 128 * 2 ^ 50) by (vm_compute; done).
  assert (H15 : 10 ^ 15 < 25 * 2 ^ 46) by (vm_compute; done).
  assert (H46 : 2 ^ 50 = 16 * 2 ^ 46) by (vm_compute; done).
  assert (H0 : 0 < 2 ^ 46) by (vm_compute; done).
  set (x := toNumber o) in *. set (y := toNumber a) in *.
  assert (Hd : Z.abs (x - y) < 2 ^ (53 + 51)).
  { change (2 ^ (53 + 51)) with (2 ^ 58 * 2 ^ 46).
    assert (2 ^ 58 = 2 * 128 * 16 * 2 ^ 46) by (vm_compute; done). nia. }
  assert (Hr : 2 * Z.abs (sub x y - (x - y)) ≤ 2 ^ 51).
  { unfold sub.
    assert (Hpos : ∀ n, 0 ≤ n < 2 ^ (53 + 51) → 2 * Z.abs (round n 1 - n) ≤ 2 ^ 51).
    { clear. intros n [H0 Hn].
      pose proof (round_error n 1 51 ltac:(lia) H0 ltac:(lia)) as H.
      rewrite Z.div_1_r in H. specialize (H Hn). lia. }
    destruct (Z.le_gt_cases 0 (x - y)).
    - apply Hpos. lia.
    - specialize (Hpos (- (x - y)) ltac:(lia)). rewrite round_opp in Hpos. lia. }
  assert (2 ^ 51 = 2 * 2 ^ 50) by (vm_compute; done). lia.
Qed.

Lemma toDecimal_sub o a :
  Z.abs o ≤ 10 ^ 15 → Z.abs a ≤ 10 ^ 15 →
  toDecimal (sub (toNumber o) (toNumber a)) = o - a.
Proof.
  intros Ho Ha. apply toDecimal_nearest.
  pose proof (sub_toNumber_error o a Ho Ha).
  assert (2 * (50 * 2 ^ 50) < 2 ^ 57) by (vm_compute; done). lia.
Qed.

Lemma leb_sub_0 o a :
  Z.abs o ≤ 10 ^ 15 → Z.abs a ≤ 10 ^ 15 →
  leb (sub (toNumber o) (toNumber a)) 0 = (o - a <=? 0).
Proof.
  intros Ho Ha. unfold leb.
  pose proof (sub_toNumber_error o a Ho Ha).
  assert (2 ^ 57 = 128 * 2 ^ 50) by (vm_compute; done).
  assert (0 < 2 ^ 50) by (vm_compute; done).
  destruct (Z.leb_spec (o - a) 0).
  - apply Z.leb_le.
    destruct (Z.eq_dec o a) as [->|].
    + unfold sub. by rewrite Z.sub_diag.
    + nia.
  - apply Z.leb_gt. nia.
Qed.

Lemma toDecimal_max_sub o a :
  Z.abs o ≤ 10 ^ 15 → Z.abs a ≤ 10 ^ 15 →
  toDecimal (max 0 (sub (toNumber o) (toNumber a))) = Z.max 0 (o - a).
Proof.
  intros Ho Ha. unfold max.
  pose proof (leb_sub_0 o a Ho Ha) as Hs. unfold leb in Hs.
  destruct (Z.leb_spec (o - a) 0); [apply Z.leb_le in Hs | apply Z.leb_gt in Hs].
  - rewrite !Z.max_l by lia. done.
  - rewrite !Z.max_r by lia. by apply toDecimal_sub.
Qed.




End number.

(** ** Sums over tables *)

Section table_sum.
Context {Row : Type} (f : Row → Z).

Lemma table_sum_empty : table_sum f ∅ = 0.
Proof. apply map_fold_empty. Qed.

Lemma table_sum_insert_new (tbl : gmap string Row) id r :
  tbl !! id = None →
  table_sum f (<[id := r]> tbl) = f r + table_sum f tbl.
Proof.
  intros Hnew. unfold table_sum.
  rewrite map_fold_insert_L; [done | intros; lia | done].
Qed.

Lemma table_sum_insert (tbl : gmap string Row) id r0 r :
  tbl !! id = Some r0 →
  table_sum f (<[id := r]> tbl) = table_sum f tbl - f r0 + f r.
Proof.
  intros Hold.
  rewrite <- (insert_delete_eq tbl), table_sum_insert_new by apply lookup_delete_eq.
  rewrite <- (insert_delete_id tbl id r0 Hold) at 2.
  rewrite table_sum_insert_new by apply lookup_delete_eq. lia.
Qed.

Lemma table_sum_fresh (tbl : gmap string Row) r :
  table_sum f (<[fresh (dom tbl) := r]> tbl) = f r + table_sum f tbl.
Proof. apply table_sum_insert_new, not_elem_of_dom, is_fresh. Qed.
End table_sum.

Lemma fresh_lookup {Row} (tbl : gmap string Row) : tbl !! fresh (dom tbl) = None.
Proof. apply not_elem_of_dom, is_fresh. Qed.

(** ** [where] clauses *)

Lemma findFirst_Some {Row} (where_ : string → Row → bool) tbl id r :
  findFirst where_ tbl = Some (id, r) → tbl !! id = Some r ∧ where_ id r = true.
Proof.
  unfold findFirst. intros [Hin Hw]%find_some. split; [|done].
  by apply elem_of_map_to_list, list_elem_of_In.
Qed.

Lemma findFirst_None {Row} (where_ : string → Row → bool) tbl id r :
  findFirst where_ tbl = None → tbl !! id = Some r → where_ id r = false.
Proof.
  unfold findFirst. intros Hnone Hrow.
  apply (find_none _ _ Hnone (id, r)).
  by apply list_elem_of_In, elem_of_map_to_list.
Qed.

Lemma findById_Some {Row} id (where_ : Row → bool) tbl r :
  findById id where_ tbl = Some r ↔ tbl !! id = Some r ∧ where_ r = true.
Proof.
  unfold findById. destruct (tbl !! id) as [r'|]; [|split; [done | by intros [? _]]].
  destruct (where_ r') eqn:Hw.
  - split; [by intros [= ->] | by intros [[= ->] _]].
  - split; [done | intros [[= ->] ?]; congruence].
Qed.

(** ** Units of work *)

Lemma readonly_ret {A} (a : A) : readonly (ret a).
Proof. done. Qed.
Lemma readonly_throw {A} e : readonly (@throw A e).
Proof. done. Qed.
Lemma readonly_reads {A} (f : Db → A) : readonly (reads f).
Proof. done. Qed.
Lemma readonly_bind {A B} (c : Prisma A) (k : A → Prisma B) :
  readonly c → (∀ a, readonly (k a)) → readonly (bind c k).
Proof.
  intros Hc Hk db. unfold bind. specialize (Hc db).
  destruct (c db) as [[a|e] db']; simpl in *; subst; [apply Hk | done].
Qed.

Lemma readonly_atomic {A} (c : Prisma A) : readonly c → atomic c.
Proof. intros Hc db e _. apply Hc. Qed.

Lemma atomic_transaction_ {A} (body : Prisma A) : atomic (transaction_ body).
Proof.
  intros db e. unfold transaction_.
  by destruct (body db) as [[a|e'] db'].
Qed.

Lemma atomic_bind {A B} (c : Prisma A) (k : A → Prisma B) :
  readonly c → (∀ a, atomic (k a)) → atomic (bind c k).
Proof.
  intros Hc Hk db e. unfold bind. specialize (Hc db).
  destruct (c db) as [[a|e'] db']; simpl in *; subst; [apply Hk | done].
Qed.

Create HintDb prisma.
#[local] Hint Resolve readonly_ret readonly_throw readonly_reads readonly_atomic
  atomic_transaction_ : prisma.

Lemma readonly_tx_validateWalletOwnership walletId userId required :
  readonly (TransactionService.validateWalletOwnership walletId userId required).
Proof.
  apply readonly_bind; [apply readonly_reads|].
  intros [w|]; [|apply readonly_throw].
  destruct required as [r|]; [|apply readonly_ret].
  destruct (Number.ltb _ _); auto with prisma.
Qed.

Lemma readonly_validateCategoryOwnership categoryId userId type :
  readonly (TransactionService.validateCategoryOwnership categoryId userId type).
Proof.
  apply readonly_bind; [apply readonly_reads|].
  intros [c|]; [|apply readonly_throw].
  repeat case_match; auto with prisma.
Qed.

Lemma readonly_loan_validateWalletOwnership walletId userId required :
  readonly (LoanService.validateWalletOwnership walletId userId required).
Proof.
  apply readonly_bind; [apply readonly_reads|].
  intros [w|]; [|apply readonly_throw].
  destruct required as [r|]; [|apply readonly_ret].
  destruct (Number.ltb _ _); auto with prisma.
Qed.

Lemma readonly_validateLoanOwnership loanId userId :
  readonly (LoanService.validateLoanOwnership loanId userId).
Proof.
  apply readonly_bind; [apply readonly_reads|].
  intros [l|]; [|apply readonly_throw].
  case_match; auto with prisma.
Qed.

#[local] Hint Resolve readonly_tx_validateWalletOwnership
  readonly_validateCategoryOwnership readonly_loan_validateWalletOwnership
  readonly_validateLoanOwnership : prisma.

Lemma atomic_createTransaction data userId :
  atomic (TransactionService.createTransaction data userId).
Proof.
  destruct data as [d|d|d|ty]; simpl.
  - repeat (apply atomic_bind; [auto with prisma | intros ?]). auto with prisma.
  - repeat (apply atomic_bind; [auto with prisma | intros ?]). auto with prisma.
  - unfold TransactionService.createTransferTransaction.
    case_bool_decide; [auto with prisma|].
    repeat (apply atomic_bind; [auto with prisma | intros ?]). auto with prisma.
  - auto with prisma.
Qed.

Lemma atomic_createLoan data userId : atomic (LoanService.createLoan data userId).
Proof.
  unfold LoanService.createLoan.
  apply atomic_bind; [auto with prisma | intros ?].
  apply atomic_bind; [| intros ?; auto with prisma].
  case_bool_decide; [|auto with prisma].
  apply readonly_bind; [auto with prisma | intros ?; auto with prisma].
Qed.

Lemma atomic_createLoanPayment data userId :
  atomic (LoanService.createLoanPayment data userId).
Proof.
  unfold LoanService.createLoanPayment.
  apply atomic_bind; [auto with prisma | intros loan].
  case_match; [auto with prisma|].
  apply atomic_bind; [auto with prisma | intros ?]. auto with prisma.
Qed.

Lemma atomic_deleteLoan loanId userId now :
  atomic (LoanService.deleteLoan loanId userId now).
Proof. apply atomic_transaction_. Qed.

Lemma outcome_atomic {A} (c : Prisma A) db e :
  atomic c → (outcome (c db)).1 = Some e → (outcome (c db)).2 = db.
Proof.
  intros Hc. unfold outcome; cbn [fst snd].
  specialize (Hc db).
  destruct (c db) as [[r|e'] db']; [done|]. intros _. by apply (Hc e').
Qed.

Lemma run_error_inv op db e :
  (run op db).1 = Some e → (run op db).2 = db.
Proof.
  destruct op as [data userId|data userId|data userId|loanId userId now];
    apply outcome_atomic.
  - apply atomic_createTransaction.
  - apply atomic_createLoan.
  - apply atomic_createLoanPayment.
  - apply atomic_deleteLoan.
Qed.

(** ** What a successful call leaves in the store *)

Ltac prisma_unfold H :=
  unfold TransactionService.createTransaction,
    TransactionService.createIncomeTransaction,
    TransactionService.createExpenseTransaction,
    TransactionService.createTransferTransaction,
    TransactionService.validateWalletOwnership,
    TransactionService.validateCategoryOwnership,
    LoanService.createLoan, LoanService.deleteLoan, LoanService.createLoanPayment,
    LoanService.validateWalletOwnership, LoanService.validateLoanOwnership,
    wallet_findFirst, wallet_findUnique, category_findFirst, category_findDefault,
    wallet_decrement, wallet_increment, transaction_create, transaction_softDelete,
    loan_create, loan_findFirst, loan_update, loan_update_outstanding,
    loanPayment_create, transaction_findByLoan, transaction_, bind, ret, throw, reads,
    with_wallets, with_transactions, with_loans, with_loanPayments in H;
  cbv beta iota zeta in H;
  cbn [wallets categories transactions loans loanPayments fst snd
       t_loanId loanId_taken] in H.

(** Case analysis on the innermost [match] of a hypothesis. *)
Ltac prisma_case H :=
  match type of H with
  | context [match ?x with _ => _ end] =>
      lazymatch x with
      | context [match _ with _ => _ end] => fail
      | _ => let E := fresh "E" in destruct x eqn:E; try discriminate H
      end
  end.

Ltac prisma_inv H :=
  prisma_unfold H;
  repeat (prisma_case H;
          cbn [wallets categories transactions loans loanPayments fst snd
               t_loanId loanId_taken] in H);
  simplify_eq.

Lemma wallet_where_Some db walletId userId w :
  findById walletId
    (λ w, bool_decide (w_userId w = userId) && negb (w_isArchived w)) (wallets db)
    = Some w ↔ owned_wallet db walletId userId w.
Proof.
  rewrite findById_Some. unfold owned_wallet.
  rewrite andb_true_iff, bool_decide_eq_true, negb_true_iff. tauto.
Qed.

Lemma wallet_where_None db walletId userId :
  findById walletId
    (λ w, bool_decide (w_userId w = userId) && negb (w_isArchived w)) (wallets db)
    = None ↔ ∀ w, ¬ owned_wallet db walletId userId w.
Proof.
  split.
  - intros Hnone w Hw%wallet_where_Some. congruence.
  - intros Hno. destruct (findById _ _ _) as [w|] eqn:E; [|done].
    by apply wallet_where_Some, Hno in E.
Qed.

Section transaction_service.
Import TransactionService.

Lemma createIncomeTransaction_Ok data userId db r db' :
  createIncomeTransaction data userId db = (Ok r, db') →
  ∃ w, owned_wallet db (td_walletId data) userId w ∧
    let row := mkTransaction userId income (td_transactionDate data)
                 (Some (td_categoryId data)) (td_amount data) (td_note data)
                 None None [mkEntry (td_walletId data) dir_in (td_amount data)] in
    let id := fresh (dom (transactions db)) in
    r = (id, row) ∧
    db' = mkDb (<[td_walletId data := credit (td_amount data) w]> (wallets db))
               (categories db) (<[id := row]> (transactions db))
               (loans db) (loanPayments db).
Proof.
  intros H. prisma_inv H.
  match goal with E : findById _ _ (wallets _) = Some ?w |- _ =>
    apply wallet_where_Some in E; exists w; pose proof E as (? & _) end.
  by simplify_eq.
Qed.

Lemma createExpenseTransaction_Ok data userId db r db' :
  createExpenseTransaction data userId db = (Ok r, db') →
  ∃ w, owned_wallet db (td_walletId data) userId w ∧
    covers (w_currentBalance w) (td_amount data) ∧
    let row := mkTransaction userId expense (td_transactionDate data)
                 (Some (td_categoryId data)) (td_amount data) (td_note data)
                 None None [mkEntry (td_walletId data) dir_out (td_amount data)] in
    let id := fresh (dom (transactions db)) in
    r = (id, row) ∧
    db' = mkDb (<[td_walletId data := credit (- td_amount data) w]> (wallets db))
               (categories db) (<[id := row]> (transactions db))
               (loans db) (loanPayments db).
Proof.
  intros H. prisma_inv H.
  match goal with E : findById _ _ (wallets _) = Some ?w |- _ =>
    apply wallet_where_Some in E; exists w; pose proof E as (? & _) end.
  by simplify_eq.
Qed.

Lemma createTransferTransaction_Ok data userId db r db' :
  createTransferTransaction data userId db = (Ok r, db') →
  ∃ wf wt,
    xd_fromWalletId data ≠ xd_toWalletId data ∧
    owned_wallet db (xd_fromWalletId data) userId wf ∧
    owned_wallet db (xd_toWalletId data) userId wt ∧
    covers (w_currentBalance wf) (xd_amount data) ∧
    let row := mkTransaction userId transfer (xd_transactionDate data)
                 None (xd_amount data) (xd_note data) None None
                 [mkEntry (xd_fromWalletId data) dir_out (xd_amount data);
                  mkEntry (xd_toWalletId data) dir_in (xd_amount data)] in
    let id := fresh (dom (transactions db)) in
    r = (id, row) ∧
    db' = mkDb (<[xd_toWalletId data := credit (xd_amount data) wt]>
                  (<[xd_fromWalletId data := credit (- xd_amount data) wf]>
                     (wallets db)))
               (categories db) (<[id := row]> (transactions db))
               (loans db) (loanPayments db).
Proof.
  intros H. prisma_inv H.
  repeat match goal with E : findById _ _ (wallets _) = Some _ |- _ =>
    apply wallet_where_Some in E end.
  repeat match goal with E : owned_wallet _ _ _ _ |- _ =>
    pose proof E as (? & _); revert E end.
  intros Ht Hf.
  match goal with E : bool_decide _ = false |- _ =>
    apply bool_decide_eq_false in E end.
  match goal with E : <[_ := _]> _ !! _ = Some _ |- _ =>
    rewrite lookup_insert_ne in E by done end.
  simplify_eq. by eexists _, _.
Qed.

End transaction_service.

Lemma loan_where_Some db loanId userId l :
  findById loanId
    (λ l, bool_decide (l_userId l = userId) && is_null (l_deletedAt l)) (loans db)
    = Some l ↔ owned_loan db loanId userId l.
Proof.
  rewrite findById_Some. unfold owned_loan.
  rewrite andb_true_iff, bool_decide_eq_true.
  destruct (l_deletedAt l); simpl; intuition congruence.
Qed.

Lemma loan_where_None db loanId userId :
  findById loanId
    (λ l, bool_decide (l_userId l = userId) && is_null (l_deletedAt l)) (loans db)
    = None ↔ ∀ l, ¬ owned_loan db loanId userId l.
Proof.
  split.
  - intros Hnone l Hl%loan_where_Some. congruence.
  - intros Hno. destruct (findById _ _ _) as [l|] eqn:E; [|done].
    by apply loan_where_Some, Hno in E.
Qed.

(** Turn the boolean tests met along a run into propositions. *)
Ltac prisma_facts :=
  repeat match goal with
  | E : findById _ _ (wallets _) = Some _ |- _ =>
      apply wallet_where_Some in E; destruct E as (? & ? & ?)
  | E : findById _ _ (loans _) = Some _ |- _ =>
      apply loan_where_Some in E; destruct E as (? & ? & ?)
  | E : bool_decide _ = true |- _ => apply bool_decide_eq_true in E
  | E : bool_decide _ = false |- _ => apply bool_decide_eq_false in E
  | E : (_ <? _) = false |- _ => apply Z.ltb_ge in E
  | E : (_ <? _) = true |- _ => apply Z.ltb_lt in E
  | E : (_ <=? _) = false |- _ => apply Z.leb_gt in E
  | E : (_ <=? _) = true |- _ => apply Z.leb_le in E
  end;
  unfold default_category, base_transaction in *;
  cbn [wallets categories transactions loans loanPayments] in *;
  simplify_eq.

Section loan_service.
Import LoanService.

Lemma createLoan_Ok data userId db r db' :
  createLoan data userId db = (Ok r, db') →
  ∃ w categoryId note,
    owned_wallet db (ld_walletId data) userId w ∧
    (ld_kind data = owed_to_you → covers (w_currentBalance w) (ld_principal data)) ∧
    let you := bool_decide (ld_kind data = you_owe) in
    let loanId := fresh (dom (loans db)) in
    let transactionId := fresh (dom (transactions db)) in
    let loan := mkLoan userId (ld_kind data) (ld_counterpartyName data)
                  (ld_principal data) (ld_principal data) (ld_startDate data)
                  (ld_dueDate data) open (ld_note data) None in
    let row := mkTransaction userId (if you then income else expense)
                 (ld_startDate data) categoryId (ld_principal data) (Some note)
                 None (Some loanId)
                 [mkEntry (ld_walletId data) (if you then dir_in else dir_out)
                    (ld_principal data)] in
    categoryId = LoanService.categoryId_of
      (default_category db userId (if you then income else expense)
         (if you then "Vay nợ" else "Cho vay")%string) ∧
    loanId_taken (Some loanId) (transactions db) = false ∧
    r = (loanId, loan) ∧
    db' = mkDb (<[ld_walletId data :=
                   credit (if you then ld_principal data else - ld_principal data) w]>
                  (wallets db))
               (categories db) (<[transactionId := row]> (transactions db))
               (<[loanId := loan]> (loans db)) (loanPayments db).
Proof.
  intros H. prisma_inv H; prisma_facts.
  all: eexists _, _, _; unfold owned_wallet; split_and!; try done; congruence.
Qed.

Lemma createLoanPayment_Ok data userId db r db' :
  createLoanPayment data userId db = (Ok r, db') →
  ∃ loan w categoryId note,
    owned_loan db (pd_loanId data) userId loan ∧
    l_status loan = open ∧
    covers (l_outstandingAmount loan) (pd_amount data) ∧
    owned_wallet db (pd_walletId data) userId w ∧
    (l_kind loan = you_owe → covers (w_currentBalance w) (pd_amount data)) ∧
    let you := bool_decide (l_kind loan = you_owe) in
    let transactionId := fresh (dom (transactions db)) in
    let paymentId := fresh (dom (loanPayments db)) in
    let row := mkTransaction userId (if you then expense else income)
                 (pd_paymentDate data) categoryId (pd_amount data) (Some note)
                 None None
                 [mkEntry (pd_walletId data) (if you then dir_out else dir_in)
                    (pd_amount data)] in
    let payment := mkLoanPayment (pd_loanId data) userId (pd_walletId data)
                     transactionId (pd_paymentDate data) (pd_amount data)
                     (pd_note data) in
    let newOutstandingAmount :=
      Number.sub (Number.toNumber (l_outstandingAmount loan))
                 (Number.toNumber (pd_amount data)) in
    r = (paymentId, payment) ∧
    db' = mkDb (<[pd_walletId data :=
                   credit (if you then - pd_amount data else pd_amount data) w]>
                  (wallets db))
               (categories db) (<[transactionId := row]> (transactions db))
               (<[pd_loanId data :=
                   set_outstanding (Number.toDecimal (Number.max 0 newOutstandingAmount))
                     (if Number.leb newOutstandingAmount 0 then closed else open) loan]>
                  (loans db))
               (<[paymentId := payment]> (loanPayments db)).
Proof.
  intros H. prisma_inv H; prisma_facts.
  all: match goal with Hl : loans _ !! _ = Some ?l |- _ => exists l end.
  all: match goal with Hw : wallets _ !! _ = Some ?w |- _ => exists w end.
  all: eexists _, _; unfold owned_wallet, owned_loan; cbv zeta.
  all: rewrite ?bool_decide_eq_true_2, ?bool_decide_eq_false_2 by done.
  all: repeat match goal with E : Number.leb _ _ = _ |- _ => rewrite E; clear E end.
  all: split_and!; try done; try congruence.
  all: by destruct (l_status _).
Qed.

Lemma deleteLoan_Ok loanId userId now db r db' :
  deleteLoan loanId userId now db = (Ok r, db') →
  ∃ loan,
    owned_loan db loanId userId loan ∧
    payments_of loanId (loanPayments db) = [] ∧
    r = (loanId, set_deletedAt now loan) ∧
    ((∃ transactionId t entry w,
        base_transaction db userId loanId = Some (transactionId, t) ∧
        t_entries t = [entry] ∧
        wallets db !! e_walletId entry = Some w ∧
        db' = mkDb (<[e_walletId entry := credit (reversal loan) w]> (wallets db))
                   (categories db)
                   (<[transactionId := softDeleted now t]> (transactions db))
                   (<[loanId := set_deletedAt now loan]> (loans db))
                   (loanPayments db))
     ∨ ((∀ transactionId t entry,
           base_transaction db userId loanId = Some (transactionId, t) →
           t_entries t ≠ [entry]) ∧
        db' = mkDb (wallets db) (categories db) (transactions db)
                   (<[loanId := set_deletedAt now loan]> (loans db))
                   (loanPayments db))).
Proof.
  intros H. prisma_inv H; prisma_facts.
  all: match goal with E : (0 <? length (take 1 ?l))%nat = false |- _ =>
         assert (l = []) by (destruct l; [done | discriminate E]) end.
  all: try match goal with E : findFirst _ (transactions _) = Some _ |- _ =>
         pose proof (findFirst_Some _ _ _ _ E) as [? _]; simplify_eq end.
  all: eexists; unfold owned_loan, reversal; split_and!; try done.
  all: rewrite ?bool_decide_eq_true_2, ?bool_decide_eq_false_2 by done.
  all: first [ by left; eexists _, _, _, _
             | right; split; [intros ??? [= <- <-]; congruence | done]
             | by right ].
Qed.

End loan_service.

(** ** The balance projection is an invariant *)

Lemma ledger_balance_post (txs : gmap string Transaction) walletId row :
  t_deletedAt row = None →
  ledger_balance walletId (<[fresh (dom txs) := row]> txs)
  = posted walletId (t_entries row) + ledger_balance walletId txs.
Proof.
  intros Hlive. unfold ledger_balance. rewrite table_sum_fresh.
  unfold posting. by rewrite Hlive.
Qed.

Lemma ledger_balance_softDelete (txs : gmap string Transaction) id t now walletId :
  txs !! id = Some t → t_deletedAt t = None →
  ledger_balance walletId (<[id := softDeleted now t]> txs)
  = ledger_balance walletId txs - posted walletId (t_entries t).
Proof.
  intros Hrow Hlive. unfold ledger_balance.
  rewrite (table_sum_insert _ _ _ t) by done.
  unfold posting. rewrite Hlive. simpl. lia.
Qed.

Lemma loanId_taken_false l txs id t :
  loanId_taken (Some l) txs = false → txs !! id = Some t → t_loanId t ≠ Some l.
Proof.
  unfold loanId_taken. intros Hfree Hrow.
  destruct (findFirst _ txs) as [[]|] eqn:E; [done|].
  by apply (findFirst_None _ _ _ _ E), bool_decide_eq_false in Hrow.
Qed.

Lemma disbursement_ok_new_loan lns l loan t :
  t_loanId t ≠ Some l →
  disbursement_ok (<[l := loan]> lns) t = disbursement_ok lns t.
Proof.
  intros Hother. unfold disbursement_ok.
  destruct (t_loanId t) as [l'|]; [|done].
  rewrite lookup_insert_ne by congruence. done.
Qed.

Lemma disbursement_ok_update lns l loan loan' t :
  lns !! l = Some loan →
  l_principal loan' = l_principal loan → l_kind loan' = l_kind loan →
  disbursement_ok (<[l := loan']> lns) t = disbursement_ok lns t.
Proof.
  intros Hrow Hp Hk. unfold disbursement_ok.
  destruct (t_loanId t) as [l'|]; [|done].
  destruct (decide (l' = l)) as [->|Hne].
  - rewrite lookup_insert_eq, Hrow. unfold matches_loan. by rewrite Hp, Hk.
  - by rewrite lookup_insert_ne.
Qed.

Lemma disbursements_ok_post lns (txs : gmap string Transaction) row :
  map_Forall (λ _ t, disbursement_ok lns t = true) txs →
  disbursement_ok lns row = true →
  map_Forall (λ _ t, disbursement_ok lns t = true) (<[fresh (dom txs) := row]> txs).
Proof. intros Hall Hrow. by apply map_Forall_insert_2. Qed.

Lemma outcome_None {A} (x : Result A * Db) db' :
  outcome x = (None, db') → ∃ r, x = (Ok r, db').
Proof.
  destruct x as [[r|e] db'']; unfold outcome; simpl; [|done].
  intros [= ->]. by exists r.
Qed.

Section ledger_preservation.
Import TransactionService LoanService.

(** One wallet of the new store against its row in the old one. *)
Ltac balance_case Hbal Hw :=
  specialize (Hbal _ _ Hw); simpl in *; unfold signed, reversal; simpl;
  repeat case_bool_decide; simplify_eq; simpl; lia.

Lemma createTransaction_ledger_ok data userId db r db' :
  createTransaction data userId db = (Ok r, db') → ledger_ok db → ledger_ok db'.
Proof.
  intros Hrun [Hbal Hdis]. destruct data as [d|d|d|ty]; simpl in Hrun.
  - apply createIncomeTransaction_Ok in Hrun as (w & (Hw & _) & _ & ->).
    split.
    + intros id w'. unfold balanced; simpl.
      rewrite ledger_balance_post by done. simpl.
      intros [[<- <-]|[Hne Hw']]%lookup_insert_Some.
      * balance_case Hbal Hw.
      * balance_case Hbal Hw'.
    + by apply disbursements_ok_post.
  - apply createExpenseTransaction_Ok in Hrun as (w & (Hw & _) & _ & _ & ->).
    split.
    + intros id w'. unfold balanced; simpl.
      rewrite ledger_balance_post by done. simpl.
      intros [[<- <-]|[Hne Hw']]%lookup_insert_Some.
      * balance_case Hbal Hw.
      * balance_case Hbal Hw'.
    + by apply disbursements_ok_post.
  - apply createTransferTransaction_Ok in Hrun
      as (wf & wt & Hne & (Hf & _) & (Ht & _) & _ & _ & ->).
    split.
    + intros id w'. unfold balanced; simpl.
      rewrite ledger_balance_post by done. simpl.
      intros [[<- <-]|[Hne1 [[<- <-]|[Hne2 Hw']]%lookup_insert_Some]]%lookup_insert_Some.
      * balance_case Hbal Ht.
      * balance_case Hbal Hf.
      * balance_case Hbal Hw'.
    + by apply disbursements_ok_post.
  - done.
Qed.

Lemma createLoan_ledger_ok data userId db r db' :
  createLoan data userId db = (Ok r, db') → ledger_ok db → ledger_ok db'.
Proof.
  intros Hrun [Hbal Hdis].
  apply createLoan_Ok in Hrun
    as (w & categoryId & note & (Hw & _) & _ & _ & Hfree & _ & ->).
  split.
  - intros id w'. unfold balanced; simpl.
    rewrite ledger_balance_post by done. simpl.
    intros [[<- <-]|[Hne Hw']]%lookup_insert_Some.
    + balance_case Hbal Hw.
    + balance_case Hbal Hw'.
  - unfold disbursements_ok; simpl. apply map_Forall_insert_2.
    + unfold disbursement_ok, matches_loan; simpl. rewrite lookup_insert_eq; simpl.
      by repeat case_bool_decide.
    + intros id t Ht. rewrite disbursement_ok_new_loan; [by apply (Hdis id)|].
      by apply (loanId_taken_false _ (transactions db) id).
Qed.

Lemma createLoanPayment_ledger_ok data userId db r db' :
  createLoanPayment data userId db = (Ok r, db') → ledger_ok db → ledger_ok db'.
Proof.
  intros Hrun [Hbal Hdis].
  apply createLoanPayment_Ok in Hrun
    as (loan & w & categoryId & note & (Hl & _) & _ & _ & (Hw & _) & _ & _ & ->).
  split.
  - intros id w'. unfold balanced; simpl.
    rewrite ledger_balance_post by done. simpl.
    intros [[<- <-]|[Hne Hw']]%lookup_insert_Some.
    + balance_case Hbal Hw.
    + balance_case Hbal Hw'.
  - unfold disbursements_ok; simpl. apply map_Forall_insert_2; [done|].
    intros id t Ht. rewrite (disbursement_ok_update _ _ loan) by done.
    by apply (Hdis id).
Qed.

Lemma base_transaction_Some db userId loanId id t :
  base_transaction db userId loanId = Some (id, t) →
  transactions db !! id = Some t ∧ t_userId t = userId
  ∧ t_deletedAt t = None ∧ t_loanId t = Some loanId.
Proof.
  intros [Hrow Hw]%findFirst_Some.
  apply andb_true_iff in Hw as [[Hu Hd]%andb_true_iff Hl].
  apply bool_decide_eq_true in Hu, Hl. by destruct (t_deletedAt t).
Qed.

Lemma deleteLoan_ledger_ok loanId userId now db r db' :
  deleteLoan loanId userId now db = (Ok r, db') → ledger_ok db → ledger_ok db'.
Proof.
  intros Hrun [Hbal Hdis].
  apply deleteLoan_Ok in Hrun as (loan & (Hl & _) & _ & _ & Hcases).
  destruct Hcases as [(tid & t & e & w & Hbase & He & Hw & ->)|[_ ->]].
  - apply base_transaction_Some in Hbase as (Ht & _ & Hlive & Hloan).
    pose proof (Hdis _ _ Ht) as Hmatch. unfold disbursement_ok in Hmatch.
    simpl in Hmatch. rewrite Hloan, Hlive, He, Hl in Hmatch.
    apply andb_true_iff in Hmatch as [Hamt Hdir].
    apply bool_decide_eq_true in Hamt, Hdir.
    split.
    + intros id w'. unfold balanced; simpl.
      rewrite (ledger_balance_softDelete _ _ t) by done. rewrite He; simpl.
      unfold reversal, signed. rewrite Hdir, Hamt.
      intros [[<- <-]|[Hne Hw']]%lookup_insert_Some.
      * balance_case Hbal Hw.
      * balance_case Hbal Hw'.
    + unfold disbursements_ok; simpl. apply map_Forall_insert_2.
      { unfold disbursement_ok; simpl. by destruct (t_loanId t). }
      intros id t' Ht'. rewrite (disbursement_ok_update _ _ loan) by done.
      by apply (Hdis id).
  - split; [done|].
    intros id t' Ht'; simpl. rewrite (disbursement_ok_update _ _ loan) by done.
    by apply (Hdis id).
Qed.

Lemma exec_ledger_ok op db : ledger_ok db → ledger_ok (exec op db).
Proof.
  intros Hok. unfold exec.
  destruct (run op db) as [[e|] db'] eqn:Hrun.
  - pose proof (run_error_inv op db e) as Hsame.
    rewrite Hrun in Hsame. simpl in *. by rewrite Hsame.
  - simpl. destruct op; simpl in Hrun; apply outcome_None in Hrun as [r Hrun].
    + by eapply createTransaction_ledger_ok.
    + by eapply createLoan_ledger_ok.
    + by eapply createLoanPayment_ledger_ok.
    + by eapply deleteLoan_ledger_ok.
Qed.

End ledger_preservation.

(** A ledger without transactions is consistent as soon as every wallet
    shows its opening balance. *)
Lemma opening_ledger_ok db :
  transactions db = ∅ →
  map_Forall (λ _ w, w_currentBalance w = w_openingBalance w) (wallets db) →
  ledger_ok db.
Proof.
  intros Hempty Hopen. split.
  - intros id w Hw. unfold ledger_balance. rewrite Hempty, table_sum_empty.
    specialize (Hopen _ _ Hw). simpl in Hopen. lia.
  - unfold disbursements_ok. rewrite Hempty. apply map_Forall_empty.
Qed.

(** C1: after any sequence of engine operations, completed or rejected,
    started from a consistent ledger, every wallet's [currentBalance] is its
    [openingBalance] plus the signed sum (in minus out) of the entries posted
    to it by transactions that are not soft-deleted. *)
Theorem balance_projection_invariant db ops walletId w :
  ledger_ok db →
  wallets (exec_all ops db) !! walletId = Some w →
  w_currentBalance w
  = w_openingBalance w + ledger_balance walletId (transactions (exec_all ops db)).
Proof.
  revert db. induction ops as [|op ops IH]; intros db Hok Hw.
  - destruct Hok as [Hbal _]. apply (Hbal _ _ Hw).
  - simpl in *. apply (IH (exec op db)); [by apply exec_ledger_ok | done].
Qed.

Lemma balance_projection_invariant_witness :
  ledger_ok sample_db
  ∧ wallets (exec_all sample_ops sample_db) !! "B"%string
    = Some (mkWallet "u" false 10000 30000)
  ∧ 30000 = 10000 + ledger_balance "B" (transactions (exec_all sample_ops sample_db)).
Proof.
  assert (Hok : ledger_ok sample_db)
    by (apply (bool_decide_unpack (ledger_ok sample_db)); vm_compute; exact I).
  assert (Hw : wallets (exec_all sample_ops sample_db) !! "B"%string
               = Some (mkWallet "u" false 10000 30000)) by (vm_compute; reflexivity).
  split_and!; [exact Hok | exact Hw |].
  exact (balance_projection_invariant sample_db sample_ops "B" _ Hok Hw).
Defined.

(** ** Atomicity *)

(** C3: an engine operation that returns an error leaves the whole store
    exactly as it was before the call: the wallets with their balances, the
    transactions with their entries, the loans and the loan payments. *)
Theorem failed_call_leaves_store_unchanged op db e :
  (run op db).1 = Some e →
  (run op db).2 = db
  ∧ wallets (run op db).2 = wallets db
  ∧ transactions (run op db).2 = transactions db
  ∧ loans (run op db).2 = loans db
  ∧ loanPayments (run op db).2 = loanPayments db.
Proof.
  intros Herr.
  assert (Hsame : (run op db).2 = db).
  { destruct op as [data userId|data userId|data userId|loanId userId now];
      revert Herr; apply outcome_atomic.
    - apply atomic_createTransaction.
    - apply atomic_createLoan.
    - apply atomic_createLoanPayment.
    - apply atomic_deleteLoan. }
  by rewrite Hsame.
Qed.

Lemma failed_call_leaves_store_unchanged_witness :
  (run (CreateLoan (LoanService.mkLoanData you_owe "Bob" 50000 "W" 3 None None) "u")
       dangling_db).1 = Some P2002
  ∧ (run (CreateLoan (LoanService.mkLoanData you_owe "Bob" 50000 "W" 3 None None) "u")
         dangling_db).2 = dangling_db.
Proof.
  assert (Herr : (run (CreateLoan
            (LoanService.mkLoanData you_owe "Bob" 50000 "W" 3 None None) "u")
            dangling_db).1 = Some P2002) by (vm_compute; reflexivity).
  split; [exact Herr |].
  exact (proj1 (failed_call_leaves_store_unchanged _ _ _ Herr)).
Defined.

(** ** Balance guards *)

Ltac prisma_eval :=
  unfold run, outcome,
    TransactionService.createTransaction,
    TransactionService.createIncomeTransaction,
    TransactionService.createExpenseTransaction,
    TransactionService.createTransferTransaction,
    TransactionService.validateWalletOwnership,
    TransactionService.validateCategoryOwnership,
    LoanService.createLoan, LoanService.deleteLoan, LoanService.createLoanPayment,
    LoanService.validateWalletOwnership, LoanService.validateLoanOwnership,
    wallet_findFirst, wallet_findUnique, category_findFirst, category_findDefault,
    wallet_decrement, wallet_increment, transaction_create, transaction_softDelete,
    loan_create, loan_findFirst, loan_update, loan_update_outstanding,
    loanPayment_create, transaction_findByLoan, transaction_, bind, ret, throw, reads,
    with_wallets, with_transactions, with_loans, with_loanPayments;
  cbv beta iota zeta;
  cbn [wallets categories transactions loans loanPayments fst snd
       t_loanId loanId_taken].


(** The range checks of the writes, with the rows that the services write. *)
Ltac prisma_decimal :=
  cbn [t_amount t_entries e_amount p_amount l_principal l_outstandingAmount
       forallb negb andb];
  repeat match goal with
  | H : decimal_18_2 ?c = true |- context [decimal_18_2 ?c] => rewrite H
  end;
  cbn [negb andb]; cbv beta iota zeta;
  cbn [wallets categories transactions loans loanPayments fst snd
       t_loanId loanId_taken].

Lemma add_opp a b : a + - b = a - b.
Proof. lia. Qed.

Lemma credit_with_balance amount w :
  credit amount w = with_balance w (w_currentBalance w + amount).
Proof. done. Qed.

Lemma debit_with_balance amount w :
  credit (- amount) w = with_balance w (w_currentBalance w - amount).
Proof. unfold credit, with_balance. by rewrite add_opp. Qed.

Lemma credit_fits_opp w amount :
  credit_fits w (- amount) →
  decimal_18_2 (w_currentBalance w) && decimal_18_2 (w_currentBalance w + - amount) = true.
Proof. intros [-> ->]. done. Qed.

Lemma credit_fits_andb w amount :
  credit_fits w amount →
  decimal_18_2 (w_currentBalance w) && decimal_18_2 (w_currentBalance w + amount) = true.
Proof. intros [-> ->]. done. Qed.

Lemma covers_ge balance amount : amount ≤ balance → covers balance amount.
Proof. apply ltb_toNumber_ge. Qed.

Lemma covers_small balance amount :
  small amount ∨ small balance → covers balance amount ↔ amount ≤ balance.
Proof.
  unfold covers, small. intros [H|H].
  - rewrite ltb_toNumber_r by done. apply Z.ltb_ge.
  - rewrite ltb_toNumber_l by done. apply Z.ltb_ge.
Qed.


Lemma category_where_Some db categoryId userId c :
  findById categoryId (λ c, bool_decide (c_userId c = userId)) (categories db) = Some c
  ↔ owned_category db categoryId userId c.
Proof.
  rewrite findById_Some. unfold owned_category. by rewrite bool_decide_eq_true.
Qed.

Section balance_guards.
Import TransactionService.




Lemma createIncomeTransaction_succeeds db userId d w c :
  owned_wallet db (td_walletId d) userId w →
  owned_category db (td_categoryId d) userId c → c_type c = income →
  decimal_18_2 (td_amount d) = true → credit_fits w (td_amount d) →
  ∃ r db', createIncomeTransaction d userId db = (Ok r, db').
Proof.
  intros Hw Hc%category_where_Some Hty Hamt Hfits%credit_fits_andb.
  pose proof Hw as (Hrow & _). apply wallet_where_Some in Hw.
  prisma_eval. rewrite Hw, Hc, Hty. cbn [bool_decide_eq_true]. simpl.
  prisma_decimal. rewrite Hrow, Hfits. by eexists _, _.
Qed.

Lemma createExpenseTransaction_succeeds db userId d w c :
  owned_wallet db (td_walletId d) userId w →
  owned_category db (td_categoryId d) userId c → c_type c = expense →
  covers (w_currentBalance w) (td_amount d) →
  decimal_18_2 (td_amount d) = true → credit_fits w (- td_amount d) →
  ∃ r db', createExpenseTransaction d userId db = (Ok r, db').
Proof.
  intros Hw Hc%category_where_Some Hty Hcov Hamt Hfits%credit_fits_opp.
  pose proof Hw as (Hrow & _). apply wallet_where_Some in Hw. unfold covers in Hcov.
  prisma_eval. rewrite Hw, Hcov, Hc, Hty. simpl.
  rewrite Hrow, Hcov. prisma_decimal. rewrite Hrow, Hfits. by eexists _, _.
Qed.

Lemma createTransferTransaction_succeeds db userId d wf wt :
  xd_fromWalletId d ≠ xd_toWalletId d →
  owned_wallet db (xd_fromWalletId d) userId wf →
  owned_wallet db (xd_toWalletId d) userId wt →
  covers (w_currentBalance wf) (xd_amount d) →
  decimal_18_2 (xd_amount d) = true →
  credit_fits wf (- xd_amount d) → credit_fits wt (xd_amount d) →
  ∃ r db', createTransferTransaction d userId db = (Ok r, db').
Proof.
  intros Hne Hf Ht Hcov Hamt Hff%credit_fits_opp Hft%credit_fits_andb.
  pose proof Hf as (Hfrow & _). pose proof Ht as (Htrow & _).
  apply wallet_where_Some in Hf, Ht. unfold covers in Hcov.
  prisma_eval. rewrite bool_decide_eq_false_2 by done.
  rewrite Hf, Hcov, Ht, Hfrow, Hcov. prisma_decimal. rewrite Hfrow, Hff.
  cbn [wallets]. rewrite lookup_insert_ne by done. rewrite Htrow, Hft.
  by eexists _, _.
Qed.

End balance_guards.




Lemma outcome_ok {A} (x : Result A * Db) :
  (outcome x).1 = None → ∃ r db', x = (Ok r, db').
Proof. destruct x as [[r|e] db']; [by exists r, db' | done]. Qed.

Lemma outcome_of_Ok {A} (c : Result A * Db) r db' :
  c = (Ok r, db') → (outcome c).1 = None.
Proof. by intros ->. Qed.

(** ** Transfers *)

(** C8: a transfer from a wallet to itself is rejected with
    [SAME_WALLET_TRANSFER]. A transfer between two different wallets of the
    caller whose source covers the amount goes through (the amount and the
    new balances being in the range of [DECIMAL(18,2)]), and a transfer that
    goes through adds one transaction of type transfer without category,
    whose entries are exactly an [out] entry on the source and an [in] entry
    on the (different) destination, both of the transaction amount, takes
    that amount from the source balance and adds it to the destination
    balance. *)
Theorem transfer_posts_two_entries db userId d :
  let from := TransactionService.xd_fromWalletId d in
  let to := TransactionService.xd_toWalletId d in
  let amount := TransactionService.xd_amount d in
  (from = to →
     run (CreateTransaction (TransactionService.Transfer d) userId) db
     = (Some SAME_WALLET_TRANSFER, db))
  ∧ (∀ wf wt,
       from ≠ to → owned_wallet db from userId wf → owned_wallet db to userId wt →
       amount ≤ w_currentBalance wf →
       decimal_18_2 amount = true → credit_fits wf (- amount) → credit_fits wt amount →
       ∃ r db',
         TransactionService.createTransaction (TransactionService.Transfer d) userId db
         = (Ok r, db'))
  ∧ (∀ r db',
       TransactionService.createTransaction (TransactionService.Transfer d) userId db
         = (Ok r, db') →
       ∃ wf wt,
         from ≠ to
         ∧ wallets db !! from = Some wf ∧ wallets db !! to = Some wt
         ∧ transactions db !! r.1 = None
         ∧ transactions db' = <[r.1 := r.2]> (transactions db)
         ∧ r.2 = mkTransaction userId transfer (TransactionService.xd_transactionDate d)
                   None amount (TransactionService.xd_note d) None None
                   [mkEntry from dir_out amount; mkEntry to dir_in amount]
         ∧ wallets db'
           = <[to := mkWallet (w_userId wt) (w_isArchived wt) (w_openingBalance wt)
                       (w_currentBalance wt + amount)]>
               (<[from := mkWallet (w_userId wf) (w_isArchived wf) (w_openingBalance wf)
                            (w_currentBalance wf - amount)]>
                  (wallets db))
         ∧ w_currentBalance <$> wallets db' !! from = Some (w_currentBalance wf - amount)
         ∧ w_currentBalance <$> wallets db' !! to = Some (w_currentBalance wt + amount)
         ∧ categories db' = categories db
         ∧ loans db' = loans db ∧ loanPayments db' = loanPayments db).
Proof.
  intros from to amount. split_and!.
  - intros Hsame. prisma_eval. by rewrite bool_decide_eq_true_2.
  - intros wf wt Hne Hf Ht Hle%covers_ge Hamt Hff Hft.
    by apply (createTransferTransaction_succeeds db userId d wf wt).
  - intros r db' Hrun. simpl in Hrun.
    apply createTransferTransaction_Ok in Hrun
      as (wf & wt & Hne & (Hf & _) & (Ht & _) & _ & -> & ->).
    exists wf, wt. cbn [fst snd wallets transactions categories loans loanPayments].
    rewrite debit_with_balance, credit_with_balance. unfold with_balance.
    split_and!; try done.
    + apply fresh_lookup.
    + by rewrite lookup_insert_ne, lookup_insert_eq.
    + by rewrite lookup_insert_eq.
Qed.

Lemma transfer_posts_two_entries_witness :
  run (CreateTransaction
         (TransactionService.Transfer
            (TransactionService.mkTransferData "B" "B" 7 100 None)) "u") sample_db
  = (Some SAME_WALLET_TRANSFER, sample_db)
  ∧ ∃ r db',
      TransactionService.createTransaction
        (TransactionService.Transfer
           (TransactionService.mkTransferData "A" "B" 2 20000 None)) "u" sample_db
      = (Ok r, db')
      ∧ t_entries r.2 = [mkEntry "A" dir_out 20000; mkEntry "B" dir_in 20000]
      ∧ w_currentBalance <$> wallets db' !! "A"%string = Some 30000
      ∧ w_currentBalance <$> wallets db' !! "B"%string = Some 30000.
Proof.
  split.
  - exact (proj1 (transfer_posts_two_entries sample_db "u"
                    (TransactionService.mkTransferData "B" "B" 7 100 None)) eq_refl).
  - pose proof (transfer_posts_two_entries sample_db "u"
                  (TransactionService.mkTransferData "A" "B" 2 20000 None))
      as (_ & Hgoes & Hshape).
    destruct (Hgoes (mkWallet "u" false 50000 50000) (mkWallet "u" false 10000 10000))
      as (r & db' & Hrun).
    + vm_compute. congruence.
    + repeat split; vm_compute; reflexivity.
    + repeat split; vm_compute; reflexivity.
    + simpl. lia.
    + vm_compute. reflexivity.
    + split; vm_compute; reflexivity.
    + split; vm_compute; reflexivity.
    + exists r, db'. split; [exact Hrun|].
      destruct (Hshape r db' Hrun)
        as (wf & wt & _ & Hf & Ht & _ & _ & Hrow & _ & Hfrom & Hto & _).
      assert (wf = mkWallet "u" false 50000 50000) as ->
        by (vm_compute in Hf; congruence).
      assert (wt = mkWallet "u" false 10000 10000) as ->
        by (vm_compute in Ht; congruence).
      rewrite Hrow. split_and!; [reflexivity | exact Hfrom | exact Hto].
Defined.

(** The transfer scenario of the specification: 200.00 from A (500.00) to
    B (100.00). *)
Example transfer_scenario :
  let db' := exec (CreateTransaction
                     (TransactionService.Transfer
                        (TransactionService.mkTransferData "A" "B" 2 20000 None)) "u")
                  sample_db in
  w_currentBalance <$> wallets db' !! "A"%string = Some 30000
  ∧ w_currentBalance <$> wallets db' !! "B"%string = Some 30000
  ∧ (length ∘ t_entries) <$> transactions db' !! "0"%string = Some 2%nat.
Proof. by vm_compute. Qed.

(** ** Loan disbursement *)

Lemma disbursements_refer_fresh db :
  disbursements_refer db →
  loanId_taken (Some (fresh (dom (loans db)))) (transactions db) = false.
Proof.
  intros Hrefer. unfold loanId_taken.
  destruct (findFirst _ (transactions db)) as [[id t]|] eqn:E; [|done].
  apply findFirst_Some in E as [Hrow Href%bool_decide_eq_true].
  specialize (Hrefer _ _ Hrow). simpl in Hrefer. rewrite Href in Hrefer.
  destruct Hrefer as [l Hl]. by rewrite fresh_lookup in Hl.
Qed.

Section disbursement.
Import LoanService.

Lemma createLoan_succeeds db data userId w :
  owned_wallet db (ld_walletId data) userId w →
  (ld_kind data = owed_to_you → covers (w_currentBalance w) (ld_principal data)) →
  loanId_taken (Some (fresh (dom (loans db)))) (transactions db) = false →
  decimal_18_2 (ld_principal data) = true →
  credit_fits w (if bool_decide (ld_kind data = you_owe)
                 then ld_principal data else - ld_principal data) →
  ∃ r db', createLoan data userId db = (Ok r, db').
Proof.
  intros Hw Hcov Hfree Hamt Hfits%credit_fits_andb.
  pose proof Hw as (Hrow & _). apply wallet_where_Some in Hw.
  unfold loanId_taken in Hfree. unfold covers in Hcov.
  prisma_eval. rewrite Hw.
  destruct (ld_kind data) eqn:Hkind;
    repeat (case_bool_decide; try congruence);
    cbv beta iota zeta; rewrite ?Hw, ?Hcov by done;
    prisma_decimal; rewrite Hfree; prisma_decimal; rewrite Hrow, Hfits;
    by eexists _, _.
Qed.

End disbursement.

(** C7: a [createLoan] on a wallet of the caller goes through when, for
    [owed_to_you], the wallet covers the principal (no transaction referring
    to a loan that does not exist, and the principal and the new balance
    being in the range of [DECIMAL(18,2)]). A [createLoan] that goes through
    adds, in its one unit of work, a loan whose outstanding amount is the
    principal and whose status is open, and one transaction that carries the
    loan's identifier, of type income for [you_owe] and expense for
    [owed_to_you], with exactly one entry ([in], respectively [out]) of the
    principal on the wallet; the wallet balance moves by plus, respectively
    minus, the principal. The transaction has the default category of the
    caller when there is one, and no category otherwise. *)
Theorem createLoan_disburses db data userId :
  let kind := LoanService.ld_kind data in
  let principal := LoanService.ld_principal data in
  let walletId := LoanService.ld_walletId data in
  let you := bool_decide (kind = you_owe) in
  (∀ w,
     owned_wallet db walletId userId w →
     (kind = owed_to_you → principal ≤ w_currentBalance w) →
     disbursements_refer db →
     decimal_18_2 principal = true →
     credit_fits w (if you then principal else - principal) →
     ∃ r db', LoanService.createLoan data userId db = (Ok r, db'))
  ∧ (∀ r db',
       LoanService.createLoan data userId db = (Ok r, db') →
       ∃ w transactionId t,
         wallets db !! walletId = Some w
         ∧ loans db !! r.1 = None ∧ transactions db !! transactionId = None
         ∧ l_userId r.2 = userId
         ∧ l_kind r.2 = kind ∧ l_principal r.2 = principal
         ∧ l_outstandingAmount r.2 = principal ∧ l_status r.2 = open
         ∧ l_deletedAt r.2 = None
         ∧ loans db' = <[r.1 := r.2]> (loans db)
         ∧ transactions db' = <[transactionId := t]> (transactions db)
         ∧ t_userId t = userId
         ∧ t_loanId t = Some r.1
         ∧ t_type t = (if you then income else expense)
         ∧ t_amount t = principal ∧ t_deletedAt t = None
         ∧ t_entries t = [mkEntry walletId (if you then dir_in else dir_out) principal]
         ∧ t_categoryId t
           = fst <$> default_category db userId (if you then income else expense)
                       (if you then "Vay nợ" else "Cho vay")%string
         ∧ wallets db'
           = <[walletId := mkWallet (w_userId w) (w_isArchived w) (w_openingBalance w)
                             (if you then w_currentBalance w + principal
                              else w_currentBalance w - principal)]>
               (wallets db)
         ∧ w_currentBalance <$> wallets db' !! walletId
           = Some (if you then w_currentBalance w + principal
                   else w_currentBalance w - principal)
         ∧ categories db' = categories db
         ∧ loanPayments db' = loanPayments db).
Proof.
  intros kind principal walletId you. split.
  - intros w Hw Hbal Hrefer Hamt Hfits.
    apply (createLoan_succeeds db data userId w); try done.
    + intros Hkind. by apply covers_ge, Hbal.
    + by apply disbursements_refer_fresh.
  - intros r db' Hrun.
    apply createLoan_Ok in Hrun
      as (w & categoryId & note & (Hw & _) & _ & -> & _ & -> & ->).
    exists w. eexists _, _.
    cbn [fst snd wallets transactions categories loans loanPayments
         l_userId l_kind l_principal l_outstandingAmount l_status l_deletedAt
         t_userId t_loanId t_type t_amount t_deletedAt t_entries t_categoryId].
    assert (Hrow : credit (if bool_decide (LoanService.ld_kind data = you_owe)
                           then LoanService.ld_principal data
                           else - LoanService.ld_principal data) w
                   = mkWallet (w_userId w) (w_isArchived w) (w_openingBalance w)
                       (if you then w_currentBalance w + principal
                        else w_currentBalance w - principal)).
    { subst you kind principal. unfold credit. case_bool_decide; f_equal; lia. }
    rewrite Hrow.
    split_and!; try done; try apply fresh_lookup.
    + by destruct (default_category _ _ _ _) as [[]|].
    + by rewrite lookup_insert_eq.
Qed.

Lemma createLoan_disburses_witness :
  ∃ r db' transactionId t,
    LoanService.createLoan (LoanService.mkLoanData owed_to_you "Eve" 7000 "B" 5 None None)
      "u" sample_db = (Ok r, db')
    ∧ l_outstandingAmount r.2 = 7000 ∧ l_status r.2 = open
    ∧ transactions db' !! transactionId = Some t
    ∧ t_loanId t = Some r.1 ∧ t_type t = expense ∧ t_categoryId t = None
    ∧ t_entries t = [mkEntry "B" dir_out 7000]
    ∧ w_currentBalance <$> wallets db' !! "B"%string = Some 3000.
Proof.
  pose proof (createLoan_disburses sample_db
                (LoanService.mkLoanData owed_to_you "Eve" 7000 "B" 5 None None) "u")
    as (Hgoes & Hshape).
  destruct (Hgoes (mkWallet "u" false 10000 10000)) as (r & db' & Hrun).
  - repeat split; vm_compute; reflexivity.
  - intros _. simpl. lia.
  - apply (bool_decide_unpack (disbursements_refer sample_db)). vm_compute. exact I.
  - vm_compute. reflexivity.
  - split; vm_compute; reflexivity.
  - destruct (Hshape r db' Hrun)
      as (w & transactionId & t & Hw & _ & _ & _ & _ & _ & Hout & Hopen & _ & _ & Htx
          & _ & Hloan & Hty & _ & _ & Hentries & Hcat & _ & Hbal & _).
    assert (w = mkWallet "u" false 10000 10000) as -> by (vm_compute in Hw; congruence).
    exists r, db', transactionId, t.
    split_and!; [exact Hrun | exact Hout | exact Hopen | | exact Hloan | exact Hty
                | exact Hcat | exact Hentries | exact Hbal].
    rewrite Htx. apply lookup_insert_eq.
Defined.

(** The loan scenario of the specification: borrow 500.00 into a wallet that
    holds 1000.00, then repay 500.00 from it. *)
Example loan_scenario :
  let db1 := exec (CreateLoan (LoanService.mkLoanData you_owe "Bob" 50000 "W" 3 None None)
                     "u") sample_db in
  let db2 := exec (CreateLoanPayment (LoanService.mkLoanPaymentData "0" "W" 4 50000 None)
                     "u") db1 in
  (λ l, (l_outstandingAmount l, l_status l)) <$> loans db1 !! "0"%string
    = Some (50000, open)
  ∧ w_currentBalance <$> wallets db1 !! "W"%string = Some 150000
  ∧ (λ l, (l_outstandingAmount l, l_status l)) <$> loans db2 !! "0"%string
    = Some (0, closed)
  ∧ w_currentBalance <$> wallets db2 !! "W"%string = Some 100000.
Proof. by vm_compute. Qed.

(** ** Repayment guards *)


(** Below ten trillion, what a payment leaves of an outstanding amount. *)
Lemma new_outstanding_small outstanding amount :
  small outstanding → small amount →
  let newOutstandingAmount :=
    Number.sub (Number.toNumber outstanding) (Number.toNumber amount) in
  Number.toDecimal (Number.max 0 newOutstandingAmount) = Z.max 0 (outstanding - amount)
  ∧ Number.leb newOutstandingAmount 0 = (outstanding - amount <=? 0)
  ∧ decimal_18_2 (Number.toDecimal (Number.max 0 newOutstandingAmount)) = true.
Proof.
  unfold small. intros Ho Ha. cbv zeta.
  rewrite toDecimal_max_sub, leb_sub_0 by lia. split_and!; [done | done |].
  unfold decimal_18_2. assert (10 ^ 15 = 1000000000000000) by done.
  apply andb_true_iff. split; apply Z.ltb_lt; lia.
Qed.


Section repayment_guards.
Import LoanService.

Lemma createLoanPayment_not_found db data userId :
  (∀ l, ¬ owned_loan db (pd_loanId data) userId l) →
  run (CreateLoanPayment data userId) db = (Some LOAN_NOT_FOUND, db).
Proof.
  intros Hnone%loan_where_None. prisma_eval. by rewrite Hnone.
Qed.



Lemma createLoanPayment_succeeds db userId data loan w :
  owned_loan db (pd_loanId data) userId loan →
  l_status loan = open →
  covers (l_outstandingAmount loan) (pd_amount data) →
  owned_wallet db (pd_walletId data) userId w →
  (l_kind loan = you_owe → covers (w_currentBalance w) (pd_amount data)) →
  (∀ id p, loanPayments db !! id = Some p →
           p_transactionId p ≠ fresh (dom (transactions db))) →
  decimal_18_2 (pd_amount data) = true →
  credit_fits w (if bool_decide (l_kind loan = you_owe)
                 then - pd_amount data else pd_amount data) →
  decimal_18_2 (Number.toDecimal (Number.max 0
     (Number.sub (Number.toNumber (l_outstandingAmount loan))
                 (Number.toNumber (pd_amount data))))) = true →
  ∃ r db', createLoanPayment data userId db = (Ok r, db').
Proof.
  intros Hl Hopen Hcov Hw Hbal Hfree Hamt Hfits%credit_fits_andb Hnew.
  pose proof Hl as (Hlrow & _). pose proof Hw as (Hwrow & _).
  apply loan_where_Some in Hl. apply wallet_where_Some in Hw.
  unfold covers in Hcov, Hbal.
  assert (Hunique : findFirst (λ _ p, bool_decide
                      (p_transactionId p = fresh (dom (transactions db))))
                      (loanPayments db) = None).
  { destruct (findFirst _ _) as [[id p]|] eqn:E; [|done].
    apply findFirst_Some in E as [Hp Heq%bool_decide_eq_true].
    by destruct (Hfree id p). }
  prisma_eval. rewrite Hl, Hopen.
  rewrite (bool_decide_eq_false_2 (open = closed)) by done.
  rewrite Hcov, Hw.
  destruct (l_kind loan) eqn:Hkind;
    repeat (case_bool_decide; try congruence);
    cbv beta iota zeta; rewrite ?Hbal by done;
    prisma_decimal; cbn [p_transactionId]; rewrite Hunique; cbn [is_null negb];
    cbv beta iota zeta; cbn [wallets loans]; rewrite Hwrow, Hfits;
    cbn [loans]; rewrite Hlrow; by eexists _, _.
Qed.

End repayment_guards.




(** ** Loan deletion *)

Lemma payments_of_nil loanId (tbl : gmap string LoanPayment) :
  payments_of loanId tbl = [] ↔ ∀ id p, tbl !! id = Some p → p_loanId p ≠ loanId.
Proof.
  unfold payments_of. split.
  - intros Hnil id p Hrow Hloan.
    assert (Hin : In (id, p) (List.filter
               (λ kp, bool_decide (p_loanId kp.2 = loanId)) (map_to_list tbl))).
    { apply filter_In. split.
      - by apply list_elem_of_In, elem_of_map_to_list.
      - by apply bool_decide_eq_true. }
    by rewrite Hnil in Hin.
  - intros Hnone.
    destruct (List.filter _ _) as [|[id p] rest] eqn:E; [done|].
    assert (Hin : In (id, p) (List.filter
               (λ kp, bool_decide (p_loanId kp.2 = loanId)) (map_to_list tbl)))
      by (rewrite E; by left).
    apply filter_In in Hin as [Hin Hloan].
    apply list_elem_of_In, elem_of_map_to_list in Hin.
    apply bool_decide_eq_true in Hloan. by destruct (Hnone id p).
Qed.

Section deletion.
Import LoanService.

Lemma deleteLoan_has_payments db loanId userId now l id p :
  owned_loan db loanId userId l →
  loanPayments db !! id = Some p → p_loanId p = loanId →
  run (DeleteLoan loanId userId now) db = (Some LOAN_HAS_PAYMENTS, db).
Proof.
  intros Hl%loan_where_Some Hp Hloan. prisma_eval. rewrite Hl.
  destruct (payments_of loanId (loanPayments db)) as [|kp rest] eqn:E; [|done].
  by destruct (proj1 (payments_of_nil _ _) E id p).
Qed.

Lemma disbursement_reversal db userId loanId loan transactionId t entry :
  disbursements_ok db →
  loans db !! loanId = Some loan →
  base_transaction db userId loanId = Some (transactionId, t) →
  t_entries t = [entry] →
  reversal loan = - signed entry.
Proof.
  intros Hdis Hl (Ht & _ & Hlive & Hloan)%base_transaction_Some He.
  pose proof (Hdis _ _ Ht) as Hmatch. unfold disbursement_ok in Hmatch.
  simpl in Hmatch. rewrite Hloan, Hlive, He, Hl in Hmatch.
  apply andb_true_iff in Hmatch as [Hamt Hdir].
  apply bool_decide_eq_true in Hamt, Hdir.
  unfold reversal, signed. rewrite Hdir, Hamt. case_bool_decide; simpl; lia.
Qed.

End deletion.

(** Stores in which every live loan has its disbursement: the engine keeps
    them so, and there [deleteLoan] always finds what it reverses. *)
Lemma no_loans_backed db : loans db = ∅ → loans_backed db.
Proof. intros Hempty. unfold loans_backed. rewrite Hempty. apply map_Forall_empty. Qed.

Lemma base_transaction_found db loanId loan id t :
  transactions db !! id = Some t → is_base loanId loan t →
  ∃ id' t', base_transaction db (l_userId loan) loanId = Some (id', t').
Proof.
  intros Hrow (Hu & Hd & Hl).
  destruct (base_transaction db (l_userId loan) loanId) as [[id' t']|] eqn:E; [by eauto|].
  apply (findFirst_None _ _ _ _ E) in Hrow.
  rewrite Hd, bool_decide_eq_true_2, bool_decide_eq_true_2 in Hrow; done.
Qed.

Lemma loan_backed_post (txs : gmap string Transaction) loanId loan row :
  t_loanId row ≠ Some loanId →
  loan_backed txs loanId loan →
  loan_backed (<[fresh (dom txs) := row]> txs) loanId loan.
Proof.
  intros Hother Hbacked Hlive. destruct (Hbacked Hlive) as [(id & t & Hrow & Hbase) Hone].
  split.
  - exists id, t. split; [|done]. rewrite lookup_insert_ne; [done|].
    intros <-. by rewrite fresh_lookup in Hrow.
  - intros id' t' [[<- <-]|[_ Hrow']]%lookup_insert_Some Hbase'.
    + by destruct Hbase' as (_ & _ & ?).
    + by apply (Hone id').
Qed.

Lemma loan_backed_update txs loanId loan loan' :
  l_userId loan' = l_userId loan →
  (l_deletedAt loan' = None → l_deletedAt loan = None) →
  loan_backed txs loanId loan → loan_backed txs loanId loan'.
Proof.
  intros Hu Hd Hbacked Hlive. unfold is_base. rewrite Hu. by apply Hbacked, Hd.
Qed.

Lemma loan_backed_softDelete (txs : gmap string Transaction) loanId loan id t now :
  txs !! id = Some t → t_loanId t ≠ Some loanId →
  loan_backed txs loanId loan →
  loan_backed (<[id := softDeleted now t]> txs) loanId loan.
Proof.
  intros Hrow Hother Hbacked Hlive.
  destruct (Hbacked Hlive) as [(id0 & t0 & Hrow0 & Hbase0) Hone].
  split.
  - exists id0, t0. split; [|done]. rewrite lookup_insert_ne; [done|].
    intros <-. destruct Hbase0 as (_ & _ & ?). congruence.
  - intros id' t' [[<- <-]|[_ Hrow']]%lookup_insert_Some Hbase'.
    + by destruct Hbase' as (_ & ? & _).
    + by apply (Hone id').
Qed.

Section backing.
Import TransactionService LoanService.

Lemma createTransaction_loans_backed data userId db r db' :
  createTransaction data userId db = (Ok r, db') → loans_backed db → loans_backed db'.
Proof.
  intros Hrun Hbacked. destruct data as [d|d|d|ty]; simpl in Hrun.
  - apply createIncomeTransaction_Ok in Hrun as (w & _ & _ & ->).
    intros l loan Hl. simpl in *. apply loan_backed_post; [done | by apply Hbacked].
  - apply createExpenseTransaction_Ok in Hrun as (w & _ & _ & _ & ->).
    intros l loan Hl. simpl in *. apply loan_backed_post; [done | by apply Hbacked].
  - apply createTransferTransaction_Ok in Hrun as (wf & wt & _ & _ & _ & _ & _ & ->).
    intros l loan Hl. simpl in *. apply loan_backed_post; [done | by apply Hbacked].
  - done.
Qed.

Lemma createLoan_loans_backed data userId db r db' :
  createLoan data userId db = (Ok r, db') → loans_backed db → loans_backed db'.
Proof.
  intros Hrun Hbacked.
  apply createLoan_Ok in Hrun as (w & categoryId & note & _ & _ & _ & Hfree & _ & ->).
  intros l loan. simpl. intros [[<- <-]|[Hne Hl]]%lookup_insert_Some.
  - intros _. split.
    + eexists _, _. split; [apply lookup_insert_eq | done].
    + intros id t [[<- <-]|[_ Hrow]]%lookup_insert_Some (_ & _ & Href); [by eexists|].
      by destruct (loanId_taken_false _ (transactions db) id t Hfree Hrow).
  - apply loan_backed_post; [simpl; congruence | by apply Hbacked].
Qed.

Lemma createLoanPayment_loans_backed data userId db r db' :
  createLoanPayment data userId db = (Ok r, db') → loans_backed db → loans_backed db'.
Proof.
  intros Hrun Hbacked.
  apply createLoanPayment_Ok in Hrun
    as (loan & w & categoryId & note & (Hl & _) & _ & _ & _ & _ & _ & ->).
  intros l loan'. simpl. intros [[<- <-]|[Hne Hl']]%lookup_insert_Some.
  - apply loan_backed_post; [done|].
    apply (loan_backed_update _ _ loan); [done | done | by apply Hbacked].
  - apply loan_backed_post; [done | by apply Hbacked].
Qed.

Lemma deleteLoan_loans_backed loanId userId now db r db' :
  deleteLoan loanId userId now db = (Ok r, db') → loans_backed db → loans_backed db'.
Proof.
  intros Hrun Hbacked.
  apply deleteLoan_Ok in Hrun as (loan & (Hl & _) & _ & _ & Hcases).
  destruct Hcases as [(tid & t & e & w & Hbase & He & Hw & ->)|[_ ->]];
    intros l loan'; simpl; intros [[<- <-]|[Hne Hl']]%lookup_insert_Some.
  - by intros ?.
  - apply base_transaction_Some in Hbase as (Ht & _ & _ & Href).
    apply loan_backed_softDelete; [done | congruence | by apply Hbacked].
  - by intros ?.
  - by apply Hbacked.
Qed.

Lemma exec_loans_backed op db : loans_backed db → loans_backed (exec op db).
Proof.
  intros Hok. unfold exec.
  destruct (run op db) as [[e|] db'] eqn:Hrun.
  - pose proof (run_error_inv op db e) as Hsame.
    rewrite Hrun in Hsame. simpl in *. by rewrite Hsame.
  - simpl. destruct op; simpl in Hrun; apply outcome_None in Hrun as [r Hrun].
    + by eapply createTransaction_loans_backed.
    + by eapply createLoan_loans_backed.
    + by eapply createLoanPayment_loans_backed.
    + by eapply deleteLoan_loans_backed.
Qed.

Lemma exec_all_loans_backed ops db : loans_backed db → loans_backed (exec_all ops db).
Proof.
  revert db. induction ops as [|op ops IH]; intros db Hok; [done|].
  simpl. by apply IH, exec_loans_backed.
Qed.

Lemma deleteLoan_backed_reverses loanId userId now db r db' :
  loans_backed db →
  deleteLoan loanId userId now db = (Ok r, db') →
  ∃ loan transactionId t entry w,
    owned_loan db loanId userId loan
    ∧ base_transaction db userId loanId = Some (transactionId, t)
    ∧ t_entries t = [entry]
    ∧ wallets db !! e_walletId entry = Some w
    ∧ wallets db' = <[e_walletId entry := credit (reversal loan) w]> (wallets db)
    ∧ transactions db' = <[transactionId := softDeleted now t]> (transactions db).
Proof.
  intros Hbacked Hrun.
  apply deleteLoan_Ok in Hrun as (loan & Hl & _ & _ & Hcases).
  destruct Hcases as [(tid & t & e & w & Hbase & He & Hw & ->)|[Hshape _]].
  - by exists loan, tid, t, e, w.
  - exfalso. destruct Hl as (Hl & <- & Hlive).
    destruct (Hbacked _ _ Hl Hlive) as [(id & t & Hrow & Hb) Hone].
    destruct (base_transaction_found db loanId loan id t Hrow Hb) as (id' & t' & Hfound).
    pose proof (base_transaction_Some _ _ _ _ _ Hfound) as (Hrow' & Hu & Hd & Href).
    destruct (Hone id' t' Hrow') as [e He]; [done|].
    by apply (Hshape id' t' e).
Qed.

End backing.

(** C5, as stated, fails: [deleteLoan] succeeds on a loan whose disbursement
    transaction is not found, soft-deletes the loan and leaves every wallet
    as it was. *)
Lemma deleteLoan_without_reversal :
  (run (DeleteLoan "L" "u" 9) legacy_db).1 = None
  ∧ wallets (run (DeleteLoan "L" "u" 9) legacy_db).2 = wallets legacy_db
  ∧ transactions (run (DeleteLoan "L" "u" 9) legacy_db).2 = transactions legacy_db
  ∧ l_deletedAt <$> loans (run (DeleteLoan "L" "u" 9) legacy_db).2 !! "L"%string
    = Some (Some 9).
Proof. by vm_compute. Qed.

Section reversal.
Import LoanService.

Lemma deleteLoan_goes_through db loanId userId now loan transactionId t entry w :
  owned_loan db loanId userId loan →
  (∀ id p, loanPayments db !! id = Some p → p_loanId p ≠ loanId) →
  base_transaction db userId loanId = Some (transactionId, t) →
  t_entries t = [entry] →
  wallets db !! e_walletId entry = Some w →
  credit_fits w (reversal loan) →
  ∃ r db', deleteLoan loanId userId now db = (Ok r, db').
Proof.
  intros Hl Hnone%payments_of_nil Hbase He Hw Hfits%credit_fits_andb.
  pose proof Hl as (Hlrow & _). apply loan_where_Some in Hl.
  pose proof (base_transaction_Some _ _ _ _ _ Hbase) as (Htrow & _).
  unfold reversal in Hfits.
  prisma_eval. rewrite Hl, Hnone. cbv beta iota. simpl. rewrite Hbase, He.
  destruct (bool_decide (l_kind loan = you_owe));
    rewrite Hw, Hfits; cbn [transactions]; rewrite Htrow; cbn [loans];
    rewrite Hlrow; by eexists _, _.
Qed.

End reversal.

(** C5, amended: [deleteLoan] fails with [LOAN_HAS_PAYMENTS] whenever the loan
    it finds for the caller has a payment. For a loan of the caller without
    payments whose live transaction has one entry, on a wallet whose balance
    stays in the range of [DECIMAL(18,2)], [deleteLoan] goes through. A
    [deleteLoan] that goes through soft-deletes the loan; when the live
    transaction that refers to the loan is found and has exactly one entry,
    it also soft-deletes that transaction and moves the balance of the
    entry's wallet by minus the principal for [you_owe] and plus the
    principal for [owed_to_you], which in a consistent ledger is the opposite
    of what the entry posted; otherwise it changes neither wallets nor
    transactions. The second case does not arise in a store in which every
    live loan has its disbursement transaction, and the engine operations
    keep a store so. *)
Theorem deleteLoan_reverses_disbursement db loanId userId now :
  (∀ l id p,
     owned_loan db loanId userId l →
     loanPayments db !! id = Some p → p_loanId p = loanId →
     run (DeleteLoan loanId userId now) db = (Some LOAN_HAS_PAYMENTS, db))
  ∧ (∀ loan transactionId t entry w,
       owned_loan db loanId userId loan →
       (∀ id p, loanPayments db !! id = Some p → p_loanId p ≠ loanId) →
       base_transaction db userId loanId = Some (transactionId, t) →
       t_entries t = [entry] →
       wallets db !! e_walletId entry = Some w →
       credit_fits w (if bool_decide (l_kind loan = you_owe)
                      then - l_principal loan else l_principal loan) →
       ∃ r db', LoanService.deleteLoan loanId userId now db = (Ok r, db'))
  ∧ (∀ r db',
       LoanService.deleteLoan loanId userId now db = (Ok r, db') →
       ∃ loan,
         owned_loan db loanId userId loan
         ∧ (∀ id p, loanPayments db !! id = Some p → p_loanId p ≠ loanId)
         ∧ loans db'
           = <[loanId := mkLoan (l_userId loan) (l_kind loan) (l_counterpartyName loan)
                           (l_principal loan) (l_outstandingAmount loan)
                           (l_startDate loan) (l_dueDate loan) (l_status loan)
                           (l_note loan) (Some now)]> (loans db)
         ∧ l_deletedAt <$> loans db' !! loanId = Some (Some now)
         ∧ loanPayments db' = loanPayments db
         ∧ categories db' = categories db
         ∧ ((∃ transactionId t entry w,
               base_transaction db userId loanId = Some (transactionId, t)
               ∧ t_entries t = [entry]
               ∧ wallets db !! e_walletId entry = Some w
               ∧ wallets db'
                 = <[e_walletId entry :=
                       mkWallet (w_userId w) (w_isArchived w) (w_openingBalance w)
                         (if bool_decide (l_kind loan = you_owe)
                          then w_currentBalance w - l_principal loan
                          else w_currentBalance w + l_principal loan)]> (wallets db)
               ∧ w_currentBalance <$> wallets db' !! e_walletId entry
                 = Some (if bool_decide (l_kind loan = you_owe)
                         then w_currentBalance w - l_principal loan
                         else w_currentBalance w + l_principal loan)
               ∧ transactions db'
                 = <[transactionId :=
                       mkTransaction (t_userId t) (t_type t) (t_transactionDate t)
                         (t_categoryId t) (t_amount t) (t_note t) (Some now)
                         (t_loanId t) (t_entries t)]> (transactions db)
               ∧ (disbursements_ok db →
                  (if bool_decide (l_kind loan = you_owe)
                   then - l_principal loan else l_principal loan) = - signed entry))
            ∨ ((∀ transactionId t entry,
                  base_transaction db userId loanId = Some (transactionId, t) →
                  t_entries t ≠ [entry])
               ∧ ¬ loans_backed db
               ∧ wallets db' = wallets db
               ∧ transactions db' = transactions db)))
  ∧ (∀ ops, loans_backed db → loans_backed (exec_all ops db)).
Proof.
  split_and!.
  - intros l id p. apply deleteLoan_has_payments.
  - intros loan tid t e w Hl Hnone Hbase He Hw Hfits.
    by apply (deleteLoan_goes_through db loanId userId now loan tid t e w).
  - intros r db' Hrun. pose proof Hrun as Hrun'.
    apply deleteLoan_Ok in Hrun as (loan & Hl & Hnone & _ & Hcases).
    exists loan. split; [done|]. split; [by apply payments_of_nil|].
    destruct Hcases as [(tid & t & e & w & Hbase & He & Hw & ->)|[Hshape ->]];
      cbn [wallets categories transactions loans loanPayments].
    + split_and!; try done; [by rewrite lookup_insert_eq|].
      left. exists tid, t, e, w.
      assert (Hrow : credit (reversal loan) w
                     = mkWallet (w_userId w) (w_isArchived w) (w_openingBalance w)
                         (if bool_decide (l_kind loan = you_owe)
                          then w_currentBalance w - l_principal loan
                          else w_currentBalance w + l_principal loan)).
      { unfold credit, reversal. case_bool_decide; f_equal; lia. }
      rewrite Hrow. split_and!; try done; [by rewrite lookup_insert_eq|].
      intros Hdis. destruct Hl as (Hl & _).
      by apply (disbursement_reversal db userId loanId loan tid t e).
    + split_and!; try done; [by rewrite lookup_insert_eq|].
      right. split_and!; try done.
      intros Hbacked.
      destruct (deleteLoan_backed_reverses _ _ _ _ _ _ Hbacked Hrun')
        as (loan' & tid & t & e & w & _ & Hbase & He & _).
      by apply (Hshape tid t e).
  - intros ops. apply exec_all_loans_backed.
Qed.

Lemma deleteLoan_reverses_disbursement_witness :
  run (DeleteLoan "0" "u" 9) repaid_db = (Some LOAN_HAS_PAYMENTS, repaid_db)
  ∧ ∃ r db',
      LoanService.deleteLoan "0" "u" 9 lent_db = (Ok r, db')
      ∧ w_currentBalance <$> wallets lent_db !! "B"%string = Some 3000
      ∧ w_currentBalance <$> wallets db' !! "B"%string = Some 10000
      ∧ l_deletedAt <$> loans db' !! "0"%string = Some (Some 9)
      ∧ t_deletedAt <$> transactions db' !! "0"%string = Some (Some 9).
Proof.
  split.
  - apply (proj1 (deleteLoan_reverses_disbursement repaid_db "0" "u" 9)
             (mkLoan "u" you_owe "Bob" 50000 0 3 None closed None None)
             "0"%string (mkLoanPayment "0" "u" "W" "3" 4 50000 None)).
    + repeat split; vm_compute; reflexivity.
    + vm_compute. reflexivity.
    + reflexivity.
  - pose proof (deleteLoan_reverses_disbursement lent_db "0" "u" 9)
      as (_ & Hgoes & Hshape & _).
    assert (Hbase : base_transaction lent_db "u" "0"
              = Some ("0"%string,
                      mkTransaction "u" expense 5 None 7000 (Some "Cho vay: Eve"%string)
                        None (Some "0"%string) [mkEntry "B" dir_out 7000]))
      by (vm_compute; reflexivity).
    destruct (Hgoes (mkLoan "u" owed_to_you "Eve" 7000 7000 5 None open None None)
                "0"%string
                (mkTransaction "u" expense 5 None 7000 (Some "Cho vay: Eve"%string)
                   None (Some "0"%string) [mkEntry "B" dir_out 7000])
                (mkEntry "B" dir_out 7000) (mkWallet "u" false 10000 3000))
      as (r & db' & Hrun).
    + repeat split; vm_compute; reflexivity.
    + intros id p Hp. vm_compute in Hp. discriminate Hp.
    + exact Hbase.
    + reflexivity.
    + vm_compute. reflexivity.
    + split; vm_compute; reflexivity.
    + exists r, db'. split; [exact Hrun|]. split; [vm_compute; reflexivity|].
      destruct (Hshape r db' Hrun) as (loan & (Hl & _) & _ & _ & Hdel & _ & _ & Hcases).
      assert (loan = mkLoan "u" owed_to_you "Eve" 7000 7000 5 None open None None) as ->
        by (vm_compute in Hl; congruence).
      destruct Hcases as [(tid & t & e & w & Hbase' & He & Hw & _ & Hbal & Htx & _)
                         |(Hnone & _)].
      * rewrite Hbase in Hbase'. injection Hbase' as <- <-.
        simpl in He. injection He as <-. cbn [e_walletId] in Hw, Hbal.
        assert (w = mkWallet "u" false 10000 3000) as ->
          by (vm_compute in Hw; congruence).
        split_and!; [rewrite Hbal; reflexivity | exact Hdel |].
        rewrite Htx. by rewrite lookup_insert_eq.
      * exfalso. by apply (Hnone _ _ (mkEntry "B" dir_out 7000) Hbase).
Defined.

(** Deleting a loan that was just disbursed gives the wallet its balance
    back and soft-deletes the disbursement. *)
Example deleteLoan_scenario :
  let db1 := exec (CreateLoan (LoanService.mkLoanData owed_to_you "Eve" 7000 "B" 5 None None)
                     "u") sample_db in
  let db2 := exec (DeleteLoan "0" "u" 6) db1 in
  w_currentBalance <$> wallets db1 !! "B"%string = Some 3000
  ∧ w_currentBalance <$> wallets db2 !! "B"%string = Some 10000
  ∧ t_deletedAt <$> transactions db2 !! "0"%string = Some (Some 6)
  ∧ l_deletedAt <$> loans db2 !! "0"%string = Some (Some 6).
Proof. by vm_compute. Qed.

(** ** The outstanding amount of a loan *)

Lemma table_sum_zero {Row} (f : Row → Z) (tbl : gmap string Row) :
  (∀ id r, tbl !! id = Some r → f r = 0) → table_sum f tbl = 0.
Proof.
  induction tbl as [|id r tbl Hnew _ IH] using map_first_key_ind.
  - intros _. apply table_sum_empty.
  - intros Hzero. rewrite table_sum_insert_new by done.
    rewrite (Hzero id r) by apply lookup_insert_eq.
    rewrite IH; [done|]. intros id' r' Hrow. apply (Hzero id').
    rewrite lookup_insert_ne; [done|]. congruence.
Qed.

Lemma paid_unattached db loanId :
  payments_attached db → loans db !! loanId = None →
  paid loanId (loanPayments db) = 0.
Proof.
  intros Hfk Hnone. apply table_sum_zero. intros id p Hp.
  case_bool_decide as Hloan; [|done].
  destruct (Hfk _ _ Hp) as [l Hl]. simpl in Hl. congruence.
Qed.

Lemma paid_post (tbl : gmap string LoanPayment) loanId p :
  paid loanId (<[fresh (dom tbl) := p]> tbl)
  = (if bool_decide (p_loanId p = loanId) then p_amount p else 0) + paid loanId tbl.
Proof. unfold paid. by rewrite table_sum_fresh. Qed.

Section loan_preservation.
Import TransactionService LoanService.

Lemma createTransaction_loans data userId db r db' :
  createTransaction data userId db = (Ok r, db') →
  loans db' = loans db ∧ loanPayments db' = loanPayments db.
Proof.
  intros Hrun. destruct data as [d|d|d|ty]; simpl in Hrun.
  - by apply createIncomeTransaction_Ok in Hrun as (w & _ & _ & ->).
  - by apply createExpenseTransaction_Ok in Hrun as (w & _ & _ & _ & ->).
  - by apply createTransferTransaction_Ok in Hrun
      as (wf & wt & _ & _ & _ & _ & _ & ->).
  - done.
Qed.

Lemma createLoan_loans_ok data userId db r db' :
  createLoan data userId db = (Ok r, db') →
  0 < ld_principal data → loans_ok db → loans_ok db'.
Proof.
  intros Hrun Hpos [Hloans Hfk].
  apply createLoan_Ok in Hrun as (w & categoryId & note & _ & _ & _ & _ & _ & ->).
  split; simpl.
  - apply map_Forall_insert_2; [|done].
    unfold loan_ok; simpl.
    rewrite (paid_unattached db) by (done || apply fresh_lookup).
    split; [lia|]. split; [done | lia].
  - intros id p Hp. simpl. apply lookup_insert_is_Some'. right. by apply (Hfk id).
Qed.

Lemma createLoan_outstanding_small data userId db r db' :
  createLoan data userId db = (Ok r, db') →
  small (ld_principal data) → outstanding_small db → outstanding_small db'.
Proof.
  intros Hrun Hsmall Hall.
  apply createLoan_Ok in Hrun as (w & categoryId & note & _ & _ & _ & _ & _ & ->).
  by apply map_Forall_insert_2.
Qed.

(** What a payment within the range leaves of the loan. *)
Lemma createLoanPayment_outstanding data userId db r db' :
  createLoanPayment data userId db = (Ok r, db') →
  ∃ loan loan',
    loans db !! pd_loanId data = Some loan
    ∧ l_status loan = open
    ∧ loans db' = <[pd_loanId data := loan']> (loans db)
    ∧ loanPayments db'
      = <[fresh (dom (loanPayments db)) := r.2]> (loanPayments db)
    ∧ p_loanId r.2 = pd_loanId data ∧ p_amount r.2 = pd_amount data
    ∧ l_principal loan' = l_principal loan
    ∧ (small (l_outstandingAmount loan) ∨ small (pd_amount data) →
       pd_amount data ≤ l_outstandingAmount loan)
    ∧ (small (l_outstandingAmount loan) → small (pd_amount data) →
       l_outstandingAmount loan'
       = Z.max 0 (l_outstandingAmount loan - pd_amount data)
       ∧ (l_status loan' = closed ↔ l_outstandingAmount loan' = 0)).
Proof.
  intros Hrun.
  apply createLoanPayment_Ok in Hrun
    as (loan & w & categoryId & note & (Hl & _) & Hopen & Hamt & _ & _ & -> & ->).
  exists loan. eexists. cbn [fst snd loans loanPayments p_loanId p_amount].
  split_and!; try done.
  { intros Hsmall. apply covers_small in Hamt; [done | tauto]. }
  intros Hout Hsmall.
  destruct (new_outstanding_small _ _ Hout Hsmall) as (-> & -> & _).
  cbn [l_outstandingAmount l_status set_outstanding].
  split; [done|].
  destruct (Z.leb_spec (l_outstandingAmount loan - pd_amount data) 0).
  - split; [lia | done].
  - split; [done | lia].
Qed.

Lemma createLoanPayment_loans_ok data userId db r db' :
  createLoanPayment data userId db = (Ok r, db') →
  0 ≤ pd_amount data → outstanding_small db → loans_ok db →
  loans_ok db' ∧ outstanding_small db'.
Proof.
  intros Hrun Hpos Hsmall [Hloans Hfk].
  apply createLoanPayment_outstanding in Hrun
    as (loan & loan' & Hl & Hopen & Hloans' & Hpay' & Hid & Hamt & Hprincipal
        & Hle & Hnew).
  destruct (Hloans _ _ Hl) as [Hout Hstatus].
  pose proof (Hsmall _ _ Hl) as Hlsmall. simpl in Hlsmall.
  specialize (Hle (or_introl Hlsmall)).
  assert (Ha : small (pd_amount data)) by (unfold small in *; lia).
  destruct (Hnew Hlsmall Ha) as (Hout' & Hstatus').
  split; [split|].
  - rewrite Hloans', Hpay'. intros id l'. unfold loan_ok. rewrite paid_post, Hid, Hamt.
    intros [[<- <-]|[Hne Hl']]%lookup_insert_Some.
    + rewrite bool_decide_eq_true_2 by done.
      assert (l_outstandingAmount loan ≠ 0) by (rewrite <- Hstatus; congruence).
      split; [lia | done].
    + rewrite bool_decide_eq_false_2 by done. apply (Hloans _ _ Hl').
  - unfold payments_attached. rewrite Hloans', Hpay'. apply map_Forall_insert_2.
    + rewrite Hid. apply lookup_insert_is_Some'. by left.
    + intros id p Hp. simpl. apply lookup_insert_is_Some'. right. by apply (Hfk id).
  - unfold outstanding_small. rewrite Hloans'. apply map_Forall_insert_2; [|done].
    unfold small in *. lia.
Qed.

Lemma deleteLoan_loans loanId userId now db r db' :
  deleteLoan loanId userId now db = (Ok r, db') →
  ∃ loan, loans db !! loanId = Some loan
          ∧ loans db' = <[loanId := set_deletedAt now loan]> (loans db)
          ∧ loanPayments db' = loanPayments db.
Proof.
  intros Hrun.
  apply deleteLoan_Ok in Hrun as (loan & (Hl & _) & _ & _ & Hcases).
  exists loan. by destruct Hcases as [(tid & t & e & w & _ & _ & _ & ->)|[_ ->]].
Qed.

Lemma deleteLoan_loans_ok loanId userId now db r db' :
  deleteLoan loanId userId now db = (Ok r, db') → loans_ok db → loans_ok db'.
Proof.
  intros (loan & Hl & Hloans' & Hpay')%deleteLoan_loans [Hloans Hfk].
  split.
  - rewrite Hloans', Hpay'. apply map_Forall_insert_2; [|done].
    apply (Hloans _ _ Hl).
  - unfold payments_attached. rewrite Hloans', Hpay'.
    intros id p Hp. simpl. apply lookup_insert_is_Some'. right. by apply (Hfk id).
Qed.

Lemma exec_loans_ok op db :
  amounts_ok op = true → loans_ok db → outstanding_small db →
  loans_ok (exec op db) ∧ outstanding_small (exec op db).
Proof.
  intros Hpos Hok Hsmall. unfold exec.
  destruct (run op db) as [[e|] db'] eqn:Hrun.
  - pose proof (run_error_inv op db e) as Hsame.
    rewrite Hrun in Hsame. simpl in *. by rewrite Hsame.
  - simpl. destruct op; simpl in Hrun; apply outcome_None in Hrun as [r Hrun].
    + apply createTransaction_loans in Hrun as [Hl Hp].
      unfold loans_ok, payments_attached, outstanding_small. by rewrite Hl, Hp.
    + apply bool_decide_eq_true in Hpos as [Hpos Hp]. split.
      * by eapply createLoan_loans_ok.
      * by eapply createLoan_outstanding_small.
    + apply bool_decide_eq_true in Hpos. by eapply createLoanPayment_loans_ok.
    + split; [by eapply deleteLoan_loans_ok|].
      apply deleteLoan_loans in Hrun as (loan & Hl & Hloans' & _).
      unfold outstanding_small. rewrite Hloans'. apply map_Forall_insert_2; [|done].
      apply (Hsmall _ _ Hl).
Qed.

Lemma exec_all_loans_ok ops db :
  forallb amounts_ok ops = true → loans_ok db → outstanding_small db →
  loans_ok (exec_all ops db) ∧ outstanding_small (exec_all ops db).
Proof.
  revert db. induction ops as [|op ops IH]; intros db Hpos Hok Hsmall; [done|].
  simpl in *. apply andb_true_iff in Hpos as [Hop Hops].
  destruct (exec_loans_ok op db Hop Hok Hsmall). by apply IH.
Qed.

End loan_preservation.




(** ** Sign of the amount *)

(** C9, as stated, fails: the operations do not look at the sign of the
    amount. An income of -50.00, and one of 0, on a valid wallet and category
    are recorded; the first lowers the balance. *)
Lemma nonpositive_amount_is_accepted :
  (run (CreateTransaction
          (TransactionService.Income
             (TransactionService.mkWalletData "W" "salary" 1 (-5000) None)) "u")
       sample_db).1 = None
  ∧ w_currentBalance
      <$> wallets (run (CreateTransaction
                          (TransactionService.Income
                             (TransactionService.mkWalletData "W" "salary" 1 (-5000) None))
                          "u") sample_db).2 !! "W"%string
    = Some 95000
  ∧ (run (CreateTransaction
            (TransactionService.Income
               (TransactionService.mkWalletData "W" "salary" 1 0 None)) "u")
         sample_db).1 = None
  ∧ t_amount
      <$> transactions (run (CreateTransaction
                               (TransactionService.Income
                                  (TransactionService.mkWalletData "W" "salary" 1 0 None))
                               "u") sample_db).2 !! "0"%string
    = Some 0.
Proof. by vm_compute. Qed.

(** C9, amended: the engine operations take the amount as the caller gives
    it, positivity being left to the validation in front of them. A call that
    returns an error performs no state change, whatever the amount; and an
    amount less than or equal to 0 is accepted under the same guards as any
    other: income, expense, transfer, [createLoan] and [createLoanPayment]
    all succeed with it on owned wallets, categories of the right type, an
    open loan and balances that cover the amount, the amount and what is
    written with it being in the range of [DECIMAL(18,2)]. *)
Theorem amount_sign_is_not_checked db userId :
  (∀ op e, (run op db).1 = Some e → (run op db).2 = db)
  ∧ (∀ d w c,
       TransactionService.td_amount d ≤ 0 →
       owned_wallet db (TransactionService.td_walletId d) userId w →
       categories db !! TransactionService.td_categoryId d = Some c →
       c_userId c = userId → c_type c = income →
       decimal_18_2 (TransactionService.td_amount d) = true →
       credit_fits w (TransactionService.td_amount d) →
       ∃ r db',
         TransactionService.createTransaction (TransactionService.Income d) userId db
           = (Ok r, db')
         ∧ wallets db' !! TransactionService.td_walletId d
           = Some (credit (TransactionService.td_amount d) w)
         ∧ w_currentBalance <$> wallets db' !! TransactionService.td_walletId d
           = Some (w_currentBalance w + TransactionService.td_amount d))
  ∧ (∀ d w c,
       TransactionService.td_amount d ≤ 0 →
       owned_wallet db (TransactionService.td_walletId d) userId w →
       TransactionService.td_amount d ≤ w_currentBalance w →
       categories db !! TransactionService.td_categoryId d = Some c →
       c_userId c = userId → c_type c = expense →
       decimal_18_2 (TransactionService.td_amount d) = true →
       credit_fits w (- TransactionService.td_amount d) →
       (run (CreateTransaction (TransactionService.Expense d) userId) db).1 = None)
  ∧ (∀ d wf wt,
       TransactionService.xd_amount d ≤ 0 →
       TransactionService.xd_fromWalletId d ≠ TransactionService.xd_toWalletId d →
       owned_wallet db (TransactionService.xd_fromWalletId d) userId wf →
       owned_wallet db (TransactionService.xd_toWalletId d) userId wt →
       TransactionService.xd_amount d ≤ w_currentBalance wf →
       decimal_18_2 (TransactionService.xd_amount d) = true →
       credit_fits wf (- TransactionService.xd_amount d) →
       credit_fits wt (TransactionService.xd_amount d) →
       (run (CreateTransaction (TransactionService.Transfer d) userId) db).1 = None)
  ∧ (∀ data w,
       LoanService.ld_principal data ≤ 0 →
       owned_wallet db (LoanService.ld_walletId data) userId w →
       (LoanService.ld_kind data = owed_to_you →
        LoanService.ld_principal data ≤ w_currentBalance w) →
       loanId_taken (Some (fresh (dom (loans db)))) (transactions db) = false →
       decimal_18_2 (LoanService.ld_principal data) = true →
       credit_fits w (if bool_decide (LoanService.ld_kind data = you_owe)
                      then LoanService.ld_principal data
                      else - LoanService.ld_principal data) →
       (run (CreateLoan data userId) db).1 = None)
  ∧ (∀ data loan w,
       LoanService.pd_amount data ≤ 0 →
       owned_loan db (LoanService.pd_loanId data) userId loan →
       l_status loan = open →
       LoanService.pd_amount data ≤ l_outstandingAmount loan →
       owned_wallet db (LoanService.pd_walletId data) userId w →
       (l_kind loan = you_owe → LoanService.pd_amount data ≤ w_currentBalance w) →
       (∀ id p, loanPayments db !! id = Some p →
                p_transactionId p ≠ fresh (dom (transactions db))) →
       decimal_18_2 (LoanService.pd_amount data) = true →
       credit_fits w (if bool_decide (l_kind loan = you_owe)
                      then - LoanService.pd_amount data
                      else LoanService.pd_amount data) →
       decimal_18_2 (Number.toDecimal (Number.max 0
          (Number.sub (Number.toNumber (l_outstandingAmount loan))
                      (Number.toNumber (LoanService.pd_amount data))))) = true →
       (run (CreateLoanPayment data userId) db).1 = None).
Proof.
  split_and!.
  - intros op e. apply run_error_inv.
  - intros d w c _ Hw Hc Hu Hty Hamt Hfits.
    destruct (createIncomeTransaction_succeeds db userId d w c) as (r & db' & Hrun);
      try done.
    exists r, db'. split; [done|].
    apply createIncomeTransaction_Ok in Hrun as (w' & (Hw' & _) & _ & ->).
    destruct Hw as (Hw & _). assert (w' = w) as -> by congruence.
    simpl. by rewrite lookup_insert_eq.
  - intros d w c _ Hw Hle%covers_ge Hc Hu Hty Hamt Hfits.
    destruct (createExpenseTransaction_succeeds db userId d w c) as (r & db' & Hrun);
      try done.
    apply (outcome_of_Ok _ r db'). exact Hrun.
  - intros d wf wt _ Hne Hf Ht Hle%covers_ge Hamt Hff Hft.
    destruct (createTransferTransaction_succeeds db userId d wf wt) as (r & db' & Hrun);
      try done.
    apply (outcome_of_Ok _ r db'). exact Hrun.
  - intros data w _ Hw Hbal Hfree Hamt Hfits.
    destruct (createLoan_succeeds db data userId w) as (r & db' & Hrun); try done.
    + intros Hkind. by apply covers_ge, Hbal.
    + apply (outcome_of_Ok _ r db'). exact Hrun.
  - intros data loan w _ Hl Hopen Hle%covers_ge Hw Hbal Hfree Hamt Hfits Hnew.
    destruct (createLoanPayment_succeeds db userId data loan w) as (r & db' & Hrun);
      try done.
    + intros Hkind. by apply covers_ge, Hbal.
    + apply (outcome_of_Ok _ r db'). exact Hrun.
Qed.

Lemma amount_sign_is_not_checked_witness :
  ∃ r db',
    TransactionService.createTransaction
      (TransactionService.Income
         (TransactionService.mkWalletData "W" "salary" 1 (-5000) None)) "u" sample_db
      = (Ok r, db')
    ∧ wallets db' !! "W"%string = Some (mkWallet "u" false 100000 95000)
    ∧ w_currentBalance <$> wallets db' !! "W"%string = Some 95000.
Proof.
  apply (proj1 (proj2 (amount_sign_is_not_checked sample_db "u"))
           (TransactionService.mkWalletData "W" "salary" 1 (-5000) None)
           (mkWallet "u" false 100000 100000)
           (mkCategory "u" income "Salary" false)).
  - simpl. lia.
  - repeat split; vm_compute; reflexivity.
  - vm_compute. reflexivity.
  - reflexivity.
  - reflexivity.
  - vm_compute. reflexivity.
  - split; vm_compute; reflexivity.
Defined.

(** ** Loan statistics *)








(** A closed loan counts in [totalLoans] and in neither bucket; a deleted
    loan counts nowhere. *)
Example getLoanStats_scenario :
  (LoanService.getLoanStats "u" repaid_db).1
  = Ok (mkLoanStats (mkLoanBucket 0 0) (mkLoanBucket 0 0) 1).
Proof. by vm_compute. Qed.

Example getLoanStats_open_scenario :
  (LoanService.getLoanStats "u" legacy_db).1
  = Ok (mkLoanStats (mkLoanBucket 1 (Number.toNumber 50000)) (mkLoanBucket 0 0) 1).
Proof. by vm_compute. Qed.

(** * Further properties of the services *)

(** ** The range checks that a successful call has passed *)

Ltac prisma_fits :=
  cbn [t_amount t_entries e_amount p_amount l_principal l_outstandingAmount forallb] in *;
  repeat match goal with
  | E : negb _ = false |- _ => apply negb_false_iff in E
  | E : _ && _ = true |- _ => apply andb_true_iff in E; destruct E
  end;
  unfold credit_fits.

Lemma balances_decimal_fits db walletId w amount :
  balances_decimal db → wallets db !! walletId = Some w →
  decimal_18_2 (w_currentBalance w + amount) = true → credit_fits w amount.
Proof. intros Hall Hw Hnew. split; [apply (Hall _ _ Hw) | done]. Qed.

Section fits.
Import TransactionService LoanService.




Lemma createLoan_fits data userId db r db' w :
  createLoan data userId db = (Ok r, db') →
  wallets db !! ld_walletId data = Some w →
  decimal_18_2 (ld_principal data) = true
  ∧ credit_fits w (if bool_decide (ld_kind data = you_owe)
                   then ld_principal data else - ld_principal data).
Proof.
  intros H Hw. prisma_inv H; prisma_fits; simplify_eq.
  all: repeat case_bool_decide; try congruence; done.
Qed.


Lemma deleteLoan_fits loanId userId now db r db' loan transactionId t entry w :
  deleteLoan loanId userId now db = (Ok r, db') →
  loans db !! loanId = Some loan →
  base_transaction db userId loanId = Some (transactionId, t) →
  t_entries t = [entry] →
  wallets db !! e_walletId entry = Some w →
  credit_fits w (reversal loan).
Proof.
  intros H Hl Hbase He Hw. unfold reversal. unfold base_transaction in Hbase.
  prisma_inv H; prisma_facts; prisma_fits; simplify_eq.
  all: try congruence.
  all: repeat case_bool_decide; try congruence.
  all: split; congruence.
Qed.

End fits.

(** ** Which calls [createTransaction] accepts *)

Section acceptance.
Import TransactionService.

Lemma createIncomeTransaction_category data userId db r db' :
  createIncomeTransaction data userId db = (Ok r, db') →
  ∃ c, owned_category db (td_categoryId data) userId c ∧ c_type c = income.
Proof.
  intros H. prisma_inv H.
  match goal with E : findById _ _ (categories _) = Some ?c |- _ =>
    apply category_where_Some in E; exists c; split; [done|] end.
  prisma_facts.
  match goal with E : _ && negb _ = false |- _ =>
    rewrite bool_decide_eq_true_2 in E by done; simpl in E;
    by apply negb_false_iff, bool_decide_eq_true in E end.
Qed.

Lemma createExpenseTransaction_category data userId db r db' :
  createExpenseTransaction data userId db = (Ok r, db') →
  ∃ c, owned_category db (td_categoryId data) userId c ∧ c_type c = expense.
Proof.
  intros H. prisma_inv H.
  match goal with E : findById _ _ (categories _) = Some ?c |- _ =>
    apply category_where_Some in E; exists c; split; [done|] end.
  prisma_facts.
  match goal with E : bool_decide (expense = expense) && negb _ = false |- _ =>
    rewrite bool_decide_eq_true_2 in E by done; simpl in E;
    by apply negb_false_iff, bool_decide_eq_true in E end.
Qed.

End acceptance.



(** ** The category guard *)

Section category_guard.
Import TransactionService.

Lemma category_where_None db categoryId userId :
  findById categoryId (λ c, bool_decide (c_userId c = userId)) (categories db) = None
  ↔ ∀ c, ¬ owned_category db categoryId userId c.
Proof.
  split.
  - intros Hnone c Hc%category_where_Some. congruence.
  - intros Hno. destruct (findById _ _ _) as [c|] eqn:E; [|done].
    by apply category_where_Some, Hno in E.
Qed.

Lemma income_category_errors db userId d w :
  owned_wallet db (td_walletId d) userId w →
  ((∀ c, ¬ owned_category db (td_categoryId d) userId c) →
   run (CreateTransaction (Income d) userId) db
   = (Some TRANSACTION_CATEGORY_NOT_FOUND, db))
  ∧ (∀ c, owned_category db (td_categoryId d) userId c → c_type c ≠ income →
     run (CreateTransaction (Income d) userId) db
     = (Some INVALID_CATEGORY_TYPE_FOR_INCOME, db)).
Proof.
  intros Hw%wallet_where_Some. split.
  - intros Hnone%category_where_None. prisma_eval. by rewrite Hw, Hnone.
  - intros c Hc%category_where_Some Hty. prisma_eval. rewrite Hw, Hc.
    rewrite bool_decide_eq_true_2 by done.
    by rewrite (bool_decide_eq_false_2 (c_type c = income)).
Qed.

Lemma expense_category_errors db userId d w :
  owned_wallet db (td_walletId d) userId w →
  td_amount d ≤ w_currentBalance w →
  ((∀ c, ¬ owned_category db (td_categoryId d) userId c) →
   run (CreateTransaction (Expense d) userId) db
   = (Some TRANSACTION_CATEGORY_NOT_FOUND, db))
  ∧ (∀ c, owned_category db (td_categoryId d) userId c → c_type c ≠ expense →
     run (CreateTransaction (Expense d) userId) db
     = (Some INVALID_CATEGORY_TYPE_FOR_EXPENSE, db)).
Proof.
  intros Hw%wallet_where_Some Hamt%covers_ge. unfold covers in Hamt. split.
  - intros Hnone%category_where_None. prisma_eval. by rewrite Hw, Hamt, Hnone.
  - intros c Hc%category_where_Some Hty. prisma_eval. rewrite Hw, Hamt, Hc.
    by repeat (case_bool_decide; try done).
Qed.

Lemma wallet_checked_first db userId d :
  (∀ w, ¬ owned_wallet db (td_walletId d) userId w) →
  run (CreateTransaction (Income d) userId) db = (Some TRANSACTION_WALLET_NOT_FOUND, db)
  ∧ run (CreateTransaction (Expense d) userId) db
    = (Some TRANSACTION_WALLET_NOT_FOUND, db).
Proof.
  intros Hnone%wallet_where_None. split; prisma_eval; by rewrite Hnone.
Qed.

End category_guard.

(** X2: the category of an income or expense is checked after the wallet
    and, for an expense, after the balance. With a wallet that passes, the
    call fails with [TRANSACTION_CATEGORY_NOT_FOUND] when the category does
    not exist or belongs to another user, and with
    [INVALID_CATEGORY_TYPE_FOR_INCOME] (respectively [..._FOR_EXPENSE]) when
    the caller's category has another type; without such a wallet it fails
    with [TRANSACTION_WALLET_NOT_FOUND] whatever the category. *)
Theorem category_guard db userId d :
  let walletId := TransactionService.td_walletId d in
  let categoryId := TransactionService.td_categoryId d in
  (∀ w, owned_wallet db walletId userId w →
     ((∀ c, ¬ owned_category db categoryId userId c) →
      run (CreateTransaction (TransactionService.Income d) userId) db
      = (Some TRANSACTION_CATEGORY_NOT_FOUND, db))
     ∧ (∀ c, owned_category db categoryId userId c → c_type c ≠ income →
        run (CreateTransaction (TransactionService.Income d) userId) db
        = (Some INVALID_CATEGORY_TYPE_FOR_INCOME, db)))
  ∧ (∀ w, owned_wallet db walletId userId w →
       TransactionService.td_amount d ≤ w_currentBalance w →
       ((∀ c, ¬ owned_category db categoryId userId c) →
        run (CreateTransaction (TransactionService.Expense d) userId) db
        = (Some TRANSACTION_CATEGORY_NOT_FOUND, db))
       ∧ (∀ c, owned_category db categoryId userId c → c_type c ≠ expense →
          run (CreateTransaction (TransactionService.Expense d) userId) db
          = (Some INVALID_CATEGORY_TYPE_FOR_EXPENSE, db)))
  ∧ ((∀ w, ¬ owned_wallet db walletId userId w) →
     run (CreateTransaction (TransactionService.Income d) userId) db
     = (Some TRANSACTION_WALLET_NOT_FOUND, db)
     ∧ run (CreateTransaction (TransactionService.Expense d) userId) db
       = (Some TRANSACTION_WALLET_NOT_FOUND, db)).
Proof.
  intros walletId categoryId. split_and!.
  - apply income_category_errors.
  - apply expense_category_errors.
  - apply wallet_checked_first.
Qed.

Lemma category_guard_witness :
  run (CreateTransaction
         (TransactionService.Income
            (TransactionService.mkWalletData "W" "food" 1 100 None)) "u") sample_db
  = (Some INVALID_CATEGORY_TYPE_FOR_INCOME, sample_db).
Proof.
  apply (proj2 (proj1 (category_guard sample_db "u"
                  (TransactionService.mkWalletData "W" "food" 1 100 None))
                  (mkWallet "u" false 100000 100000)
                  ltac:(repeat split; vm_compute; reflexivity))
           (mkCategory "u" expense "Food" false)).
  - split; vm_compute; reflexivity.
  - discriminate.
Defined.

(** ** Which calls the loan service accepts *)

Section loan_guards.
Import LoanService.



Lemma deleteLoan_not_found db loanId userId now :
  (∀ l, ¬ owned_loan db loanId userId l) →
  run (DeleteLoan loanId userId now) db = (Some LOAN_NOT_FOUND, db).
Proof. intros Hnone%loan_where_None. prisma_eval. by rewrite Hnone. Qed.

(** Without a disbursement of one entry, [deleteLoan] only marks the loan. *)
Lemma deleteLoan_plain db loanId userId now loan :
  owned_loan db loanId userId loan →
  (∀ id p, loanPayments db !! id = Some p → p_loanId p ≠ loanId) →
  (∀ transactionId t entry,
     base_transaction db userId loanId = Some (transactionId, t) →
     t_entries t ≠ [entry]) →
  ∃ r db', deleteLoan loanId userId now db = (Ok r, db').
Proof.
  intros Hl Hnone%payments_of_nil Hshape.
  pose proof Hl as (Hlrow & _). apply loan_where_Some in Hl.
  prisma_eval. rewrite Hl, Hnone. cbv beta iota. simpl.
  destruct (base_transaction db userId loanId) as [[tid t]|] eqn:Hbase.
  - destruct (t_entries t) as [|e [|e' es]] eqn:He.
    + cbn [loans]. rewrite Hlrow. by eexists _, _.
    + by destruct (Hshape tid t e).
    + cbn [loans]. rewrite Hlrow. by eexists _, _.
  - cbn [loans]. rewrite Hlrow. by eexists _, _.
Qed.

End loan_guards.





(** X5: in a store whose balances are values of their column and whose
    entries are on wallets of the store, [deleteLoan] succeeds exactly when
    the loan is found for the caller, has no payment, and the balance that
    the reversal gives to the wallet of its disbursement, when that
    transaction is found with a single entry, is in the range of
    [DECIMAL(18,2)]; no balance is compared with the principal, so the
    reversal of a [you_owe] loan goes through even when it leaves the wallet
    below zero. Without such a loan it fails with [LOAN_NOT_FOUND]. *)
Theorem deleteLoan_succeeds_iff db loanId userId now :
  balances_decimal db → entries_refer db →
  ((run (DeleteLoan loanId userId now) db).1 = None
   ↔ deleteLoan_accepts db loanId userId)
  ∧ ((∀ l, ¬ owned_loan db loanId userId l) →
     run (DeleteLoan loanId userId now) db = (Some LOAN_NOT_FOUND, db)).
Proof.
  intros Hdec Hrefer. split; [|apply deleteLoan_not_found]. split.
  - intros (r & db' & Hrun)%outcome_ok. pose proof Hrun as Hfits.
    apply deleteLoan_Ok in Hrun as (loan & Hl & Hnone & _ & Hcases).
    exists loan. split_and!; [done | by apply payments_of_nil |].
    intros tid t e w Hbase He Hw.
    destruct (deleteLoan_fits _ _ _ _ _ _ loan tid t e w Hfits) as [_ Hn];
      try done; [apply Hl|].
    unfold reversal in Hn. case_bool_decide; [by rewrite <- add_opp | done].
  - intros (loan & Hl & Hnone & Hn).
    destruct (base_transaction db userId loanId) as [[tid t]|] eqn:Hbase.
    + destruct (t_entries t) as [|e [|e' es]] eqn:He.
      * destruct (deleteLoan_plain db loanId userId now loan) as (r & db' & Hrun);
          try done; [|apply (outcome_of_Ok _ r db'); exact Hrun].
        intros tid' t' e' Hb. congruence.
      * pose proof (base_transaction_Some _ _ _ _ _ Hbase) as (Ht & _).
        pose proof (Hrefer _ _ Ht) as Hentries. simpl in Hentries.
        rewrite He in Hentries. apply Forall_cons in Hentries as [[w Hw] _].
        destruct (deleteLoan_goes_through db loanId userId now loan tid t e w)
          as (r & db' & Hrun); try done;
          [|apply (outcome_of_Ok _ r db'); exact Hrun].
        apply (balances_decimal_fits db (e_walletId e)); [done | done |].
        specialize (Hn tid t e w eq_refl He Hw). unfold reversal.
        case_bool_decide; [by rewrite add_opp | done].
      * destruct (deleteLoan_plain db loanId userId now loan) as (r & db' & Hrun);
          try done; [|apply (outcome_of_Ok _ r db'); exact Hrun].
        intros tid' t' e'' Hb. congruence.
    + destruct (deleteLoan_plain db loanId userId now loan) as (r & db' & Hrun);
        try done; [|apply (outcome_of_Ok _ r db'); exact Hrun].
      intros tid' t' e' Hb. congruence.
Qed.

Lemma deleteLoan_succeeds_iff_witness :
  run (DeleteLoan "9" "u" 5) sample_db = (Some LOAN_NOT_FOUND, sample_db)
  ∧ (run (DeleteLoan "0" "u" 9) lent_db).1 = None.
Proof.
  split.
  - apply (proj2 (deleteLoan_succeeds_iff sample_db "9" "u" 5
             ltac:(apply (bool_decide_unpack (balances_decimal sample_db));
                   vm_compute; exact I)
             ltac:(apply (bool_decide_unpack (entries_refer sample_db));
                   vm_compute; exact I))).
    intros l (Hrow & _). vm_compute in Hrow. discriminate.
  - apply (proj1 (deleteLoan_succeeds_iff lent_db "0" "u" 9
             ltac:(apply (bool_decide_unpack (balances_decimal lent_db));
                   vm_compute; exact I)
             ltac:(apply (bool_decide_unpack (entries_refer lent_db));
                   vm_compute; exact I))).
    exists (mkLoan "u" owed_to_you "Eve" 7000 7000 5 None open None None).
    split_and!.
    + repeat split; vm_compute; reflexivity.
    + intros id p Hp. vm_compute in Hp. discriminate.
    + intros tid t e w Hbase He Hw.
      assert (Hfound : base_transaction lent_db "u" "0"
                = Some ("0"%string,
                        mkTransaction "u" expense 5 None 7000
                          (Some "Cho vay: Eve"%string) None (Some "0"%string)
                          [mkEntry "B" dir_out 7000])) by (vm_compute; reflexivity).
      rewrite Hfound in Hbase. injection Hbase as <- <-.
      simpl in He. injection He as <-. cbn [e_walletId] in Hw.
      assert (w = mkWallet "u" false 10000 3000) as ->
        by (vm_compute in Hw; congruence).
      vm_compute. reflexivity.
Defined.

(** ** What the engine never rewrites *)

Lemma wallet_evolves_refl w : wallet_evolves w w.
Proof. done. Qed.

Lemma wallet_evolves_credit amount w : wallet_evolves w (credit amount w).
Proof. done. Qed.

Lemma wallet_evolves_trans w1 w2 w3 :
  wallet_evolves w1 w2 → wallet_evolves w2 w3 → wallet_evolves w1 w3.
Proof. unfold wallet_evolves. intros (?&?&?) (?&?&?). split_and!; congruence. Qed.

Lemma tx_evolves_refl t : tx_evolves t t.
Proof. by left. Qed.

Lemma tx_evolves_trans t1 t2 t3 : tx_evolves t1 t2 → tx_evolves t2 t3 → tx_evolves t1 t3.
Proof.
  intros [->|(Hlive & Hloan & now & ->)] H23; [done|].
  destruct H23 as [->|(Hlive' & _)]; [|done].
  right. split_and!; [done | done | by exists now].
Qed.

Lemma loan_evolves_refl l : loan_evolves l l.
Proof. by repeat split. Qed.

Lemma loan_evolves_trans l1 l2 l3 :
  loan_evolves l1 l2 → loan_evolves l2 l3 → loan_evolves l1 l3.
Proof.
  intros (Hid & Hdel & Hclosed) (Hid' & Hdel' & Hclosed'). split; [|split].
  - destruct Hid as (?&?&?&?&?&?&?), Hid' as (?&?&?&?&?&?&?). split_and!; congruence.
  - intros Hd. rewrite (Hdel Hd) in *. by apply Hdel'.
  - intros Hc. destruct (Hclosed Hc) as [Hc2 Hout].
    destruct (Hclosed' Hc2) as [Hc3 Hout']. split; congruence.
Qed.

Lemma loan_evolves_set_deletedAt now l :
  l_deletedAt l = None → loan_evolves l (set_deletedAt now l).
Proof. intros Hlive. split; [by repeat split | split; [congruence | done]]. Qed.

Lemma loan_evolves_set_outstanding out st l :
  l_deletedAt l = None → l_status l = open →
  loan_evolves l (set_outstanding out st l).
Proof.
  intros Hlive Hopen. split; [by repeat split | split; [congruence | congruence]].
Qed.

Lemma store_evolves_refl db : store_evolves db db.
Proof.
  split_and!; try done.
  - intros id w Hw. exists w. by split.
  - intros id t Ht. exists t. split; [done | apply tx_evolves_refl].
  - intros id l Hl. exists l. split; [done | apply loan_evolves_refl].
Qed.

Lemma store_evolves_trans db1 db2 db3 :
  store_evolves db1 db2 → store_evolves db2 db3 → store_evolves db1 db3.
Proof.
  intros (Hc & Hn & Hw & Ht & Hl & Hp) (Hc' & Hn' & Hw' & Ht' & Hl' & Hp').
  split_and!.
  - congruence.
  - intros id Hnone. by apply Hn', Hn.
  - intros id w Hrow. destruct (Hw _ _ Hrow) as (w2 & Hrow2 & H12).
    destruct (Hw' _ _ Hrow2) as (w3 & Hrow3 & H23).
    exists w3. split; [done | by eapply wallet_evolves_trans].
  - intros id t Hrow. destruct (Ht _ _ Hrow) as (t2 & Hrow2 & H12).
    destruct (Ht' _ _ Hrow2) as (t3 & Hrow3 & H23).
    exists t3. split; [done | by eapply tx_evolves_trans].
  - intros id l Hrow. destruct (Hl _ _ Hrow) as (l2 & Hrow2 & H12).
    destruct (Hl' _ _ Hrow2) as (l3 & Hrow3 & H23).
    exists l3. split; [done | by eapply loan_evolves_trans].
  - intros id p Hrow. by apply Hp', Hp.
Qed.

Section table_updates.
Context {Row : Type} (R : Row → Row → Prop) (R_refl : ∀ x, R x x).

Lemma lookup_fresh_insert (tbl : gmap string Row) id x v :
  tbl !! id = Some x → <[fresh (dom tbl) := v]> tbl !! id = Some x.
Proof.
  intros Hrow. rewrite lookup_insert_ne; [done|].
  intros <-. by rewrite fresh_lookup in Hrow.
Qed.

Lemma evolves_fresh_insert (tbl : gmap string Row) id x v :
  tbl !! id = Some x → ∃ x', <[fresh (dom tbl) := v]> tbl !! id = Some x' ∧ R x x'.
Proof. intros Hrow. exists x. split; [by apply lookup_fresh_insert | done]. Qed.

Lemma evolves_insert (tbl : gmap string Row) k y v id x :
  tbl !! k = Some y → R y v → tbl !! id = Some x →
  ∃ x', <[k := v]> tbl !! id = Some x' ∧ R x x'.
Proof.
  intros Hk Hyv Hrow. destruct (decide (k = id)) as [->|Hne].
  - exists v. rewrite lookup_insert_eq. split; [done | congruence].
  - exists x. by rewrite lookup_insert_ne.
Qed.

Lemma evolves_same (tbl : gmap string Row) id x :
  tbl !! id = Some x → ∃ x', tbl !! id = Some x' ∧ R x x'.
Proof. intros Hrow. by exists x. Qed.

End table_updates.

Lemma lookup_insert_None_keep {Row} (tbl : gmap string Row) k y v id :
  tbl !! k = Some y → tbl !! id = None → <[k := v]> tbl !! id = None.
Proof. intros Hk Hnone. apply lookup_insert_None. split; [done | congruence]. Qed.

Section evolution.
Import TransactionService LoanService.

Lemma createTransaction_evolves data userId db r db' :
  createTransaction data userId db = (Ok r, db') → store_evolves db db'.
Proof.
  intros Hrun. destruct data as [d|d|d|ty]; simpl in Hrun.
  - apply createIncomeTransaction_Ok in Hrun as (w & (Hw & _) & _ & ->).
    split_and!; simpl; try done.
    + intros id. by apply lookup_insert_None_keep with w.
    + intros id w'. by apply (evolves_insert wallet_evolves wallet_evolves_refl _ _ w).
    + intros id t. apply (evolves_fresh_insert tx_evolves tx_evolves_refl).
    + intros id l. apply (evolves_same loan_evolves loan_evolves_refl).
  - apply createExpenseTransaction_Ok in Hrun as (w & (Hw & _) & _ & _ & ->).
    split_and!; simpl; try done.
    + intros id. by apply lookup_insert_None_keep with w.
    + intros id w'. by apply (evolves_insert wallet_evolves wallet_evolves_refl _ _ w).
    + intros id t. apply (evolves_fresh_insert tx_evolves tx_evolves_refl).
    + intros id l. apply (evolves_same loan_evolves loan_evolves_refl).
  - apply createTransferTransaction_Ok in Hrun
      as (wf & wt & Hne & (Hf & _) & (Ht & _) & _ & _ & ->).
    split_and!; simpl; try done.
    + intros id Hnone. apply lookup_insert_None_keep with wt.
      * by rewrite lookup_insert_ne.
      * by apply lookup_insert_None_keep with wf.
    + intros id w' Hrow.
      destruct (evolves_insert wallet_evolves wallet_evolves_refl _ _ wf
                  (credit (- xd_amount d) wf) id w' Hf (wallet_evolves_credit _ _) Hrow)
        as (w1 & Hrow1 & H1).
      destruct (evolves_insert wallet_evolves wallet_evolves_refl
                  (<[xd_fromWalletId d := credit (- xd_amount d) wf]> (wallets db))
                  (xd_toWalletId d) wt (credit (xd_amount d) wt) id w1)
        as (w2 & Hrow2 & H2); [by rewrite lookup_insert_ne | done | done |].
      exists w2. split; [done | by eapply wallet_evolves_trans].
    + intros id t. apply (evolves_fresh_insert tx_evolves tx_evolves_refl).
    + intros id l. apply (evolves_same loan_evolves loan_evolves_refl).
  - done.
Qed.

Lemma createLoan_evolves data userId db r db' :
  createLoan data userId db = (Ok r, db') → store_evolves db db'.
Proof.
  intros Hrun.
  apply createLoan_Ok in Hrun as (w & c & n & (Hw & _) & _ & _ & _ & _ & ->).
  split_and!; simpl; try done.
  - intros id. by apply lookup_insert_None_keep with w.
  - intros id w'. by apply (evolves_insert wallet_evolves wallet_evolves_refl _ _ w).
  - intros id t. apply (evolves_fresh_insert tx_evolves tx_evolves_refl).
  - intros id l. apply (evolves_fresh_insert loan_evolves loan_evolves_refl).
Qed.

Lemma createLoanPayment_evolves data userId db r db' :
  createLoanPayment data userId db = (Ok r, db') → store_evolves db db'.
Proof.
  intros Hrun.
  apply createLoanPayment_Ok in Hrun
    as (loan & w & c & n & (Hl & _ & Hlive) & Hopen & _ & (Hw & _) & _ & _ & ->).
  split_and!; simpl; try done.
  - intros id. by apply lookup_insert_None_keep with w.
  - intros id w'. by apply (evolves_insert wallet_evolves wallet_evolves_refl _ _ w).
  - intros id t. apply (evolves_fresh_insert tx_evolves tx_evolves_refl).
  - intros id l. apply (evolves_insert loan_evolves loan_evolves_refl _ _ loan); [done|].
    by apply loan_evolves_set_outstanding.
  - intros id p. apply lookup_fresh_insert.
Qed.

Lemma deleteLoan_evolves loanId userId now db r db' :
  deleteLoan loanId userId now db = (Ok r, db') → store_evolves db db'.
Proof.
  intros Hrun.
  apply deleteLoan_Ok in Hrun as (loan & (Hl & _ & Hlive) & _ & _ & Hcases).
  destruct Hcases as [(tid & t & e & w & Hbase & He & Hw & ->)|[_ ->]];
    split_and!; simpl; try done.
  - intros id. by apply lookup_insert_None_keep with w.
  - intros id w'. by apply (evolves_insert wallet_evolves wallet_evolves_refl _ _ w).
  - apply base_transaction_Some in Hbase as (Ht & _ & Htlive & Href).
    intros id t'. apply (evolves_insert tx_evolves tx_evolves_refl _ _ t); [done|].
    right. split_and!; [done | by rewrite Href | by exists now].
  - intros id l. apply (evolves_insert loan_evolves loan_evolves_refl _ _ loan); [done|].
    by apply loan_evolves_set_deletedAt.
  - intros id w'. apply (evolves_same wallet_evolves wallet_evolves_refl).
  - intros id t'. apply (evolves_same tx_evolves tx_evolves_refl).
  - intros id l. apply (evolves_insert loan_evolves loan_evolves_refl _ _ loan); [done|].
    by apply loan_evolves_set_deletedAt.
Qed.

Lemma exec_evolves op db : store_evolves db (exec op db).
Proof.
  unfold exec. destruct (run op db) as [[e|] db'] eqn:Hrun.
  - pose proof (run_error_inv op db e) as Hsame.
    rewrite Hrun in Hsame. simpl in *. rewrite Hsame by done. apply store_evolves_refl.
  - simpl. destruct op; simpl in Hrun; apply outcome_None in Hrun as [r Hrun].
    + by eapply createTransaction_evolves.
    + by eapply createLoan_evolves.
    + by eapply createLoanPayment_evolves.
    + by eapply deleteLoan_evolves.
Qed.

Lemma exec_all_evolves ops db : store_evolves db (exec_all ops db).
Proof.
  revert db. induction ops as [|op ops IH]; intros db; [apply store_evolves_refl|].
  simpl. eapply store_evolves_trans; [apply exec_evolves | apply IH].
Qed.

End evolution.

(** X6: the ledger is append-only. Whatever operations follow, a transaction
    stays in the store with the same owner, type, date, category, amount,
    note, loan reference and entries; the only change a row can see is that
    a live loan disbursement gets its [deletedAt], once. A loan payment stays
    in the store unchanged. *)
Theorem ledger_is_append_only db ops :
  (∀ id t, transactions db !! id = Some t →
     ∃ t', transactions (exec_all ops db) !! id = Some t'
           ∧ t_userId t' = t_userId t ∧ t_type t' = t_type t
           ∧ t_transactionDate t' = t_transactionDate t
           ∧ t_categoryId t' = t_categoryId t ∧ t_amount t' = t_amount t
           ∧ t_note t' = t_note t ∧ t_loanId t' = t_loanId t
           ∧ t_entries t' = t_entries t
           ∧ (t_loanId t = None ∨ t_deletedAt t ≠ None → t' = t)
           ∧ (t_deletedAt t' = None → t' = t))
  ∧ (∀ id p, loanPayments db !! id = Some p →
       loanPayments (exec_all ops db) !! id = Some p).
Proof.
  destruct (exec_all_evolves ops db) as (_ & _ & _ & Ht & _ & Hp). split; [|done].
  intros id t Hrow. destruct (Ht _ _ Hrow) as (t' & Hrow' & Hev).
  exists t'. split; [done|].
  destruct Hev as [->|(Hlive & [l Hloan] & now & ->)].
  - by split_and!.
  - split_and!; try done. intros [Hnone|Hdel]; congruence.
Qed.

Lemma ledger_is_append_only_witness :
  transactions (exec_all sample_ops repaid_db) !! "4"%string
  = Some (mkTransaction "u" expense 5 None 7000 (Some "Cho vay: Eve") (Some 6)
            (Some "1"%string) [mkEntry "B" dir_out 7000]).
Proof.
  destruct (proj1 (ledger_is_append_only repaid_db sample_ops) "4"%string
              (mkTransaction "u" expense 5 None 7000 (Some "Cho vay: Eve") (Some 6)
                 (Some "1"%string) [mkEntry "B" dir_out 7000])
              ltac:(vm_compute; reflexivity))
    as (t' & Hrow & _ & _ & _ & _ & _ & _ & _ & _ & Hsame & _).
  specialize (Hsame (or_intror (Some_ne_None 6))). subst t'. exact Hrow.
Defined.

(** X7: no operation removes a loan or changes its owner, kind, counterparty,
    principal, dates or note. A soft-deleted loan never changes again, and a
    closed loan keeps its status and its outstanding amount: there is no way
    back to open. *)
Theorem loan_rows_evolve db ops loanId loan :
  loans db !! loanId = Some loan →
  ∃ loan', loans (exec_all ops db) !! loanId = Some loan'
           ∧ l_userId loan' = l_userId loan ∧ l_kind loan' = l_kind loan
           ∧ l_counterpartyName loan' = l_counterpartyName loan
           ∧ l_principal loan' = l_principal loan
           ∧ l_startDate loan' = l_startDate loan ∧ l_dueDate loan' = l_dueDate loan
           ∧ l_note loan' = l_note loan
           ∧ (l_deletedAt loan ≠ None → loan' = loan)
           ∧ (l_status loan = closed →
              l_status loan' = closed
              ∧ l_outstandingAmount loan' = l_outstandingAmount loan).
Proof.
  intros Hrow.
  destruct (exec_all_evolves ops db) as (_ & _ & _ & _ & Hl & _).
  destruct (Hl _ _ Hrow) as (loan' & Hrow' & (?&?&?&?&?&?&?) & Hdel & Hclosed).
  exists loan'. by split_and!.
Qed.

Lemma loan_rows_evolve_witness :
  ∃ loan', loans (exec_all sample_ops repaid_db) !! "0"%string = Some loan'
           ∧ l_status loan' = closed ∧ l_outstandingAmount loan' = 0.
Proof.
  destruct (loan_rows_evolve repaid_db sample_ops "0"
              (mkLoan "u" you_owe "Bob" 50000 0 3 None closed None None)
              ltac:(vm_compute; reflexivity))
    as (loan' & Hrow & _ & _ & _ & _ & _ & _ & _ & _ & Hclosed).
  exists loan'. destruct (Hclosed eq_refl) as [Hst Hout].
  split; [exact Hrow | split; [exact Hst | exact Hout]].
Defined.

(** X8: the operations never touch the categories, never create or remove a
    wallet, and never change a wallet's owner, archival flag or opening
    balance: of the wallets only [currentBalance] moves. *)
Theorem wallets_and_categories_frame db ops :
  categories (exec_all ops db) = categories db
  ∧ (∀ id, wallets db !! id = None ↔ wallets (exec_all ops db) !! id = None)
  ∧ (∀ id w w', wallets db !! id = Some w →
       wallets (exec_all ops db) !! id = Some w' →
       w_userId w' = w_userId w ∧ w_isArchived w' = w_isArchived w
       ∧ w_openingBalance w' = w_openingBalance w).
Proof.
  destruct (exec_all_evolves ops db) as (Hc & Hn & Hw & _). split_and!; [done | |].
  - intros id. split; [apply Hn|]. intros Hnone.
    destruct (wallets db !! id) as [w|] eqn:Hrow; [|done].
    destruct (Hw _ _ Hrow) as (w' & Hrow' & _). congruence.
  - intros id w w' Hrow Hrow'. destruct (Hw _ _ Hrow) as (w'' & Hrow'' & Hev).
    by assert (w'' = w') as -> by congruence.
Qed.

Lemma wallets_and_categories_frame_witness :
  w_userId (mkWallet "u" false 10000 30000) = "u"%string
  ∧ w_isArchived (mkWallet "u" false 10000 30000) = false
  ∧ w_openingBalance (mkWallet "u" false 10000 30000) = 10000.
Proof.
  apply (proj2 (proj2 (wallets_and_categories_frame sample_db sample_ops))
           "B"%string (mkWallet "u" false 10000 10000)).
  - vm_compute. reflexivity.
  - vm_compute. reflexivity.
Defined.

(** X9: deletion is final. After a successful [deleteLoan], and whatever
    operations follow, a second [deleteLoan] of that loan and any payment on
    it fail with [LOAN_NOT_FOUND] for every caller, so the reversal is never
    applied twice. *)
Theorem deleteLoan_is_final db loanId userId now r db' ops :
  LoanService.deleteLoan loanId userId now db = (Ok r, db') →
  (∀ userId' now',
     run (DeleteLoan loanId userId' now') (exec_all ops db')
     = (Some LOAN_NOT_FOUND, exec_all ops db'))
  ∧ (∀ userId' data,
       LoanService.pd_loanId data = loanId →
       run (CreateLoanPayment data userId') (exec_all ops db')
       = (Some LOAN_NOT_FOUND, exec_all ops db')).
Proof.
  intros Hrun.
  apply deleteLoan_Ok in Hrun as (loan & (Hl & _) & _ & _ & Hcases).
  assert (Hdel : loans db' !! loanId = Some (set_deletedAt now loan)).
  { destruct Hcases as [(tid & t & e & w & _ & _ & _ & ->)|[_ ->]]; simpl;
      apply lookup_insert_eq. }
  destruct (exec_all_evolves ops db') as (_ & _ & _ & _ & Hloans & _).
  destruct (Hloans _ _ Hdel) as (loan' & Hrow' & _ & Hfrozen & _).
  rewrite (Hfrozen ltac:(done)) in Hrow'.
  assert (Hnone : ∀ userId', ∀ l, ¬ owned_loan (exec_all ops db') loanId userId' l).
  { intros userId' l (Hrow & _ & Hlive). rewrite Hrow' in Hrow.
    injection Hrow as <-. done. }
  split.
  - intros userId' now'. by apply deleteLoan_not_found.
  - intros userId' data <-. by apply createLoanPayment_not_found.
Qed.

Lemma deleteLoan_is_final_witness :
  run (DeleteLoan "L" "u" 11) (exec_all sample_ops (exec (DeleteLoan "L" "u" 9) legacy_db))
  = (Some LOAN_NOT_FOUND, exec_all sample_ops (exec (DeleteLoan "L" "u" 9) legacy_db)).
Proof.
  assert (Hrun : LoanService.deleteLoan "L" "u" 9 legacy_db
                 = (Ok ("L"%string,
                        mkLoan "u" you_owe "Bob" 50000 50000 0 None open None (Some 9)),
                    exec (DeleteLoan "L" "u" 9) legacy_db))
    by (vm_compute; reflexivity).
  exact (proj1 (deleteLoan_is_final _ _ _ _ _ _ sample_ops Hrun) "u"%string 11).
Defined.

(** ** Bounds on the outstanding amount *)

Lemma table_sum_nonneg {Row} (f : Row → Z) (tbl : gmap string Row) :
  (∀ id r, tbl !! id = Some r → 0 ≤ f r) → 0 ≤ table_sum f tbl.
Proof.
  induction tbl as [|id r tbl Hnew _ IH] using map_first_key_ind.
  - intros _. by rewrite table_sum_empty.
  - intros Hpos. rewrite table_sum_insert_new by done.
    pose proof (Hpos id r (lookup_insert_eq _ _ _)).
    assert (0 ≤ table_sum f tbl); [|lia].
    apply IH. intros id' r' Hrow. apply (Hpos id').
    rewrite lookup_insert_ne; [done|]. congruence.
Qed.

Lemma paid_nonneg db loanId : payments_nonneg db → 0 ≤ paid loanId (loanPayments db).
Proof.
  intros Hpos. apply table_sum_nonneg. intros id p Hp.
  case_bool_decide; [by apply (Hpos id) | done].
Qed.

Section outstanding_bounds.
Import TransactionService LoanService.

Lemma exec_payments_nonneg op db :
  amounts_ok op = true → payments_nonneg db → payments_nonneg (exec op db).
Proof.
  intros Hok Hpos. unfold exec.
  destruct (run op db) as [[e|] db'] eqn:Hrun.
  - pose proof (run_error_inv op db e) as Hsame.
    rewrite Hrun in Hsame. simpl in *. by rewrite Hsame.
  - simpl. destruct op; simpl in Hrun; apply outcome_None in Hrun as [r Hrun].
    + apply createTransaction_loans in Hrun as [_ Hp].
      unfold payments_nonneg. by rewrite Hp.
    + apply createLoan_Ok in Hrun as (w & c & n & _ & _ & _ & _ & _ & ->). done.
    + apply createLoanPayment_Ok in Hrun
        as (loan & w & c & n & _ & _ & _ & _ & _ & _ & ->).
      apply map_Forall_insert_2; [|done]. simpl. by apply bool_decide_eq_true in Hok.
    + apply deleteLoan_Ok in Hrun as (loan & _ & _ & _ & Hcases).
      by destruct Hcases as [(tid & t & e & w & _ & _ & _ & ->)|[_ ->]].
Qed.

Lemma exec_outstanding_le op db loanId loan :
  amounts_ok op = true → loans_ok db → outstanding_small db →
  loans db !! loanId = Some loan →
  ∃ loan', loans (exec op db) !! loanId = Some loan'
           ∧ l_outstandingAmount loan' ≤ l_outstandingAmount loan.
Proof.
  intros Hok [Hloans _] Hsmall Hrow. unfold exec.
  destruct (run op db) as [[e|] db'] eqn:Hrun.
  - pose proof (run_error_inv op db e) as Hsame.
    rewrite Hrun in Hsame. simpl in *. rewrite Hsame by done. by exists loan.
  - simpl. destruct op; simpl in Hrun; apply outcome_None in Hrun as [r Hrun].
    + apply createTransaction_loans in Hrun as [Hl _]. rewrite Hl. by exists loan.
    + apply createLoan_Ok in Hrun as (w & c & n & _ & _ & _ & _ & _ & ->). simpl.
      exists loan. split; [by apply lookup_fresh_insert | done].
    + apply createLoanPayment_outstanding in Hrun
        as (paying & paid & Hl & _ & -> & _ & _ & _ & _ & Hle & Hnew).
      apply bool_decide_eq_true in Hok.
      destruct (decide (pd_loanId data = loanId)) as [Heq|Hne].
      * rewrite Heq in *. rewrite lookup_insert_eq. exists paid. split; [done|].
        assert (paying = loan) as -> by congruence.
        pose proof (Hsmall _ _ Hrow) as Hout. simpl in Hout.
        specialize (Hle (or_introl Hout)).
        destruct Hnew as [-> _]; [done | unfold small in *; lia |].
        destruct (Hloans _ _ Hrow) as [Hmax _]. lia.
      * rewrite lookup_insert_ne by done. by exists loan.
    + apply deleteLoan_Ok in Hrun as (deleted & (Hl & _) & _ & _ & Hcases).
      assert (loans db' = <[loanId0 := set_deletedAt now deleted]> (loans db)) as ->
        by (by destruct Hcases as [(tid & t & e & w & _ & _ & _ & ->)|[_ ->]]).
      destruct (decide (loanId0 = loanId)) as [->|Hne].
      * rewrite lookup_insert_eq. eexists. split; [done|]. simpl.
        by assert (deleted = loan) as -> by congruence.
      * rewrite lookup_insert_ne by done. by exists loan.
Qed.

End outstanding_bounds.

(** X10: when principals are positive and below ten trillion and payment
    amounts are not negative, the outstanding amount of a loan only goes
    down: across any sequence of operations on a consistent store whose
    outstanding amounts are below ten trillion it never increases, it is
    never negative, and it never exceeds a principal that is not negative. *)
Theorem outstanding_amount_bounds db ops :
  loans_ok db → outstanding_small db → payments_nonneg db →
  forallb amounts_ok ops = true →
  (∀ loanId loan, loans db !! loanId = Some loan →
     ∃ loan', loans (exec_all ops db) !! loanId = Some loan'
              ∧ l_outstandingAmount loan' ≤ l_outstandingAmount loan)
  ∧ (∀ loanId loan', loans (exec_all ops db) !! loanId = Some loan' →
       0 ≤ l_outstandingAmount loan'
       ∧ (0 ≤ l_principal loan' → l_outstandingAmount loan' ≤ l_principal loan')).
Proof.
  revert db. induction ops as [|op ops IH]; intros db Hok Hsmall Hpos Hamt; simpl in *.
  - split.
    + intros l loan Hrow. by exists loan.
    + intros l loan Hrow. destruct Hok as [Hloans _].
      destruct (Hloans _ _ Hrow) as [Hout _].
      pose proof (paid_nonneg db l Hpos). lia.
  - apply andb_true_iff in Hamt as [Hop Hops].
    destruct (exec_loans_ok op db Hop Hok Hsmall) as [Hok1 Hsmall1].
    destruct (IH (exec op db)) as [Hmono Hbounds];
      [done | done | by apply exec_payments_nonneg | done |].
    split; [|done].
    intros l loan Hrow.
    destruct (exec_outstanding_le op db l loan Hop Hok Hsmall Hrow)
      as (loan1 & Hrow1 & Hle1).
    destruct (Hmono _ _ Hrow1) as (loan2 & Hrow2 & Hle2).
    exists loan2. split; [done | lia].
Qed.

Lemma outstanding_amount_bounds_witness :
  ∃ loan', loans (exec_all sample_ops sample_db) !! "1"%string = Some loan'
           ∧ 0 ≤ l_outstandingAmount loan'
           ∧ (0 ≤ l_principal loan' → l_outstandingAmount loan' ≤ l_principal loan').
Proof.
  assert (Hok : loans_ok sample_db)
    by (apply (bool_decide_unpack (loans_ok sample_db)); vm_compute; exact I).
  assert (Hsmall : outstanding_small sample_db)
    by (apply (bool_decide_unpack (outstanding_small sample_db)); vm_compute; exact I).
  assert (Hpos : payments_nonneg sample_db)
    by (apply (bool_decide_unpack (payments_nonneg sample_db)); vm_compute; exact I).
  assert (Hamt : forallb amounts_ok sample_ops = true) by (vm_compute; reflexivity).
  assert (Hrow : loans (exec_all sample_ops sample_db) !! "1"%string
                 = Some (mkLoan "u" owed_to_you "Eve" 7000 7000 5 None open None (Some 6)))
    by (vm_compute; reflexivity).
  eexists. split; [exact Hrow |].
  exact (proj2 (outstanding_amount_bounds sample_db sample_ops Hok Hsmall Hpos Hamt)
           _ _ Hrow).
Defined.

(** ** Payments and their transactions *)

Lemma payment_linked_evolves db db' p :
  store_evolves db db' → payment_linked db p → payment_linked db' p.
Proof.
  intros (_ & _ & _ & Ht & Hl & _)
         (t & loan & Hrow & Hloan & Hu & Htu & Hamt & Href & Hlive & Hty & He).
  destruct (Ht _ _ Hrow) as (t' & Hrow' & Hev).
  destruct (Hl _ _ Hloan) as (loan' & Hloan' & (Hu' & Hk' & _) & _).
  assert (t' = t) as ->.
  { destruct Hev as [->|(_ & [l Hsome] & _)]; [done | congruence]. }
  exists t, loan'. rewrite Hk'. split_and!; try done. congruence.
Qed.

Lemma no_payments_linked db : loanPayments db = ∅ → payments_linked db.
Proof.
  intros Hempty. unfold payments_linked. rewrite Hempty. split.
  - apply map_Forall_empty.
  - intros i j p q Hp. by rewrite lookup_empty in Hp.
Qed.

Section payment_links.
Import TransactionService LoanService.

Lemma exec_payments_linked op db : payments_linked db → payments_linked (exec op db).
Proof.
  intros [Hlinked Hunique].
  pose proof (exec_evolves op db) as Hev. unfold exec in *.
  destruct (run op db) as [[e|] db'] eqn:Hrun.
  - pose proof (run_error_inv op db e) as Hsame.
    rewrite Hrun in Hsame. simpl in *. by rewrite Hsame.
  - simpl in *.
    assert (Hold : ∀ id p, loanPayments db !! id = Some p → payment_linked db' p).
    { intros id p Hp. apply (payment_linked_evolves db); [done | by apply (Hlinked id)]. }
    destruct op; simpl in Hrun; apply outcome_None in Hrun as [r Hrun].
    + apply createTransaction_loans in Hrun as [_ Hp].
      unfold payments_linked. rewrite Hp. split; [intros id p; apply Hold | done].
    + apply createLoan_Ok in Hrun as (w & c & n & _ & _ & _ & _ & _ & ->).
      split; [intros id p; apply Hold | done].
    + apply createLoanPayment_Ok in Hrun
        as (loan & w & c & n & (Hl & Hu & _) & _ & _ & _ & _ & _ & ->).
      simpl in *. split; simpl.
      * apply map_Forall_insert_2; [|intros id p; apply Hold].
        eexists _, _. simpl. rewrite !lookup_insert_eq. by split_and!.
      * assert (Hfresh : ∀ i p, loanPayments db !! i = Some p →
                  p_transactionId p ≠ fresh (dom (transactions db))).
        { intros i p Hp Heq. destruct (Hlinked _ _ Hp) as (t & _ & Hrow & _).
          simpl in Hrow. rewrite Heq in Hrow. by rewrite fresh_lookup in Hrow. }
        intros i j p q [[<- <-]|[Hi Hp]]%lookup_insert_Some
                       [[<- <-]|[Hj Hq]]%lookup_insert_Some Heq; simpl in *.
        -- done.
        -- by destruct (Hfresh _ _ Hq).
        -- by destruct (Hfresh _ _ Hp).
        -- by apply (Hunique i j p q).
    + apply deleteLoan_Ok in Hrun as (loan & _ & _ & _ & Hcases).
      assert (loanPayments db' = loanPayments db) as Hp
        by (by destruct Hcases as [(tid & t & e & w & _ & _ & _ & ->)|[_ ->]]).
      unfold payments_linked. rewrite Hp. split; [intros id p; apply Hold | done].
Qed.

End payment_links.

(** X11: every loan payment is tied one-to-one to its own transaction. In a
    store whose payments are so tied (one without payments, say), after any
    sequence of operations each payment refers to a transaction that is
    live, carries no loan reference, has the payment's owner and amount, is
    an expense for a [you_owe] loan and an income for an [owed_to_you] loan,
    and has exactly one entry, on the paying wallet; and no two payments
    refer to the same transaction. *)
Theorem payments_stay_linked db ops :
  payments_linked db →
  (∀ id p, loanPayments (exec_all ops db) !! id = Some p →
     ∃ t loan,
       transactions (exec_all ops db) !! p_transactionId p = Some t
       ∧ loans (exec_all ops db) !! p_loanId p = Some loan
       ∧ l_userId loan = p_userId p
       ∧ t_userId t = p_userId p ∧ t_amount t = p_amount p
       ∧ t_loanId t = None ∧ t_deletedAt t = None
       ∧ t_type t = (if bool_decide (l_kind loan = you_owe) then expense else income)
       ∧ t_entries t
         = [mkEntry (p_walletId p)
              (if bool_decide (l_kind loan = you_owe) then dir_out else dir_in)
              (p_amount p)])
  ∧ (∀ i j p q,
       loanPayments (exec_all ops db) !! i = Some p →
       loanPayments (exec_all ops db) !! j = Some q →
       p_transactionId p = p_transactionId q → i = j).
Proof.
  revert db. induction ops as [|op ops IH]; intros db Hlinked; simpl.
  - destruct Hlinked as [Hall Hunique]. split; [|done].
    intros id p Hp. apply (Hall _ _ Hp).
  - apply IH. by apply exec_payments_linked.
Qed.

Lemma payments_stay_linked_witness :
  ∃ t loan,
    transactions repaid_db !! "3"%string = Some t
    ∧ loans repaid_db !! "0"%string = Some loan
    ∧ l_userId loan = "u"%string
    ∧ t_userId t = "u"%string ∧ t_amount t = 50000
    ∧ t_loanId t = None ∧ t_deletedAt t = None
    ∧ t_type t = (if bool_decide (l_kind loan = you_owe) then expense else income)
    ∧ t_entries t
      = [mkEntry "W" (if bool_decide (l_kind loan = you_owe) then dir_out else dir_in)
           50000].
Proof.
  apply (proj1 (payments_stay_linked sample_db sample_ops
                  (no_payments_linked sample_db eq_refl))
           "0"%string (mkLoanPayment "0" "u" "W" "3" 4 50000 None)).
  vm_compute. reflexivity.
Defined.

(** ** One user's calls and another user's rows *)

Section same_rows.
Context {Row : Type} (owner : Row → string) (userId : string).

Lemma same_rows_refl (tbl : gmap string Row) : same_rows_of_others owner userId tbl tbl.
Proof. by intros id row _. Qed.

Lemma same_rows_trans (t1 t2 t3 : gmap string Row) :
  same_rows_of_others owner userId t1 t2 → same_rows_of_others owner userId t2 t3 →
  same_rows_of_others owner userId t1 t3.
Proof. intros H12 H23 id row Hne. by rewrite (H12 id row Hne), (H23 id row Hne). Qed.

Lemma same_rows_insert (tbl : gmap string Row) k v :
  owner v = userId → (∀ y, tbl !! k = Some y → owner y = userId) →
  same_rows_of_others owner userId tbl (<[k := v]> tbl).
Proof.
  intros Hv Hold id row Hne. destruct (decide (k = id)) as [->|Hk].
  - rewrite lookup_insert_eq. split.
    + intros Hrow. by destruct Hne; apply Hold.
    + intros [= <-]. done.
  - by rewrite lookup_insert_ne.
Qed.

Lemma same_rows_fresh (tbl : gmap string Row) v :
  owner v = userId → same_rows_of_others owner userId tbl (<[fresh (dom tbl) := v]> tbl).
Proof.
  intros Hv. apply same_rows_insert; [done|]. intros y Hy.
  by rewrite fresh_lookup in Hy.
Qed.

End same_rows.

Lemma others_untouched_refl userId db : others_untouched userId db db.
Proof. split_and!; apply same_rows_refl. Qed.

Lemma others_untouched_trans userId db1 db2 db3 :
  others_untouched userId db1 db2 → others_untouched userId db2 db3 →
  others_untouched userId db1 db3.
Proof.
  intros (?&?&?&?) (?&?&?&?). split_and!; by eapply same_rows_trans.
Qed.

Lemma entries_owned_evolves db db' :
  store_evolves db db' → entries_owned db →
  (∀ id t' e w, transactions db !! id = None → transactions db' !! id = Some t' →
     e ∈ t_entries t' → wallets db !! e_walletId e = Some w →
     w_userId w = t_userId t') →
  entries_owned db'.
Proof.
  intros (_ & Hn & Hw & Ht & _) Howned Hnew id t' e w' Hrow' He Hwrow'.
  destruct (wallets db !! e_walletId e) as [w|] eqn:Hwrow;
    [|by rewrite (Hn _ Hwrow) in Hwrow'].
  destruct (Hw _ _ Hwrow) as (w'' & Hw'' & (Hu & _)).
  assert (w'' = w') as -> by congruence. rewrite Hu.
  destruct (transactions db !! id) as [t|] eqn:Hrow; [|by eapply Hnew].
  destruct (Ht _ _ Hrow) as (t'' & Ht'' & Hev).
  assert (t'' = t') as -> by congruence.
  destruct Hev as [->|(_ & _ & now & ->)]; [by apply (Howned id t e w)|].
  unfold softDeleted in *. simpl in *. by apply (Howned id t e w).
Qed.

Section isolation.
Import TransactionService LoanService.

Lemma createTransaction_isolated data userId db r db' :
  createTransaction data userId db = (Ok r, db') →
  entries_owned db → others_untouched userId db db' ∧ entries_owned db'.
Proof.
  intros Hrun Howned. pose proof (createTransaction_evolves _ _ _ _ _ Hrun) as Hev.
  destruct data as [d|d|d|ty]; simpl in Hrun.
  - apply createIncomeTransaction_Ok in Hrun as (w & (Hw & Hu & _) & _ & ->). split.
    + split_and!; simpl; try apply same_rows_refl.
      * apply same_rows_insert; [done|]. intros y Hy. congruence.
      * by apply same_rows_fresh.
    + apply (entries_owned_evolves _ _ Hev Howned). simpl.
      intros id t' e w0 Hnone [[<- <-]|[_ Hrow]]%lookup_insert_Some; [|congruence].
      simpl. intros ->%list_elem_of_singleton. simpl. congruence.
  - apply createExpenseTransaction_Ok in Hrun as (w & (Hw & Hu & _) & _ & _ & ->). split.
    + split_and!; simpl; try apply same_rows_refl.
      * apply same_rows_insert; [done|]. intros y Hy. congruence.
      * by apply same_rows_fresh.
    + apply (entries_owned_evolves _ _ Hev Howned). simpl.
      intros id t' e w0 Hnone [[<- <-]|[_ Hrow]]%lookup_insert_Some; [|congruence].
      simpl. intros ->%list_elem_of_singleton. simpl. congruence.
  - apply createTransferTransaction_Ok in Hrun
      as (wf & wt & Hne & (Hf & Huf & _) & (Ht & Hut & _) & _ & _ & ->). split.
    + split_and!; simpl; try apply same_rows_refl.
      * eapply same_rows_trans.
        -- apply (same_rows_insert w_userId userId _ (xd_fromWalletId d)
                    (credit (- xd_amount d) wf)); [done|]. intros y Hy. congruence.
        -- apply same_rows_insert; [done|]. intros y.
           rewrite lookup_insert_ne by done. congruence.
      * by apply same_rows_fresh.
    + apply (entries_owned_evolves _ _ Hev Howned). simpl.
      intros id t' e w0 Hnone [[<- <-]|[_ Hrow]]%lookup_insert_Some; [|congruence].
      simpl. intros [->|[->|[]%elem_of_nil]%elem_of_cons]%elem_of_cons; simpl; congruence.
  - done.
Qed.

Lemma createLoan_isolated data userId db r db' :
  createLoan data userId db = (Ok r, db') →
  entries_owned db → others_untouched userId db db' ∧ entries_owned db'.
Proof.
  intros Hrun Howned. pose proof (createLoan_evolves _ _ _ _ _ Hrun) as Hev.
  apply createLoan_Ok in Hrun as (w & c & n & (Hw & Hu & _) & _ & _ & _ & _ & ->). split.
  - split_and!; simpl; try apply same_rows_refl.
    + apply same_rows_insert; [done|]. intros y Hy. congruence.
    + by apply same_rows_fresh.
    + by apply same_rows_fresh.
  - apply (entries_owned_evolves _ _ Hev Howned). simpl.
    intros id t' e w0 Hnone [[<- <-]|[_ Hrow]]%lookup_insert_Some; [|congruence].
    simpl. intros ->%list_elem_of_singleton. simpl. congruence.
Qed.

Lemma createLoanPayment_isolated data userId db r db' :
  createLoanPayment data userId db = (Ok r, db') →
  entries_owned db → others_untouched userId db db' ∧ entries_owned db'.
Proof.
  intros Hrun Howned. pose proof (createLoanPayment_evolves _ _ _ _ _ Hrun) as Hev.
  apply createLoanPayment_Ok in Hrun
    as (loan & w & c & n & (Hl & Hlu & _) & _ & _ & (Hw & Hu & _) & _ & _ & ->). split.
  - split_and!; simpl.
    + apply same_rows_insert; [done|]. intros y Hy. congruence.
    + by apply same_rows_fresh.
    + apply same_rows_insert; [done|]. intros y Hy. congruence.
    + by apply same_rows_fresh.
  - apply (entries_owned_evolves _ _ Hev Howned). simpl.
    intros id t' e w0 Hnone [[<- <-]|[_ Hrow]]%lookup_insert_Some; [|congruence].
    simpl. intros ->%list_elem_of_singleton. simpl. congruence.
Qed.

Lemma deleteLoan_isolated loanId userId now db r db' :
  deleteLoan loanId userId now db = (Ok r, db') →
  entries_owned db → others_untouched userId db db' ∧ entries_owned db'.
Proof.
  intros Hrun Howned. pose proof (deleteLoan_evolves _ _ _ _ _ _ Hrun) as Hev.
  apply deleteLoan_Ok in Hrun as (loan & (Hl & Hlu & _) & _ & _ & Hcases).
  destruct Hcases as [(tid & t & e & w & Hbase & He & Hw & ->)|[_ ->]]; split.
  - apply base_transaction_Some in Hbase as (Ht & Htu & _ & _).
    assert (w_userId w = userId).
    { rewrite <- Htu. apply (Howned tid t e w); [done | | done].
      rewrite He. by apply list_elem_of_singleton. }
    split_and!; simpl; try apply same_rows_refl.
    + apply same_rows_insert; [done|]. intros y Hy. congruence.
    + apply same_rows_insert; [done|]. intros y Hy. congruence.
    + apply same_rows_insert; [done|]. intros y Hy. congruence.
  - apply (entries_owned_evolves _ _ Hev Howned). simpl.
    intros id t' e' w0 Hnone Hrow. apply lookup_insert_Some in Hrow as [[<- _]|[_ Hrow]].
    + apply base_transaction_Some in Hbase as (Ht & _). congruence.
    + congruence.
  - split_and!; simpl; try apply same_rows_refl.
    apply same_rows_insert; [done|]. intros y Hy. congruence.
  - apply (entries_owned_evolves _ _ Hev Howned). simpl. intros; congruence.
Qed.

Lemma exec_isolated op db :
  entries_owned db →
  others_untouched (op_user op) db (exec op db) ∧ entries_owned (exec op db).
Proof.
  intros Howned. unfold exec.
  destruct (run op db) as [[e|] db'] eqn:Hrun.
  - pose proof (run_error_inv op db e) as Hsame.
    rewrite Hrun in Hsame. simpl in *. rewrite Hsame by done.
    split; [apply others_untouched_refl | done].
  - simpl. destruct op; simpl in Hrun; apply outcome_None in Hrun as [r Hrun]; simpl.
    + by eapply createTransaction_isolated.
    + by eapply createLoan_isolated.
    + by eapply createLoanPayment_isolated.
    + by eapply deleteLoan_isolated.
Qed.

End isolation.

(** X12: calls made for one user leave every other user's rows alone. In a
    store where the entries of each transaction are on wallets of its owner
    (a property the operations keep), after any sequence of calls of one
    user the wallets, transactions, loans and loan payments of the other
    users are exactly those of before: none changed, none removed, none
    added. *)
Theorem other_users_are_untouched userId db ops :
  entries_owned db →
  Forall (λ op, op_user op = userId) ops →
  entries_owned (exec_all ops db)
  ∧ (∀ id w, w_userId w ≠ userId →
       wallets db !! id = Some w ↔ wallets (exec_all ops db) !! id = Some w)
  ∧ (∀ id t, t_userId t ≠ userId →
       transactions db !! id = Some t ↔ transactions (exec_all ops db) !! id = Some t)
  ∧ (∀ id l, l_userId l ≠ userId →
       loans db !! id = Some l ↔ loans (exec_all ops db) !! id = Some l)
  ∧ (∀ id p, p_userId p ≠ userId →
       loanPayments db !! id = Some p ↔ loanPayments (exec_all ops db) !! id = Some p).
Proof.
  intros Howned Hops.
  enough (entries_owned (exec_all ops db)
          ∧ others_untouched userId db (exec_all ops db)) as [? (?&?&?&?)] by done.
  revert db Howned. induction Hops as [|op ops Hop Hops IH]; intros db Howned; simpl.
  - split; [done | apply others_untouched_refl].
  - destruct (exec_isolated op db Howned) as [Hstep Howned']. rewrite Hop in Hstep.
    destruct (IH _ Howned') as [Hfinal Hrest].
    split; [done | by eapply others_untouched_trans].
Qed.

Lemma entries_owned_empty db : transactions db = ∅ → entries_owned db.
Proof. intros Hnone id t e w Hrow. by rewrite Hnone, lookup_empty in Hrow. Qed.

Lemma other_users_are_untouched_witness :
  wallets (exec_all shared_ops shared_db) !! "V"%string
  = Some (mkWallet "v" false 50000 50000)
  ∧ loans (exec_all shared_ops shared_db) !! "L"%string
    = Some (mkLoan "v" owed_to_you "Ann" 9000 9000 0 None open None None).
Proof.
  assert (Hops : Forall (λ op, op_user op = "u"%string) shared_ops)
    by (repeat constructor).
  pose proof (other_users_are_untouched "u" shared_db shared_ops
                (entries_owned_empty shared_db eq_refl) Hops) as (_ & Hw & _ & Hl & _).
  split.
  - apply (proj1 (Hw "V"%string (mkWallet "v" false 50000 50000)
                    ltac:(simpl; discriminate))).
    vm_compute. reflexivity.
  - apply (proj1 (Hl "L"%string
                    (mkLoan "v" owed_to_you "Ann" 9000 9000 0 None open None None)
                    ltac:(simpl; discriminate))).
    vm_compute. reflexivity.
Defined.

(** ** Totals and signs of the balances *)

Lemma credit_credit a b w : credit a (credit b w) = credit (b + a) w.
Proof. unfold credit. simpl. f_equal. lia. Qed.

Lemma credit_0 w : credit 0 w = w.
Proof. destruct w. unfold credit. simpl. f_equal. lia. Qed.

Lemma total_balance_credit tbl walletId w amount :
  tbl !! walletId = Some w →
  table_sum w_currentBalance (<[walletId := credit amount w]> tbl)
  = table_sum w_currentBalance tbl + amount.
Proof. intros Hw. rewrite (table_sum_insert _ _ _ w) by done. simpl. lia. Qed.

(** X13: a successful [createTransaction] changes what all wallets hold
    together by the amount for an income, by minus the amount for an
    expense, and not at all for a transfer. *)
Theorem createTransaction_total_balance data userId db r db' :
  TransactionService.createTransaction data userId db = (Ok r, db') →
  total_balance db' = total_balance db + net_inflow data.
Proof.
  intros Hrun. unfold total_balance. destruct data as [d|d|d|ty]; simpl in Hrun.
  - apply createIncomeTransaction_Ok in Hrun as (w & (Hw & _) & _ & ->). simpl.
    by apply total_balance_credit.
  - apply createExpenseTransaction_Ok in Hrun as (w & (Hw & _) & _ & _ & ->). simpl.
    by apply total_balance_credit.
  - apply createTransferTransaction_Ok in Hrun
      as (wf & wt & Hne & (Hf & _) & (Ht & _) & _ & _ & ->). simpl.
    rewrite total_balance_credit by (by rewrite lookup_insert_ne).
    rewrite total_balance_credit by done. lia.
  - done.
Qed.

Lemma createTransaction_total_balance_witness :
  total_balance
    (exec (CreateTransaction
             (TransactionService.Transfer
                (TransactionService.mkTransferData "A" "B" 2 20000 None)) "u") sample_db)
  = total_balance sample_db + 0.
Proof.
  assert (Hrun : TransactionService.createTransaction
            (TransactionService.Transfer
               (TransactionService.mkTransferData "A" "B" 2 20000 None)) "u" sample_db
          = (Ok ("0"%string,
                 mkTransaction "u" transfer 2 None 20000 None None None
                   [mkEntry "A" dir_out 20000; mkEntry "B" dir_in 20000]),
             exec (CreateTransaction
                     (TransactionService.Transfer
                        (TransactionService.mkTransferData "A" "B" 2 20000 None)) "u")
                  sample_db))
    by (vm_compute; reflexivity).
  exact (createTransaction_total_balance _ _ _ _ _ Hrun).
Defined.

Lemma balances_nonneg_credit db walletId w amount :
  balances_nonneg db → 0 ≤ w_currentBalance w + amount →
  map_Forall (λ _ w, 0 ≤ w_currentBalance w) (<[walletId := credit amount w]> (wallets db)).
Proof. intros Hpos Hnew. by apply map_Forall_insert_2. Qed.

(** A balance that is not negative and passes the test of the services
    against an amount below ten trillion holds the amount. *)
Lemma covers_debit balance amount :
  covers balance amount → amount < 10 ^ 15 → 0 ≤ balance → 0 ≤ balance - amount.
Proof.
  intros Hcov Hlt Hpos. destruct (Z.le_gt_cases amount 0); [lia|].
  apply covers_small in Hcov; [lia|]. left. unfold small. lia.
Qed.

Section nonneg.
Import TransactionService LoanService.

Lemma exec_balances_nonneg op db :
  guarded op = true → balances_nonneg db → balances_nonneg (exec op db).
Proof.
  intros Hop Hpos. unfold exec.
  destruct (run op db) as [[e|] db'] eqn:Hrun.
  - pose proof (run_error_inv op db e) as Hsame.
    rewrite Hrun in Hsame. simpl in *. by rewrite Hsame.
  - simpl. destruct op as [data userId|data userId|data userId|]; [| | |done];
      simpl in Hrun; apply outcome_None in Hrun as [r Hrun].
    + destruct data as [d|d|d|ty]; simpl in Hrun, Hop.
      * apply bool_decide_eq_true in Hop.
        apply createIncomeTransaction_Ok in Hrun as (w & (Hw & _) & _ & ->).
        apply balances_nonneg_credit; [done|]. pose proof (Hpos _ _ Hw). simpl in *. lia.
      * apply bool_decide_eq_true in Hop.
        apply createExpenseTransaction_Ok in Hrun as (w & (Hw & _) & Hbal & _ & ->).
        apply balances_nonneg_credit; [done|]. pose proof (Hpos _ _ Hw). simpl in *.
        pose proof (covers_debit _ _ Hbal Hop). lia.
      * apply bool_decide_eq_true in Hop.
        apply createTransferTransaction_Ok in Hrun
          as (wf & wt & Hne & (Hf & _) & (Ht & _) & Hbal & _ & ->).
        unfold balances_nonneg. simpl. apply map_Forall_insert_2.
        -- pose proof (Hpos _ _ Ht). simpl in *. lia.
        -- apply balances_nonneg_credit; [done|]. pose proof (Hpos _ _ Hf). simpl in *.
           pose proof (covers_debit _ _ Hbal). lia.
      * done.
    + apply bool_decide_eq_true in Hop.
      apply createLoan_Ok in Hrun as (w & c & n & (Hw & _) & Hbal & _ & _ & _ & ->).
      apply balances_nonneg_credit; [done|]. pose proof (Hpos _ _ Hw). simpl in *.
      case_bool_decide as Hk; [lia|].
      assert (ld_kind data = owed_to_you) as Hk' by (by destruct (ld_kind data)).
      specialize (Hbal Hk'). pose proof (covers_debit _ _ Hbal). lia.
    + apply bool_decide_eq_true in Hop.
      apply createLoanPayment_Ok in Hrun
        as (loan & w & c & n & _ & _ & _ & (Hw & _) & Hbal & _ & ->).
      apply balances_nonneg_credit; [done|]. pose proof (Hpos _ _ Hw). simpl in *.
      case_bool_decide as Hk; [specialize (Hbal Hk)|]; [|lia].
      pose proof (covers_debit _ _ Hbal). lia.
Qed.

End nonneg.

(** X14: no wallet is overdrawn by the calls that consult a balance, as long
    as the amounts are below ten trillion. When no wallet has a negative
    balance, none has one after any sequence of [createTransaction],
    [createLoan] and [createLoanPayment] calls whose amounts are below ten
    trillion and, where they are added to a wallet, not negative, whether
    the calls succeed or fail; [deleteLoan] is left out, as it reverses a
    disbursement without consulting the balance. Above ten trillion the
    comparison of the balance as a number can let through an amount that the
    wallet does not hold. *)
Theorem balances_stay_nonneg db ops :
  balances_nonneg db → forallb guarded ops = true →
  ∀ id w, wallets (exec_all ops db) !! id = Some w → 0 ≤ w_currentBalance w.
Proof.
  intros Hpos Hops.
  enough (balances_nonneg (exec_all ops db)) as Hall by exact Hall.
  revert db Hpos. induction ops as [|op ops IH]; intros db Hpos; [done|].
  simpl in Hops. apply andb_true_iff in Hops as [Hop Hops].
  simpl. apply IH; [done|]. by apply exec_balances_nonneg.
Qed.

Lemma balances_stay_nonneg_witness :
  wallets (exec_all (take 5 sample_ops) sample_db) !! "W"%string
  = Some (mkWallet "u" false 100000 70000)
  ∧ 0 ≤ w_currentBalance (mkWallet "u" false 100000 70000).
Proof.
  assert (Hpos : balances_nonneg sample_db)
    by (apply (bool_decide_unpack (balances_nonneg sample_db)); vm_compute; exact I).
  assert (Hw : wallets (exec_all (take 5 sample_ops) sample_db) !! "W"%string
               = Some (mkWallet "u" false 100000 70000)) by (vm_compute; reflexivity).
  split; [exact Hw|].
  exact (balances_stay_nonneg sample_db (take 5 sample_ops) Hpos
           ltac:(vm_compute; reflexivity) "W"%string _ Hw).
Defined.

(** ** A loan that is created and deleted again *)

Lemma findFirst_is_Some {Row} (where_ : string → Row → bool) tbl id r :
  tbl !! id = Some r → where_ id r = true → is_Some (findFirst where_ tbl).
Proof.
  intros Hrow Hw. destruct (findFirst where_ tbl) as [[]|] eqn:E; [done|].
  by rewrite (findFirst_None _ _ _ _ E Hrow) in Hw.
Qed.

Section round_trip.
Import LoanService.

(** X15: deleting a loan right after it was created undoes the disbursement.
    In a store where every payment belongs to a loan, a [deleteLoan] that
    follows a successful [createLoan] succeeds, and leaves the wallets, the
    categories and the payments exactly as they were before the loan; the
    loan row and its disbursement transaction stay, both with [deletedAt]
    set. *)
Theorem createLoan_then_deleteLoan data userId now db loanId loan db1 :
  payments_attached db →
  createLoan data userId db = (Ok (loanId, loan), db1) →
  ∃ db2 transactionId row,
    deleteLoan loanId userId now db1 = (Ok (loanId, set_deletedAt now loan), db2)
    ∧ wallets db2 = wallets db
    ∧ categories db2 = categories db
    ∧ loanPayments db2 = loanPayments db
    ∧ loans db2 = <[loanId := set_deletedAt now loan]> (loans db)
    ∧ transactions db !! transactionId = None
    ∧ t_loanId row = Some loanId
    ∧ transactions db2 = <[transactionId := softDeleted now row]> (transactions db).
Proof.
  intros Hatt Hrun. pose proof Hrun as Hfits.
  apply createLoan_Ok in Hrun
    as (w & c & n & (Hw & Hu & Harch) & _ & _ & Hfree & [= -> ->] & ->).
  apply (createLoan_fits _ _ _ _ _ w) in Hfits as (_ & Hold & Hnew); [|done].
  cbv zeta in *.
  set (loanId := fresh (dom (loans db))) in *.
  set (tid := fresh (dom (transactions db))) in *.
  set (amount := if bool_decide (ld_kind data = you_owe)
                 then ld_principal data else - ld_principal data) in *.
  set (loan := mkLoan userId (ld_kind data) (ld_counterpartyName data) (ld_principal data)
                 (ld_principal data) (ld_startDate data) (ld_dueDate data) open
                 (ld_note data) None) in *.
  set (row := mkTransaction userId _ _ _ _ _ _ _ _) in *.
  set (db1 := mkDb _ _ _ _ _).
  assert (Hbase : ∀ id t, base_transaction db1 userId loanId = Some (id, t) →
                          id = tid ∧ t = row).
  { intros id t (Hrow & _ & _ & Hloan)%base_transaction_Some. simpl in Hrow.
    apply lookup_insert_Some in Hrow as [[<- <-]|[_ Hrow]]; [done|].
    by destruct (loanId_taken_false _ _ _ _ Hfree Hrow). }
  assert (Hfound : is_Some (base_transaction db1 userId loanId)).
  { apply (findFirst_is_Some _ _ tid row); [apply lookup_insert_eq|].
    simpl. by rewrite !bool_decide_eq_true_2. }
  assert (Hgoes : ∃ r db2, deleteLoan loanId userId now db1 = (Ok r, db2)).
  { destruct Hfound as [[id t] Hb]. destruct (Hbase _ _ Hb) as [-> ->].
    eapply (deleteLoan_goes_through db1 loanId userId now loan tid row _
              (credit amount w)).
    - split_and!; [apply lookup_insert_eq | done | done].
    - intros id p Hp Hl. destruct (Hatt _ _ Hp) as [l Hrow].
      rewrite Hl in Hrow. unfold loanId in Hrow. by rewrite fresh_lookup in Hrow.
    - exact Hb.
    - reflexivity.
    - simpl. apply lookup_insert_eq.
    - split; simpl; [exact Hnew|].
      replace (w_currentBalance w + amount + reversal loan) with (w_currentBalance w);
        [exact Hold|].
      unfold reversal, amount, loan. simpl. case_bool_decide; lia. }
  destruct Hgoes as (r & db2 & Hdel).
  pose proof Hdel as Hdel'.
  apply deleteLoan_Ok in Hdel' as (loan' & (Hl' & _) & _ & -> & Hcases).
  simpl in Hl'. rewrite lookup_insert_eq in Hl'. injection Hl' as <-.
  exists db2, tid, row. rewrite Hdel.
  destruct Hcases as [(tid' & t' & e & w' & Hb & He & Hw' & ->)|[Hshape _]].
  - destruct (Hbase _ _ Hb) as [-> ->]. injection He as <-. simpl in Hw'.
    rewrite lookup_insert_eq in Hw'. injection Hw' as <-. simpl.
    split_and!; try done.
    + rewrite insert_insert_eq, credit_credit.
      replace (amount + reversal loan) with 0; [by rewrite credit_0, insert_id|].
      unfold reversal, amount, loan. simpl. case_bool_decide; lia.
    + by rewrite insert_insert_eq.
    + apply fresh_lookup.
    + by rewrite insert_insert_eq.
  - destruct Hfound as [[id t] Hb]. destruct (Hbase _ _ Hb) as [-> ->].
    exfalso. eapply Hshape; [exact Hb | reflexivity].
Qed.

End round_trip.

Lemma createLoan_then_deleteLoan_witness :
  wallets (exec (DeleteLoan "0" "u" 9)
             (exec (CreateLoan (LoanService.mkLoanData owed_to_you "Eve" 7000 "B" 5 None None)
                      "u") sample_db))
  = wallets sample_db.
Proof.
  assert (Hatt : payments_attached sample_db).
  { intros id p Hrow. vm_compute in Hrow. discriminate. }
  assert (Hrun : LoanService.createLoan
            (LoanService.mkLoanData owed_to_you "Eve" 7000 "B" 5 None None) "u" sample_db
          = (Ok ("0"%string, mkLoan "u" owed_to_you "Eve" 7000 7000 5 None open None None),
             exec (CreateLoan (LoanService.mkLoanData owed_to_you "Eve" 7000 "B" 5 None None)
                     "u") sample_db))
    by (vm_compute; reflexivity).
  destruct (createLoan_then_deleteLoan _ _ 9 _ _ _ _ Hatt Hrun)
    as (db2 & tid & row & Hdel & Hw & _).
  unfold exec at 1. simpl. rewrite Hdel. exact Hw.
Defined.

(** ** Listings *)

Lemma List_filter_sublist {A} (f : A → bool) l : List.filter f l `sublist_of` l.
Proof.
  induction l as [|x l IH]; simpl; [constructor|].
  destruct (f x); by constructor.
Qed.

Lemma StronglySorted_sublist {A} (R : relation A) l1 l2 :
  l1 `sublist_of` l2 → StronglySorted R l2 → StronglySorted R l1.
Proof.
  induction 1 as [|x l1 l2 Hsub IH|x l1 l2 Hsub IH]; intros Hs; [done| |].
  - apply StronglySorted_inv in Hs as [Hs Hall]. constructor; [by apply IH|].
    apply Forall_forall. intros y Hy.
    by apply (proj1 (Forall_forall _ _) Hall), (elem_of_sublist l1).
  - apply StronglySorted_inv in Hs as [Hs _]. by apply IH.
Qed.

Section findMany.
Context {Row : Type} (where_ : string → Row → bool).
Context (orderBy : relation (string * Row)) `{!∀ x y, Decision (orderBy x y)}.
Implicit Types tbl : gmap string Row.

Lemma matching_elem tbl id r :
  (id, r) ∈ List.filter (λ kr, where_ kr.1 kr.2) (map_to_list tbl)
  ↔ tbl !! id = Some r ∧ where_ id r = true.
Proof.
  rewrite list_elem_of_In, filter_In, <- list_elem_of_In, elem_of_map_to_list. done.
Qed.

Lemma findMany_sublist take_ skip tbl :
  findMany where_ orderBy take_ skip tbl
  `sublist_of` merge_sort orderBy
     (List.filter (λ kr, where_ kr.1 kr.2) (map_to_list tbl)).
Proof.
  unfold findMany. etrans; [apply sublist_take | apply sublist_drop].
Qed.

Lemma findMany_elem take_ skip tbl id r :
  (id, r) ∈ findMany where_ orderBy take_ skip tbl →
  tbl !! id = Some r ∧ where_ id r = true.
Proof.
  intros Hin. apply matching_elem. rewrite <- (merge_sort_Permutation orderBy).
  by eapply elem_of_sublist, findMany_sublist.
Qed.

Lemma findMany_all take_ tbl id r :
  (count_where where_ tbl ≤ take_)%nat →
  tbl !! id = Some r → where_ id r = true →
  (id, r) ∈ findMany where_ orderBy take_ 0 tbl.
Proof.
  intros Hlen Hrow Hw. unfold findMany. rewrite drop_0, take_ge.
  - rewrite merge_sort_Permutation. by apply matching_elem.
  - by rewrite merge_sort_Permutation.
Qed.

Lemma findMany_length take_ skip tbl :
  length (findMany where_ orderBy take_ skip tbl)
  = page_length take_ skip (count_where where_ tbl).
Proof.
  unfold findMany, page_length, count_where.
  by rewrite length_take, length_drop, merge_sort_Permutation.
Qed.

Lemma findMany_sorted `{!Transitive orderBy, !Total orderBy} take_ skip tbl :
  StronglySorted orderBy (findMany where_ orderBy take_ skip tbl).
Proof.
  eapply StronglySorted_sublist; [apply findMany_sublist|].
  by apply StronglySorted_merge_sort.
Qed.

Lemma findMany_NoDup take_ skip tbl :
  NoDup (findMany where_ orderBy take_ skip tbl).*1.
Proof.
  pose proof (fmap_sublist fst _ _ (findMany_sublist take_ skip tbl)) as Hpage.
  pose proof (fmap_sublist fst _ _
                (List_filter_sublist (λ kr, where_ kr.1 kr.2) (map_to_list tbl))) as Hall.
  refine (sublist_NoDup _ _ _ Hpage). rewrite merge_sort_Permutation.
  exact (sublist_NoDup _ _ (NoDup_fst_map_to_list tbl) Hall).
Qed.

End findMany.

Lemma hasMore_spec take_ skip total :
  (skip + take_ <? total)%nat = true
  ↔ (skip + page_length take_ skip total < total)%nat.
Proof. unfold page_length. rewrite Nat.ltb_lt. lia. Qed.

Lemma when_given_true {A} (o : option A) (p : A → bool) :
  when_given o p = true ↔ ∀ a, o = Some a → p a = true.
Proof. destruct o; simpl; naive_solver. Qed.

Lemma truthy_Some s s' : truthy s = Some s' ↔ s = Some s' ∧ s' ≠ EmptyString.
Proof. destruct s as [[|]|]; simpl; naive_solver. Qed.

Lemma when_truthy s (p : string → bool) :
  when_given (truthy s) p = true ↔ ∀ a, s = Some a → a ≠ EmptyString → p a = true.
Proof.
  rewrite when_given_true. split.
  - intros H a Hs Ha. by apply H, truthy_Some.
  - intros H a [Hs Ha]%truthy_Some. by apply H.
Qed.

Section listing.
Import TransactionService.

Lemma some_entry_true walletId t :
  some_entry walletId t = true ↔ ∃ e, e ∈ t_entries t ∧ e_walletId e = walletId.
Proof.
  unfold some_entry. rewrite existsb_exists. split.
  - intros (e & He & Hw). exists e. split; [by apply list_elem_of_In|].
    by apply bool_decide_eq_true in Hw.
  - intros (e & He & Hw). exists e. split; [by apply list_elem_of_In|].
    by apply bool_decide_eq_true.
Qed.

Lemma no_loanPayment db id :
  is_null (findFirst (λ _ p, bool_decide (p_transactionId p = id)) (loanPayments db)) = true
  ↔ ∀ paymentId p, loanPayments db !! paymentId = Some p → p_transactionId p ≠ id.
Proof.
  destruct (findFirst _ _) as [[k p]|] eqn:E; simpl; split; try done.
  - intros Hnone. apply findFirst_Some in E as [Hrow Hp].
    apply bool_decide_eq_true in Hp. by destruct (Hnone _ _ Hrow).
  - intros _ k p Hrow. by apply (findFirst_None _ _ _ _ E), bool_decide_eq_false in Hrow.
Qed.

Lemma date_range_true (startDate endDate : option Z) d :
  when_given
    (if negb (is_null startDate) || negb (is_null endDate)
     then Some (mkDateRange startDate endDate) else None)
    (λ r, in_range r d) = true
  ↔ (∀ from, startDate = Some from → from ≤ d) ∧ (∀ to, endDate = Some to → d ≤ to).
Proof.
  destruct startDate as [from|], endDate as [to|]; unfold in_range; simpl;
    rewrite ?andb_true_iff, ?Z.leb_le; naive_solver.
Qed.

Lemma holds_fields_true userId filters entries t :
  holds_fields
    (mkBaseWhere userId (tf_type filters)
       (if negb (is_null (tf_startDate filters)) || negb (is_null (tf_endDate filters))
        then Some (mkDateRange (tf_startDate filters) (tf_endDate filters)) else None)
       (truthy (tf_categoryId filters)) entries) t = true
  ↔ (t_userId t = userId ∧ t_deletedAt t = None
     ∧ (∀ type, tf_type filters = Some type → t_type t = type)
     ∧ (∀ d, tf_startDate filters = Some d → d ≤ t_transactionDate t)
     ∧ (∀ d, tf_endDate filters = Some d → t_transactionDate t ≤ d)
     ∧ (∀ c, tf_categoryId filters = Some c → c ≠ EmptyString → t_categoryId t = Some c))
    ∧ (∀ w, entries = Some w → ∃ e, e ∈ t_entries t ∧ e_walletId e = w).
Proof.
  unfold holds_fields. cbn [bw_userId bw_type bw_transactionDate bw_categoryId
                            bw_entries_some].
  rewrite !andb_true_iff, bool_decide_eq_true, date_range_true, when_truthy,
    !when_given_true.
  setoid_rewrite bool_decide_eq_true. setoid_rewrite some_entry_true.
  assert (is_null (t_deletedAt t) = true ↔ t_deletedAt t = None)
    by (by destruct (t_deletedAt t)).
  tauto.
Qed.

(** The object built by [getTransactions] holds of the rows that the filters
    ask for, whichever way the wallet condition was attached. *)
Lemma transactions_where_shown db userId filters id t :
  holds db (transactions_where userId (Some filters)) id t = true
  ↔ shown db userId filters id t.
Proof.
  unfold transactions_where, shown. cbv zeta. cbn [from_option Datatypes.id].
  assert (HW : (∀ w, tf_walletId filters = Some w → w ≠ EmptyString →
                     ∃ e, e ∈ t_entries t ∧ e_walletId e = w)
               ↔ ∀ w, truthy (tf_walletId filters) = Some w →
                      ∃ e, e ∈ t_entries t ∧ e_walletId e = w).
  { setoid_rewrite truthy_Some. naive_solver. }
  assert (HL : is_null (t_loanId t) = true ↔ t_loanId t = None)
    by (by destruct (t_loanId t)).
  rewrite HW. clear HW.
  destruct (tf_excludeLoanRelated filters) as [[|]|];
    destruct (truthy (tf_walletId filters)) as [walletId|]; simpl;
    rewrite ?andb_true_iff, ?orb_false_r, ?negb_true_iff, ?orb_false_iff,
      ?negb_false_iff, ?holds_fields_true, ?some_entry_true, ?no_loanPayment, ?HL.
  all: split; [intros H; split_and!; try tauto; try (intros; simplify_eq; tauto);
                 try done
              | intros (?&?&?&?&?&?&Hwal&Hex)].
  all: try (split_and!; try done; try (by apply Hex); try (by apply Hwal);
            try (intros ? [= <-]; by apply Hwal); try by intros ? [=]).
  all: try (intros _; tauto).
  all: by destruct Hex.
Qed.
End listing.


Lemma by_transactionDate_desc_trans : Transitive TransactionService.by_transactionDate_desc.
Proof. unfold TransactionService.by_transactionDate_desc. intros x y z. lia. Qed.

Lemma by_transactionDate_desc_total : Total TransactionService.by_transactionDate_desc.
Proof. unfold TransactionService.by_transactionDate_desc. intros x y. lia. Qed.

Lemma by_paymentDate_desc_trans : Transitive by_paymentDate_desc.
Proof. unfold by_paymentDate_desc. intros x y z. lia. Qed.

Lemma by_paymentDate_desc_total : Total by_paymentDate_desc.
Proof. unfold by_paymentDate_desc. intros x y. lia. Qed.

Lemma count_where_0 {Row} (where_ : string → Row → bool) (tbl : gmap string Row) :
  count_where where_ tbl = 0%nat ↔ ∀ id r, tbl !! id = Some r → where_ id r = false.
Proof.
  unfold count_where. rewrite length_zero_iff_nil. split.
  - intros Hnil id r Hrow. destruct (where_ id r) eqn:Hw; [|done].
    assert (Hin : (id, r) ∈ List.filter (λ kr, where_ kr.1 kr.2) (map_to_list tbl))
      by (by apply matching_elem).
    rewrite Hnil in Hin. by apply elem_of_nil in Hin.
  - intros Hnone. destruct (List.filter _ _) as [|[id r] l] eqn:E; [done|].
    assert (Hin : (id, r) ∈ List.filter (λ kr, where_ kr.1 kr.2) (map_to_list tbl))
      by (rewrite E; left).
    apply matching_elem in Hin as [Hrow Hw]. by rewrite (Hnone _ _ Hrow) in Hw.
Qed.

Section getTransactions.
Import TransactionService.

Lemma getTransactions_eq userId filters db :
  getTransactions userId filters db
  = (Ok (findMany (holds db (transactions_where userId filters)) by_transactionDate_desc
           (default 50%nat (filters ≫= tf_limit)) (default 0%nat (filters ≫= tf_offset))
           (transactions db),
         mkPagination
           (count_where (holds db (transactions_where userId filters)) (transactions db))
           (default 50%nat (filters ≫= tf_limit)) (default 0%nat (filters ≫= tf_offset))
           (default 0%nat (filters ≫= tf_offset) + default 50%nat (filters ≫= tf_limit)
            <? count_where (holds db (transactions_where userId filters))
                 (transactions db))%nat),
     db).
Proof. reflexivity. Qed.

(** X16: what [getTransactions] lists. Every listed row is a transaction of
    the store that belongs to the caller, is not soft-deleted and meets each
    filter that is given (an empty [categoryId] or [walletId] counts as not
    given); with [excludeLoanRelated] it has no loan and no loan payment.
    [total] is zero exactly when no transaction of the store is such a row,
    and a first page that is as long as [total] lists them all. The store is
    left as it is. *)
Theorem getTransactions_lists_what_is_asked db userId filters :
  ∃ rows pg,
    getTransactions userId (Some filters) db = (Ok (rows, pg), db)
    ∧ (∀ id t, (id, t) ∈ rows →
         transactions db !! id = Some t ∧ shown db userId filters id t)
    ∧ (total pg = 0%nat
       ↔ ∀ id t, transactions db !! id = Some t → ¬ shown db userId filters id t)
    ∧ (offset pg = 0%nat → (total pg ≤ limit pg)%nat →
       ∀ id t, transactions db !! id = Some t → shown db userId filters id t →
               (id, t) ∈ rows).
Proof.
  eexists _, _. split; [apply getTransactions_eq|]. cbn [total limit offset]. split_and!.
  - intros id t [Hrow Hw]%findMany_elem. split; [done|].
    by apply transactions_where_shown.
  - rewrite count_where_0. split.
    + intros Hnone id t Hrow Hshown%transactions_where_shown.
      by rewrite (Hnone _ _ Hrow) in Hshown.
    + intros Hnone id t Hrow. apply not_true_is_false.
      intros Hw%transactions_where_shown. by apply (Hnone id t).
  - intros -> Hlen id t Hrow Hshown. apply findMany_all; [done..|].
    by apply transactions_where_shown.
Qed.

(** X17: the page of [getTransactions]. The rows are [limit] many, or what
    is left of [total] after [offset] when that is less; no transaction
    comes twice; each row is dated no earlier than the rows after it;
    [hasMore] tells whether rows are left after the page. *)
Theorem getTransactions_page db userId filters :
  ∃ rows pg,
    getTransactions userId filters db = (Ok (rows, pg), db)
    ∧ length rows = (limit pg `min` (total pg - offset pg))%nat
    ∧ NoDup rows.*1
    ∧ StronglySorted (λ x y, t_transactionDate y.2 ≤ t_transactionDate x.2) rows
    ∧ (hasMore pg = true ↔ (offset pg + length rows < total pg)%nat).
Proof.
  eexists _, _. split; [apply getTransactions_eq|]. cbn [total limit offset hasMore].
  split_and!.
  - apply findMany_length.
  - apply findMany_NoDup.
  - apply (findMany_sorted _ by_transactionDate_desc
             (Transitive0 := by_transactionDate_desc_trans)
             (Total0 := by_transactionDate_desc_total)).
  - rewrite findMany_length. apply hasMore_spec.
Qed.

End getTransactions.

(** ** New transactions in the listing *)

Lemma shown_no_filters db userId id t :
  shown db userId no_filters id t ↔ t_userId t = userId ∧ t_deletedAt t = None.
Proof. unfold shown, no_filters. simpl. naive_solver. Qed.

Lemma shown_excluding_loans db userId id t :
  shown db userId excluding_loans id t
  ↔ t_userId t = userId ∧ t_deletedAt t = None ∧ t_loanId t = None
    ∧ ∀ paymentId p, loanPayments db !! paymentId = Some p → p_transactionId p ≠ id.
Proof. unfold shown, excluding_loans. simpl. naive_solver. Qed.

Section new_transactions.
Import TransactionService LoanService.

Lemma getTransactions_first_page db userId filters :
  tf_limit filters = None → tf_offset filters = None →
  ∃ rows pg,
    getTransactions userId (Some filters) db = (Ok (rows, pg), db)
    ∧ (∀ id t, (id, t) ∈ rows →
         transactions db !! id = Some t ∧ shown db userId filters id t)
    ∧ (∀ id t, (total pg ≤ 50)%nat → transactions db !! id = Some t →
               shown db userId filters id t → (id, t) ∈ rows).
Proof.
  intros Hlimit Hoffset. eexists _, _. split; [apply getTransactions_eq|].
  cbn [total mbind option_bind]. rewrite Hlimit, Hoffset. cbn [default from_option Datatypes.id].
  split.
  - intros id t [Hrow Hw]%findMany_elem. split; [done|].
    by apply transactions_where_shown.
  - intros id t Hlen Hrow Hshown. apply findMany_all; [done..|].
    by apply transactions_where_shown.
Qed.

(** What the three creating calls add to the table, for the listing. *)
Lemma new_transaction_row op db :
  adds_transaction op = true → (run op db).1 = None → payments_refer db →
  ∃ t, transactions (exec op db) !! fresh (dom (transactions db)) = Some t
       ∧ t_userId t = op_user op ∧ t_deletedAt t = None
       ∧ (plain_transaction op = true ↔
          t_loanId t = None
          ∧ ∀ paymentId p, loanPayments (exec op db) !! paymentId = Some p →
                           p_transactionId p ≠ fresh (dom (transactions db))).
Proof.
  intros Hadds Hok Hrefer. unfold exec.
  assert (Hold : ∀ paymentId p, loanPayments db !! paymentId = Some p →
                                p_transactionId p ≠ fresh (dom (transactions db))).
  { intros k p Hp Heq. destruct (Hrefer _ _ Hp) as [t Ht].
    by rewrite Heq, fresh_lookup in Ht. }
  destruct (run op db) as [[e|] db'] eqn:Hrun; [done|]. simpl.
  destruct op as [data userId|data userId|data userId|]; [| | |done];
    simpl in Hrun; apply outcome_None in Hrun as [r Hrun]; simpl.
  - destruct data as [d|d|d|ty]; simpl in Hrun.
    + apply createIncomeTransaction_Ok in Hrun as (w & _ & _ & ->). simpl.
      rewrite lookup_insert_eq. eexists. split; [done|]. simpl. naive_solver.
    + apply createExpenseTransaction_Ok in Hrun as (w & _ & _ & _ & ->). simpl.
      rewrite lookup_insert_eq. eexists. split; [done|]. simpl. naive_solver.
    + apply createTransferTransaction_Ok in Hrun as (wf & wt & _ & _ & _ & _ & _ & ->).
      simpl. rewrite lookup_insert_eq. eexists. split; [done|]. simpl. naive_solver.
    + done.
  - apply createLoan_Ok in Hrun as (w & c & n & _ & _ & _ & _ & _ & ->). simpl.
    rewrite lookup_insert_eq. eexists. split; [done|]. simpl. naive_solver.
  - apply createLoanPayment_Ok in Hrun as (loan & w & c & n & _ & _ & _ & _ & _ & _ & ->).
    simpl. rewrite lookup_insert_eq. eexists. split; [done|]. simpl.
    split_and!; try done. split; [done|]. intros [_ Hnone].
    exfalso. eapply Hnone; [apply lookup_insert_eq | done].
Qed.

(** X18: a new transaction in the listing. After a successful
    [createTransaction], [createLoan] or [createLoanPayment], in a store
    whose payments refer to transactions of the store, the transaction that
    the call has added is a row of the caller's unfiltered first page
    whenever that page holds the whole listing; with [excludeLoanRelated] it
    is never listed when it comes from [createLoan] or [createLoanPayment],
    and is listed like before when it comes from [createTransaction]. *)
Theorem new_transaction_is_listed op db :
  adds_transaction op = true → (run op db).1 = None → payments_refer db →
  ∃ t rows pg rows' pg',
    transactions (exec op db) !! fresh (dom (transactions db)) = Some t
    ∧ getTransactions (op_user op) None (exec op db) = (Ok (rows, pg), exec op db)
    ∧ ((total pg ≤ 50)%nat → (fresh (dom (transactions db)), t) ∈ rows)
    ∧ getTransactions (op_user op) (Some excluding_loans) (exec op db)
      = (Ok (rows', pg'), exec op db)
    ∧ (plain_transaction op = false → fresh (dom (transactions db)) ∉ rows'.*1)
    ∧ (plain_transaction op = true → (total pg' ≤ 50)%nat →
       (fresh (dom (transactions db)), t) ∈ rows').
Proof.
  intros Hadds Hok Hrefer.
  destruct (new_transaction_row op db Hadds Hok Hrefer) as (t & Hrow & Hu & Hd & Hplain).
  destruct (getTransactions_first_page (exec op db) (op_user op) no_filters eq_refl eq_refl)
    as (rows & pg & Hget & _ & Hall).
  destruct (getTransactions_first_page (exec op db) (op_user op) excluding_loans
              eq_refl eq_refl) as (rows' & pg' & Hget' & Hsound' & Hall').
  exists t, rows, pg, rows', pg'. split_and!; [done | exact Hget | | done | |].
  - intros Hlen. apply Hall; [done..|]. by apply shown_no_filters.
  - intros Hloan [[id t'] [Hid Hin]]%list_elem_of_fmap. simpl in Hid. subst id.
    apply Hsound' in Hin as [Hrow' (_ & _ & Hl & Hp)%shown_excluding_loans].
    assert (t' = t) as -> by congruence.
    destruct Hplain as [_ Hplain]. rewrite Hplain in Hloan; [done|]. by split.
  - intros Hp Hlen. apply Hall'; [done..|]. apply shown_excluding_loans.
    destruct Hplain as [Hplain _]. destruct (Hplain Hp). by split_and!.
Qed.

End new_transactions.

Lemma new_transaction_is_listed_witness :
  ∃ t rows pg rows' pg',
    transactions (exec owing_payment owing_db) !! fresh (dom (transactions owing_db))
    = Some t
    ∧ TransactionService.getTransactions (op_user owing_payment) None
        (exec owing_payment owing_db)
      = (Ok (rows, pg), exec owing_payment owing_db)
    ∧ ((total pg ≤ 50)%nat → (fresh (dom (transactions owing_db)), t) ∈ rows)
    ∧ TransactionService.getTransactions (op_user owing_payment) (Some excluding_loans)
        (exec owing_payment owing_db)
      = (Ok (rows', pg'), exec owing_payment owing_db)
    ∧ (plain_transaction owing_payment = false →
       fresh (dom (transactions owing_db)) ∉ rows'.*1)
    ∧ (plain_transaction owing_payment = true → (total pg' ≤ 50)%nat →
       (fresh (dom (transactions owing_db)), t) ∈ rows').
Proof.
  apply new_transaction_is_listed.
  - reflexivity.
  - vm_compute. reflexivity.
  - apply (bool_decide_unpack (payments_refer owing_db)). vm_compute. exact I.
Defined.

(** ** Listings of loans *)

Lemma StronglySorted_fmap_impl {A B} (R : relation A) (R' : relation B) (f : A → B) l :
  (∀ x y, R x y → R' (f x) (f y)) →
  StronglySorted R l → StronglySorted R' (f <$> l).
Proof.
  intros Himpl. induction 1 as [|x l Hs IH Hall]; simpl; constructor; [done|].
  apply Forall_fmap. eapply Forall_impl; [exact Hall|]. intros y. apply Himpl.
Qed.

Section getLoans.
Import LoanService.

Lemma null_first_lt_spec a b :
  null_first_lt a b = true
  ↔ match a, b with
    | None, Some _ => True
    | Some a, Some b => a < b
    | _, None => False
    end.
Proof. destruct a, b; simpl; rewrite ?Z.ltb_lt; naive_solver. Qed.

Lemma loans_order_trans createdAt : Transitive (loans_order createdAt).
Proof.
  unfold loans_order. intros [i x] [j y] [k z]. simpl.
  rewrite !null_first_lt_spec.
  destruct (l_status x), (l_status y), (l_status z); simpl;
    destruct (l_dueDate x), (l_dueDate y), (l_dueDate z); simpl;
    intros H1 H2; try lia;
    repeat match goal with
           | H : _ ∨ _ |- _ => destruct H
           | H : _ ∧ _ |- _ => destruct H
           end; simplify_eq; try lia; try done.
  all: right; split; [done|]; first [left; lia | right; split; [done | lia]].
Qed.

Lemma loans_order_total createdAt : Total (loans_order createdAt).
Proof.
  unfold loans_order. intros [i x] [j y]. simpl.
  rewrite !null_first_lt_spec.
  destruct (l_status x), (l_status y); simpl; try (left; left; lia); try (right; left; lia).
  all: destruct (l_dueDate x) as [a|], (l_dueDate y) as [b|]; simpl.
  all: try (left; right; split; [done|]; by left).
  all: try (right; right; split; [done|]; by left).
  all: try (destruct (Z.lt_trichotomy a b) as [?|[->|?]];
            [ left; right; split; [done|]; by left
            | | right; right; split; [done|]; by left ]).
  all: destruct (Z.le_ge_cases (createdAt j) (createdAt i));
    [left | right]; right; split; try done; by right.
Qed.

Lemma loans_holds_true userId filters l :
  loans_holds (loans_where userId filters) l = true
  ↔ l_userId l = userId ∧ l_deletedAt l = None
    ∧ (∀ kind, lq_kind filters = Some kind → l_kind l = kind)
    ∧ (∀ status, lq_status filters = Some status → l_status l = status)
    ∧ (∀ d, lq_startDate filters = Some (Some d) → d ≤ l_startDate l)
    ∧ (∀ d, lq_endDate filters = Some (Some d) → l_startDate l ≤ d).
Proof.
  unfold loans_holds, loans_where. simpl.
  rewrite !andb_true_iff, bool_decide_eq_true, !when_given_true.
  setoid_rewrite bool_decide_eq_true.
  assert (is_null (l_deletedAt l) = true ↔ l_deletedAt l = None)
    by (by destruct (l_deletedAt l)).
  assert ((∀ r, (if negb (is_null (lq_startDate filters))
                    || negb (is_null (lq_endDate filters))
                 then Some (mkDateRange (mjoin (lq_startDate filters))
                                        (mjoin (lq_endDate filters)))
                 else None) = Some r → in_range r (l_startDate l) = true)
          ↔ (∀ d, lq_startDate filters = Some (Some d) → d ≤ l_startDate l)
            ∧ (∀ d, lq_endDate filters = Some (Some d) → l_startDate l ≤ d)) as Hdate.
  { destruct (lq_startDate filters) as [[from|]|], (lq_endDate filters) as [[to|]|];
      simpl; unfold in_range; simpl; split.
    all: try (intros Hr; specialize (Hr _ eq_refl); simpl in Hr;
              rewrite ?andb_true_iff, ?Z.leb_le in Hr; naive_solver).
    all: try (intros [H1 H2] r [= <-]; simpl; rewrite ?andb_true_iff, ?Z.leb_le;
              naive_solver).
    all: naive_solver. }
  tauto.
Qed.

Lemma recent_payments_spec db loanId :
  (length (recent_payments db loanId) ≤ 3)%nat
  ∧ (∀ id p, (id, p) ∈ recent_payments db loanId →
             loanPayments db !! id = Some p ∧ p_loanId p = loanId)
  ∧ StronglySorted by_paymentDate_desc (recent_payments db loanId).
Proof.
  unfold recent_payments. split_and!.
  - rewrite length_take. lia.
  - intros id p Hin. eapply elem_of_sublist in Hin; [|apply sublist_take].
    rewrite merge_sort_Permutation in Hin. unfold payments_of in Hin.
    apply list_elem_of_In, filter_In in Hin as [Hin Hl].
    apply list_elem_of_In, elem_of_map_to_list in Hin.
    by apply bool_decide_eq_true in Hl.
  - eapply StronglySorted_sublist; [apply sublist_take|].
    apply (StronglySorted_merge_sort _ (Transitive0 := by_paymentDate_desc_trans)
             (Total0 := by_paymentDate_desc_total)).
Qed.

Lemma getLoans_eq createdAt userId filters db :
  let limit := Z.to_nat (Z.min 100 (Z.max 1 (number_or (lq_limit filters) 50))) in
  let offset := Z.to_nat (Z.max 0 (number_or (lq_offset filters) 0)) in
  let where_ := loans_where userId filters in
  getLoans createdAt userId filters db
  = (Ok ((λ kl, (kl, recent_payments db kl.1)) <$>
           findMany (λ _, loans_holds where_) (loans_order createdAt) limit offset
             (loans db),
         mkPagination (count_where (λ _, loans_holds where_) (loans db)) limit offset
           (offset + limit <? count_where (λ _, loans_holds where_) (loans db))%nat),
     db).
Proof. reflexivity. Qed.

(** X19: the page of [getLoans]. Whatever [limit] is asked for, between 1
    and 100 loans are taken. Every listed loan is a loan of the store that
    belongs to the caller, is not soft-deleted and meets the filters that
    are given (a date that does not parse sets no bound); it comes with at
    most three of its own payments, most recent first. Open loans come
    before closed ones. *)
Theorem getLoans_page createdAt db userId filters :
  ∃ rows pg,
    getLoans createdAt userId filters db = (Ok (rows, pg), db)
    ∧ (1 ≤ limit pg ≤ 100)%nat
    ∧ length rows = (limit pg `min` (total pg - offset pg))%nat
    ∧ (∀ id loan payments, (id, loan, payments) ∈ rows →
         loans db !! id = Some loan
         ∧ l_userId loan = userId ∧ l_deletedAt loan = None
         ∧ (∀ kind, lq_kind filters = Some kind → l_kind loan = kind)
         ∧ (∀ status, lq_status filters = Some status → l_status loan = status)
         ∧ (∀ d, lq_startDate filters = Some (Some d) → d ≤ l_startDate loan)
         ∧ (∀ d, lq_endDate filters = Some (Some d) → l_startDate loan ≤ d)
         ∧ (length payments ≤ 3)%nat
         ∧ (∀ paymentId p, (paymentId, p) ∈ payments →
              loanPayments db !! paymentId = Some p ∧ p_loanId p = id)
         ∧ StronglySorted (λ x y, p_paymentDate y.2 ≤ p_paymentDate x.2) payments)
    ∧ StronglySorted (λ x y, l_status x.1.2 = closed → l_status y.1.2 = closed) rows.
Proof.
  eexists _, _. split; [apply getLoans_eq|]. cbn [total limit offset]. split_and!.
  - lia.
  - lia.
  - rewrite length_fmap. apply findMany_length.
  - intros id loan payments [[id' loan'] [[= -> -> ->] Hin]]%list_elem_of_fmap.
    apply findMany_elem in Hin as [Hrow Hw]. apply loans_holds_true in Hw.
    destruct (recent_payments_spec db id') as (? & ? & ?). simpl in *.
    split_and!; try done; tauto.
  - eapply StronglySorted_fmap_impl;
      [|apply (findMany_sorted _ (loans_order createdAt)
                 (Transitive0 := loans_order_trans createdAt)
                 (Total0 := loans_order_total createdAt))].
    intros [i x] [j y]. unfold loans_order. simpl. intros Hle Hx. rewrite Hx in Hle.
    destruct (l_status y); [|done]. simpl in Hle.
    destruct Hle as [?|[? _]]; [lia | done].
Qed.

End getLoans.

(** ** A deleted loan in the listings *)

Section deleted_loan.
Import TransactionService LoanService.

Lemma transactions_where_live db userId filters id t :
  holds db (transactions_where userId filters) id t = true →
  t_userId t = userId ∧ t_deletedAt t = None.
Proof.
  destruct filters as [filters|].
  - by intros (? & ? & _)%transactions_where_shown.
  - change (transactions_where userId None)
      with (transactions_where userId (Some no_filters)).
    by intros (? & ? & _)%transactions_where_shown.
Qed.

(** X20: a deleted loan is shown to nobody. After a successful [deleteLoan],
    and whatever calls follow, [getLoanById] returns [null] for that loan,
    [getLoans] does not list it, and [getTransactions] does not list its
    disbursement, for every caller and every filter. *)
Theorem deleted_loan_is_not_shown loanId userId now db r db' ops :
  deleteLoan loanId userId now db = (Ok r, db') →
  (∀ u, getLoanById loanId u (exec_all ops db') = (Ok None, exec_all ops db'))
  ∧ (∀ createdAt u filters, ∃ rows pg,
       getLoans createdAt u filters (exec_all ops db')
       = (Ok (rows, pg), exec_all ops db')
       ∧ loanId ∉ rows.*1.*1)
  ∧ (∀ transactionId t entry,
       base_transaction db userId loanId = Some (transactionId, t) →
       t_entries t = [entry] →
       ∀ u filters, ∃ rows pg,
         getTransactions u filters (exec_all ops db')
         = (Ok (rows, pg), exec_all ops db')
         ∧ transactionId ∉ rows.*1).
Proof.
  intros Hrun.
  apply deleteLoan_Ok in Hrun as (loan & (Hl & _) & _ & _ & Hcases).
  assert (Hdel : loans db' !! loanId = Some (set_deletedAt now loan)).
  { destruct Hcases as [(tid & t & e & w & _ & _ & _ & ->)|[_ ->]]; simpl;
      apply lookup_insert_eq. }
  destruct (exec_all_evolves ops db') as (_ & _ & _ & Htxs & Hloans & _).
  destruct (Hloans _ _ Hdel) as (loan' & Hrow' & _ & Hfrozen & _).
  rewrite (Hfrozen ltac:(done)) in Hrow'. clear Hfrozen.
  split_and!.
  - intros u. unfold getLoanById, bind, loan_findFirst, reads, findById.
    rewrite Hrow'. simpl. by rewrite andb_false_r.
  - intros createdAt u filters. eexists _, _. split; [apply getLoans_eq|].
    intros [[id l] [Hid Hin]]%list_elem_of_fmap. simpl in Hid. subst id.
    apply list_elem_of_fmap in Hin as [[[id1 l1] ps] [[= <- <-] Hin]].
    apply list_elem_of_fmap in Hin as [[id2 l2] [[= <- <- _] Hin]].
    apply findMany_elem in Hin as [Hrow (_ & Hlive & _)%loans_holds_true].
    rewrite Hrow' in Hrow. by injection Hrow as <-.
  - intros tid t e Hbase He u filters. eexists _, _.
    split; [apply getTransactions_eq|].
    intros [[id x] [Hid Hin]]%list_elem_of_fmap. simpl in Hid. subst id.
    apply findMany_elem in Hin as [Hrow [_ Hlive]%transactions_where_live].
    destruct Hcases as [(tid' & t' & e' & w & Hbase' & _ & _ & ->)|[Hshape _]];
      [|by destruct (Hshape _ _ e Hbase)].
    rewrite Hbase in Hbase'. injection Hbase' as <- <-.
    destruct (Htxs tid (softDeleted now t)) as (t'' & Hrow'' & Hev);
      [apply lookup_insert_eq|].
    rewrite Hrow in Hrow''. injection Hrow'' as <-.
    destruct Hev as [->|(Hnone & _)]; [|done]. done.
Qed.

End deleted_loan.

Lemma deleted_loan_is_not_shown_witness :
  LoanService.getLoanById "L" "u" (exec_all sample_ops (exec (DeleteLoan "L" "u" 9) legacy_db))
  = (Ok None, exec_all sample_ops (exec (DeleteLoan "L" "u" 9) legacy_db)).
Proof.
  assert (Hrun : LoanService.deleteLoan "L" "u" 9 legacy_db
                 = (Ok ("L"%string,
                        mkLoan "u" you_owe "Bob" 50000 50000 0 None open None (Some 9)),
                    exec (DeleteLoan "L" "u" 9) legacy_db))
    by (vm_compute; reflexivity).
  exact (proj1 (deleted_loan_is_not_shown _ _ _ _ _ _ sample_ops Hrun) "u"%string).
Defined.

(** ** Payments listed and payments counted *)

Lemma sum_amounts_perm l l' : l ≡ₚ l' → sum_amounts l = sum_amounts l'.
Proof. unfold sum_amounts. induction 1; simpl; lia. Qed.

Lemma paid_payments_of loanId tbl : paid loanId tbl = sum_amounts (payments_of loanId tbl).
Proof.
  unfold paid, table_sum, payments_of, sum_amounts. rewrite map_fold_foldr.
  induction (map_to_list tbl) as [|[id p] l IH]; simpl; [done|].
  rewrite IH. by case_bool_decide.
Qed.

Lemma exec_all_payments_linked ops db :
  payments_linked db → payments_linked (exec_all ops db).
Proof.
  revert db. induction ops as [|op ops IH]; intros db Hlinked; [done|].
  simpl. by apply IH, exec_payments_linked.
Qed.

Section getLoanPayments.
Import LoanService.

Lemma getLoanPayments_eq userId filters db :
  let where_ := λ _ : string, payments_holds userId (truthy (pq_loanId filters)) in
  getLoanPayments userId filters db
  = (Ok (findMany where_ by_paymentDate_desc (default 50%nat (pq_limit filters))
           (default 0%nat (pq_offset filters)) (loanPayments db),
         mkPagination (count_where where_ (loanPayments db))
           (default 50%nat (pq_limit filters)) (default 0%nat (pq_offset filters))
           (default 0%nat (pq_offset filters) + default 50%nat (pq_limit filters)
            <? count_where where_ (loanPayments db))%nat),
     db).
Proof. reflexivity. Qed.

(** X21: the payments that [getLoanPayments] lists for a loan account for its
    outstanding amount. In a store where the loans are consistent with their
    payments and every payment is tied to its loan and transaction, the rows
    listed for a loan of the caller are payments of the caller on that loan,
    most recent first, and when the first page holds them all, the
    outstanding amount of the loan is its principal less their amounts, and
    zero when they exceed it. *)
Theorem getLoanPayments_account_for_outstanding db userId loanId loan filters :
  pq_loanId filters = Some loanId → loanId ≠ EmptyString →
  loans_ok db → payments_linked db →
  loans db !! loanId = Some loan → l_userId loan = userId →
  ∃ rows pg,
    getLoanPayments userId filters db = (Ok (rows, pg), db)
    ∧ (∀ id p, (id, p) ∈ rows →
         loanPayments db !! id = Some p ∧ p_userId p = userId ∧ p_loanId p = loanId)
    ∧ StronglySorted (λ x y, p_paymentDate y.2 ≤ p_paymentDate x.2) rows
    ∧ (offset pg = 0%nat → (total pg ≤ limit pg)%nat →
       l_outstandingAmount loan = Z.max 0 (l_principal loan - sum_amounts rows)).
Proof.
  intros Hfilter Hid [Hloans _] [Hlinked _] Hloan Huser.
  assert (Htruthy : truthy (pq_loanId filters) = Some loanId)
    by (by apply truthy_Some).
  eexists _, _. split; [apply getLoanPayments_eq|]. cbv zeta. rewrite Htruthy.
  cbn [total limit offset]. split_and!.
  - intros id p [Hrow Hw]%findMany_elem. unfold payments_holds in Hw. simpl in Hw.
    apply andb_true_iff in Hw as [Hu Hl]. apply bool_decide_eq_true in Hu, Hl. done.
  - apply (findMany_sorted _ by_paymentDate_desc
             (Transitive0 := by_paymentDate_desc_trans)
             (Total0 := by_paymentDate_desc_total)).
  - intros -> Hlen. destruct (Hloans _ _ Hloan) as [-> _]. do 2 f_equal.
    rewrite paid_payments_of. unfold findMany. rewrite drop_0, take_ge.
    + rewrite (sum_amounts_perm _ _ (merge_sort_Permutation _ _)).
      unfold payments_of. f_equal. apply filter_ext_in. intros [id p] Hin. simpl.
      apply list_elem_of_In, elem_of_map_to_list in Hin.
      unfold payments_holds. simpl. case_bool_decide as Hl; [|by rewrite andb_false_r].
      rewrite andb_true_r. symmetry. apply bool_decide_eq_true.
      destruct (Hlinked _ _ Hin) as (t & loan' & _ & Hrow & Hown & _).
      rewrite Hl, Hloan in Hrow. injection Hrow as <-. congruence.
    + by rewrite merge_sort_Permutation.
Qed.

End getLoanPayments.

Lemma getLoanPayments_account_for_outstanding_witness :
  ∃ rows pg,
    LoanService.getLoanPayments "u" (LoanService.mkGetLoanPaymentsQuery (Some "0"%string) None None)
      repaid_db
    = (Ok (rows, pg), repaid_db)
    ∧ (∀ id p, (id, p) ∈ rows →
         loanPayments repaid_db !! id = Some p
         ∧ p_userId p = "u"%string ∧ p_loanId p = "0"%string)
    ∧ StronglySorted (λ x y, p_paymentDate y.2 ≤ p_paymentDate x.2) rows
    ∧ (offset pg = 0%nat → (total pg ≤ limit pg)%nat →
       l_outstandingAmount (mkLoan "u" you_owe "Bob" 50000 0 3 None closed None None)
       = Z.max 0 (l_principal (mkLoan "u" you_owe "Bob" 50000 0 3 None closed None None)
                  - sum_amounts rows)).
Proof.
  assert (Hok : loans_ok sample_db)
    by (apply (bool_decide_unpack (loans_ok sample_db)); vm_compute; exact I).
  assert (Hsmall : outstanding_small sample_db)
    by (apply (bool_decide_unpack (outstanding_small sample_db)); vm_compute; exact I).
  assert (Hpos : forallb amounts_ok sample_ops = true) by (vm_compute; reflexivity).
  assert (Hrow : loans repaid_db !! "0"%string
                 = Some (mkLoan "u" you_owe "Bob" 50000 0 3 None closed None None))
    by (vm_compute; reflexivity).
  exact (getLoanPayments_account_for_outstanding repaid_db "u" "0" _
           (LoanService.mkGetLoanPaymentsQuery (Some "0"%string) None None)
           eq_refl ltac:(discriminate)
           (proj1 (exec_all_loans_ok sample_ops sample_db Hpos Hok Hsmall))
           (exec_all_payments_linked sample_ops sample_db
              (no_payments_linked sample_db eq_refl))
           Hrow eq_refl).
Defined.

(** ** The answers of the controller *)

Section controller.
Import TransactionService.


End controller.

Section controller_answers.
Import TransactionService TransactionController.


End controller_answers.


(** ** Archived wallets *)

Section archived.
Import TransactionService LoanService.

Lemma archived_insert db walletId userId w0 amount id w :
  owned_wallet db walletId userId w0 →
  wallets db !! id = Some w → w_isArchived w = true →
  <[walletId := credit amount w0]> (wallets db) !! id = Some w.
Proof.
  intros (Hw0 & _ & Hlive) Hw Harch. rewrite lookup_insert_ne; [done|].
  intros <-. congruence.
Qed.

Lemma exec_archived op db id w :
  adds_transaction op = true →
  wallets db !! id = Some w → w_isArchived w = true →
  wallets (exec op db) !! id = Some w.
Proof.
  intros Hop Hw Harch. unfold exec.
  destruct (run op db) as [[e|] db'] eqn:Hrun.
  - pose proof (run_error_inv op db e) as Hsame.
    rewrite Hrun in Hsame. simpl in *. by rewrite Hsame.
  - simpl. destruct op as [data userId|data userId|data userId|]; [| | |done];
      simpl in Hrun; apply outcome_None in Hrun as [r Hrun].
    + destruct data as [d|d|d|ty]; simpl in Hrun.
      * apply createIncomeTransaction_Ok in Hrun as (w0 & Hw0 & _ & ->).
        by eapply archived_insert.
      * apply createExpenseTransaction_Ok in Hrun as (w0 & Hw0 & _ & _ & ->).
        by eapply archived_insert.
      * apply createTransferTransaction_Ok in Hrun
          as (wf & wt & Hne & Hf & (Ht & _ & Hlive) & _ & _ & ->). simpl.
        rewrite lookup_insert_ne by (intros <-; congruence).
        by eapply archived_insert.
      * done.
    + apply createLoan_Ok in Hrun as (w0 & c & n & Hw0 & _ & _ & _ & _ & ->).
      by eapply archived_insert.
    + apply createLoanPayment_Ok in Hrun
        as (loan & w0 & c & n & _ & _ & _ & Hw0 & _ & _ & ->).
      by eapply archived_insert.
Qed.

End archived.

(** X23: an archived wallet is left alone by [createTransaction],
    [createLoan] and [createLoanPayment]: after any sequence of such calls,
    successful or not, it is the row that it was. [deleteLoan] is left out,
    as it credits the wallet of the disbursement without looking at the
    flag. *)
Theorem archived_wallets_are_left_alone db ops id w :
  forallb adds_transaction ops = true →
  wallets db !! id = Some w → w_isArchived w = true →
  wallets (exec_all ops db) !! id = Some w.
Proof.
  revert db. induction ops as [|op ops IH]; intros db Hops Hw Harch; [done|].
  simpl in Hops. apply andb_true_iff in Hops as [Hop Hops].
  simpl. apply IH; [done | | done]. by apply exec_archived.
Qed.

Lemma archived_wallets_are_left_alone_witness :
  wallets (exec_all archive_ops archive_db) !! "Z"%string
  = Some (mkWallet "u" true 5000 5000).
Proof.
  apply archived_wallets_are_left_alone.
  - reflexivity.
  - vm_compute. reflexivity.
  - reflexivity.
Defined.

(** ** Shape of the transactions *)

Section wellformed.
Import TransactionService LoanService.

Lemma default_category_matches db userId type name categoryId t :
  categoryId_of (default_category db userId type name) = Some categoryId →
  t_categoryId t = Some categoryId → t_userId t = userId → t_type t = type →
  type ≠ transfer → category_matches db t.
Proof.
  unfold category_matches, default_category. intros Hfound -> <- <- Hnot.
  destruct (findFirst _ _) as [[id c]|] eqn:E; [|done]. injection Hfound as ->.
  apply findFirst_Some in E as [Hrow Hw].
  rewrite !andb_true_iff, !bool_decide_eq_true in Hw.
  split; [done|]. exists c. tauto.
Qed.

Lemma createLoanPayment_category data userId db r db' :
  createLoanPayment data userId db = (Ok r, db') →
  ∃ t, transactions db' !! fresh (dom (transactions db)) = Some t
       ∧ category_matches db t.
Proof.
  intros H. prisma_inv H; prisma_facts.
  all: rewrite lookup_insert_eq; eexists; split; [done|].
  all: unfold category_matches; simpl.
  all: match goal with
       | |- context [categoryId_of ?c] => destruct c as [[id c']|] eqn:Hc; simpl; [|done]
       end.
  all: apply findFirst_Some in Hc as [Hrow Hw].
  all: rewrite !andb_true_iff, !bool_decide_eq_true in Hw.
  all: split; [done|]; exists c'; tauto.
Qed.

Lemma wellformed_insert db (tbl : gmap string Transaction) id t (db' : Db) :
  categories db' = categories db →
  map_Forall (λ _ t, entries_match t ∧ category_matches db t) tbl →
  entries_match t → category_matches db t →
  map_Forall (λ _ t, entries_match t ∧ category_matches db' t) (<[id := t]> tbl).
Proof.
  intros Hcat Hall He Hc.
  assert (∀ t, category_matches db' t ↔ category_matches db t) as Hiff
    by (intros ?; unfold category_matches; by rewrite Hcat).
  apply map_Forall_insert_2; [by rewrite Hiff|].
  intros k x Hx. rewrite Hiff. exact (Hall k x Hx).
Qed.

Lemma exec_wellformed op db : transactions_wellformed db → transactions_wellformed (exec op db).
Proof.
  intros Hall. unfold exec, transactions_wellformed in *.
  destruct (run op db) as [[e|] db'] eqn:Hrun.
  - pose proof (run_error_inv op db e) as Hsame.
    rewrite Hrun in Hsame. simpl in *. by rewrite Hsame.
  - simpl. destruct op as [data userId|data userId|data userId|loanId userId now];
      simpl in Hrun; apply outcome_None in Hrun as [r Hrun].
    + destruct data as [d|d|d|ty]; simpl in Hrun.
      * destruct (createIncomeTransaction_category _ _ _ _ _ Hrun) as (c & [Hc Hu] & Hty).
        apply createIncomeTransaction_Ok in Hrun as (w0 & _ & _ & ->).
        apply (wellformed_insert db); [done | done | by eexists |].
        unfold category_matches. simpl. split; [done|]. by exists c.
      * destruct (createExpenseTransaction_category _ _ _ _ _ Hrun)
          as (c & [Hc Hu] & Hty).
        apply createExpenseTransaction_Ok in Hrun as (w0 & _ & _ & _ & ->).
        apply (wellformed_insert db); [done | done | by eexists |].
        unfold category_matches. simpl. split; [done|]. by exists c.
      * apply createTransferTransaction_Ok in Hrun
          as (wf & wt & Hne & _ & _ & _ & _ & ->).
        apply (wellformed_insert db); [done | done | by eexists _, _ | done].
      * done.
    + apply createLoan_Ok in Hrun as (w0 & c & n & _ & _ & Hc & _ & _ & ->). cbv zeta in Hc.
      apply (wellformed_insert db); [done | done | |].
      * unfold entries_match. simpl. case_bool_decide; by eexists.
      * destruct c as [c|]; [|done].
        eapply default_category_matches; [by rewrite <- Hc | done | done | done |].
        by case_bool_decide.
    + destruct (createLoanPayment_category _ _ _ _ _ Hrun) as (t & Hrow & Hc).
      apply createLoanPayment_Ok in Hrun
        as (loan & w0 & c & n & _ & _ & _ & _ & _ & _ & ->).
      simpl in Hrow. rewrite lookup_insert_eq in Hrow. injection Hrow as <-.
      apply (wellformed_insert db); [done | done | | done].
      unfold entries_match. simpl. case_bool_decide; by eexists.
    + apply deleteLoan_Ok in Hrun as (loan & _ & _ & _ & Hcases).
      destruct Hcases as [(tid & t & e & w & Hbase & _ & _ & ->)|[_ ->]]; [|done].
      apply base_transaction_Some in Hbase as (Hrow & _).
      destruct (Hall _ _ Hrow) as [He Hc].
      by apply (wellformed_insert db).
Qed.

End wellformed.

(** X24: the transactions keep their shape. In a store whose transactions
    have the entries that their type asks for (one [in] entry for an income,
    one [out] entry for an expense, an [out] and an [in] entry on two
    different wallets for a transfer, each of the amount of the transaction)
    and a category, if any, that belongs to their owner and has their type,
    the transactions have them after any sequence of calls. *)
Theorem transactions_stay_wellformed db ops :
  transactions_wellformed db →
  ∀ id t, transactions (exec_all ops db) !! id = Some t →
          entries_match t ∧ category_matches (exec_all ops db) t.
Proof.
  intros Hall.
  enough (transactions_wellformed (exec_all ops db)) as Hfinal by exact Hfinal.
  revert db Hall. induction ops as [|op ops IH]; intros db Hall; [done|].
  simpl. by apply IH, exec_wellformed.
Qed.

Lemma transactions_stay_wellformed_witness :
  entries_match (mkTransaction "u" transfer 2 None 20000 None None None
                   [mkEntry "A" dir_out 20000; mkEntry "B" dir_in 20000])
  ∧ category_matches repaid_db
      (mkTransaction "u" transfer 2 None 20000 None None None
         [mkEntry "A" dir_out 20000; mkEntry "B" dir_in 20000]).
Proof.
  apply (transactions_stay_wellformed sample_db sample_ops (map_Forall_empty _) "1"%string).
  vm_compute. reflexivity.
Defined.
